(** * RNNVis state processor: a shallow embedding of [rnnvis/state_processor.py]

    The Python module post-processes hidden states recorded while an RNN is
    evaluated: it fetches them from a database, optionally differences them,
    groups them by word id, aggregates them and names the cache files of the
    heavy computations.  This development embeds those functions and proves
    the properties its specification states about them, followed by further
    properties of the same functions and of the remaining ones: their
    errors and edge cases, what the caches keep, and how the functions
    compose.

    Conventions of the embedding.
    - Python integers are [Z]; list indices follow Python (negative indices
      count from the end, anything else out of range raises [IndexError]).
    - Python exceptions are values of [exn]; a function that may raise
      returns a [result].
    - numpy arrays are [ndarray]: a shape and the row-major data.  Array
      elements are rationals, the exact-arithmetic reading of numpy floats.
    - Functions that touch the cache directory or the database run in the
      state monad [IO] over a [world] that holds the files and a log of the
      accesses made. *)

From Stdlib Require Import ZArith QArith Qround List String Ascii Lia Lqa Sorted.
From Stdlib Require Import Decimal DecimalString DecimalZ.
From stdpp Require Import base option list gmap strings.

Local Open Scope Z_scope.

(** ** Exceptions and fallible computations *)

Inductive exn : Type :=
| IndexError
| KeyError (key : string)
| TypeError (msg : string)
| ValueError (msg : string)
| LookupError (msg : string)
| AssertionError (msg : string)
| AttributeError (msg : string)
| FileNotFoundError (path : string).

Inductive result (A : Type) : Type :=
| Ok (a : A)
| Raise (e : exn).
Arguments Ok {A} a.
Arguments Raise {A} e.

#[export] Instance result_ret : MRet result := @Ok.
#[export] Instance result_bind : MBind result :=
  λ A B (f : A → result B) (m : result A),
    match m with
    | Ok a => f a
    | Raise e => Raise e
    end.
#[export] Instance result_fmap : FMap result :=
  λ A B (f : A → B) (m : result A),
    match m with
    | Ok a => Ok (f a)
    | Raise e => Raise e
    end.

Definition is_Ok {A} (r : result A) : Prop := ∃ a, r = Ok a.

(** [for x in xs: s = body(s, x)], stopping at the first exception. *)
Fixpoint for_each {A S : Type} (xs : list A) (body : S → A → result S) (s : S)
  : result S :=
  match xs with
  | [] => Ok s
  | x :: xs' => s' ← body s x; for_each xs' body s'
  end.

(** [list(map(f, xs))] for an [f] that may raise. *)
Fixpoint map_result {A B : Type} (f : A → result B) (xs : list A)
  : result (list B) :=
  match xs with
  | [] => Ok []
  | x :: xs' => y ← f x; ys ← map_result f xs'; Ok (y :: ys)
  end.

(** ** Python lists *)

(** [range(n)] for an integer [n]: empty when [n <= 0]. *)
Definition py_range (n : Z) : list nat := seq 0 (Z.to_nat n).

(** [enumerate(xs)]. *)
Definition enumerate {A : Type} (xs : list A) : list (nat * A) :=
  combine (seq 0 (length xs)) xs.

(** The position denoted by the Python index [i] in a list of length [n]. *)
Definition py_position (n : nat) (i : Z) : option nat :=
  if decide (0 ≤ i < Z.of_nat n) then Some (Z.to_nat i)
  else if decide (- Z.of_nat n ≤ i < 0) then Some (Z.to_nat (Z.of_nat n + i))
  else None.

(** [xs[i]]. *)
Definition py_getitem {A : Type} (xs : list A) (i : Z) : result A :=
  match py_position (length xs) i with
  | Some k =>
      match xs !! k with
      | Some x => Ok x
      | None => Raise IndexError
      end
  | None => Raise IndexError
  end.

(** [xs[i] = x]. *)
Definition py_setitem {A : Type} (xs : list A) (i : Z) (x : A) : result (list A) :=
  match py_position (length xs) i with
  | Some k => Ok (<[k := x]> xs)
  | None => Raise IndexError
  end.

(** [[x] * n]: empty when [n <= 0]. *)
Definition py_repeat {A : Type} (x : A) (n : Z) : list A :=
  replicate (Z.to_nat n) x.

(** [max(xs)] of a list of integers. *)
Definition py_max (xs : list Z) : result Z :=
  match xs with
  | [] => Raise (ValueError "max() arg is an empty sequence")
  | x :: xs' => Ok (fold_left Z.max xs' x)
  end.

(** ** numpy arrays *)

Record ndarray : Type := mk_ndarray {
  nd_shape : list nat;
  nd_data : list Q
}.

Definition nd_size (shape : list nat) : nat := fold_right Nat.mul 1%nat shape.

Definition nd_ndim (a : ndarray) : nat := length (nd_shape a).

(** An array is well formed when its data fills its shape. *)
Definition nd_wf (a : ndarray) : Prop :=
  length (nd_data a) = nd_size (nd_shape a).

(** [np.zeros(shape)]. *)
Definition np_zeros (shape : list nat) : ndarray :=
  mk_ndarray shape (replicate (nd_size shape) 0%Q).

(** [a - b] for two arrays of one shape.  numpy would try to broadcast
    operands of different shapes; the states of one field have one shape,
    and the embedding reports every other pair as the [ValueError] numpy
    raises when broadcasting fails. *)
Definition nd_sub (a b : ndarray) : result ndarray :=
  if decide (nd_shape a = nd_shape b)
  then Ok (mk_ndarray (nd_shape a) (zip_with Qminus (nd_data a) (nd_data b)))
  else Raise (ValueError "operands could not be broadcast together").

(** ** The differencer: [cal_diff] *)

(** [diff_arrays.append(arrays[i+1] - arrays[i])] for [i] in
    [range(len(arrays)-1)]. *)
Definition cal_diff (arrays : list ndarray) : result (list ndarray) :=
  for_each (py_range (Z.of_nat (length arrays) - 1))
    (λ diff_arrays i,
       a1 ← py_getitem arrays (Z.of_nat i + 1);
       a0 ← py_getitem arrays (Z.of_nat i);
       d ← nd_sub a1 a0;
       Ok (diff_arrays ++ [d]))
    [].

(** ** The record fetcher: [fetch_state_of_eval] and [fetch_states] *)

(** One evaluation record of the database: the word id of the time step and
    the state arrays stored under the field names. *)
Record record : Type := mk_record {
  word_id : Z;
  rec_fields : gmap string ndarray
}.

(** [record[field]]. *)
Definition rec_getitem (r : record) (field : string) : result ndarray :=
  match rec_fields r !! field with
  | Some a => Ok a
  | None => Raise (KeyError field)
  end.

(** An evaluation as [query_evals] returns it; only its ['_id'] is used. *)
Record eval : Type := mk_eval { eval__id : string }.

(** The database layer ([rnnvis.db.db_helper]) is outside this module; it is
    taken as the two queries the module calls. *)
Record database : Type := mk_database {
  query_evals : string → string → list eval;
  query_evaluation_records : string → list record
}.

(** The [field_name] argument: one name or a list of names. *)
Inductive field_arg : Type :=
| FieldName (name : string)
| FieldNames (names : list string).

(** The [diff] argument: one flag or a list of flags. *)
Inductive diff_arg : Type :=
| DiffFlag (flag : bool)
| DiffFlags (flags : list bool).

(** What [fetch_state_of_eval] returns as states: the sequence of the only
    field requested, or one sequence per field. *)
Inductive fetched : Type :=
| OneField (states : list ndarray)
| ManyFields (states : list (list ndarray)).

(** The first four statements of [fetch_state_of_eval]: a single name and
    its flag are wrapped into lists; with a list of names the flags must be
    a list as well.  A flag is read for its truth value only, and a list
    used as the flag of a single name is true when it is not empty. *)
Definition normalize_fields (field_name : field_arg) (diff : diff_arg)
  : result (list string * list bool) :=
  match field_name, diff with
  | FieldNames names, DiffFlags flags => Ok (names, flags)
  | FieldNames _, DiffFlag _ => Raise (AssertionError "")
  | FieldName name, DiffFlag flag => Ok ([name], [flag])
  | FieldName name, DiffFlags flags =>
      Ok ([name], [bool_decide (flags ≠ [])])
  end.

(** [[record[field] for record in records]]. *)
Definition field_states (records : list record) (field : string)
  : result (list ndarray) :=
  map_result (λ r, rec_getitem r field) records.

(** The body of the loop over the fields. *)
Definition fetch_field (records : list record) (diff : list bool)
    (i : nat) (field : string) : result (list ndarray) :=
  state ← field_states records field;
  flag ← py_getitem diff (Z.of_nat i);
  if (flag : bool) then
    s0 ← py_getitem state 0;
    ds ← cal_diff state;
    Ok ([s0] ++ ds)
  else Ok state.

Definition fetch_state_of_eval (db : database) (eval_id : string)
    (field_name : field_arg) (diff : diff_arg)
  : result (list Z * fetched) :=
  let records := query_evaluation_records db eval_id in
  let word_ids := map word_id records in
  '(field_name, diff) ← normalize_fields field_name diff;
  states ← for_each (enumerate field_name)
    (λ states '(i, field),
       state ← fetch_field records diff i field;
       Ok (states ++ [state]))
    [];
  match states with
  | [state] => Ok (word_ids, OneField state)
  | _ => Ok (word_ids, ManyFields states)
  end.

(** The sequence of the [i]-th requested field in what was fetched. *)
Definition fetched_field (f : fetched) (i : nat) : option (list ndarray) :=
  match f with
  | OneField states => if decide (i = 0%nat) then Some states else None
  | ManyFields states => states !! i
  end.

(** One element of the [states] list that [fetch_states] accumulates: with
    one field requested the list is extended by the states themselves, with
    several fields by the per-field sequences. *)
Inductive state_item : Type :=
| ItemArray (a : ndarray)
| ItemList (states : list ndarray).

Definition fetched_items (f : fetched) : list state_item :=
  match f with
  | OneField states => ItemArray <$> states
  | ManyFields states => ItemList <$> states
  end.

Definition fetch_states (db : database) (data_name model_name : string)
    (field_name : field_arg) (diff : diff_arg)
  : result (list Z * list state_item) :=
  let evals := query_evals db data_name model_name in
  if decide (length evals = 0%nat)
  then Raise (LookupError ("No eval records with data_name: " +:+ data_name
                           +:+ " and model_name: " +:+ model_name))
  else
    for_each evals
      (λ '(word_ids, states) eval,
         '(word_ids_, states_) ←
           fetch_state_of_eval db (eval__id eval) field_name diff;
         Ok (word_ids ++ word_ids_, states ++ fetched_items states_))
      ([], []).

(** ** The grouper: [sort_by_id] *)

Definition sort_by_id {A : Type} (word_ids : list Z) (states : list A)
  : result (list (option (list A))) :=
  max_id ← py_max word_ids;
  let id_to_states : list (option (list A)) := py_repeat None (max_id + 1) in
  for_each (enumerate word_ids)
    (λ id_to_states '(k, id_),
       bucket ← py_getitem id_to_states id_;
       let bucket := match bucket with
                     | None => []
                     | Some states_of_id => states_of_id
                     end in
       state ← py_getitem states (Z.of_nat k);
       py_setitem id_to_states id_ (Some (bucket ++ [state])))
    id_to_states.

(** ** Array operations used by the aggregations *)

(** The [i]-th slice of an array along axis 0 has [nd_size (tail shape)]
    elements, starting at [i] times that size. *)
Definition nd_slice (a : ndarray) (i : nat) : list Q :=
  let m := nd_size (tail (nd_shape a)) in
  take m (drop (i * m) (nd_data a)).

(** [a[i]] for an integer [i]. *)
Definition nd_getitem (a : ndarray) (i : Z) : result ndarray :=
  match nd_shape a with
  | [] => Raise IndexError
  | n :: rest =>
      match py_position n i with
      | Some k => Ok (mk_ndarray rest (nd_slice a k))
      | None => Raise IndexError
      end
  end.

(** [a[layer]] for a list [layer] of integers: the selected slices along
    axis 0, stacked in the order of the list. *)
Definition nd_take (a : ndarray) (layer : list Z) : result ndarray :=
  match nd_shape a with
  | [] => Raise IndexError
  | n :: rest =>
      slices ← map_result
        (λ i, match py_position n i with
              | Some k => Ok (nd_slice a k)
              | None => Raise IndexError
              end) layer;
      Ok (mk_ndarray (length layer :: rest) (concat slices))
  end.

(** [np.stack(arrays, axis=0)]. *)
Definition np_stack (arrays : list ndarray) : result ndarray :=
  match arrays with
  | [] => Raise (ValueError "need at least one array to stack")
  | a :: _ =>
      if decide (Forall (λ b, nd_shape b = nd_shape a) arrays)
      then Ok (mk_ndarray (length arrays :: nd_shape a)
                          (concat (nd_data <$> arrays)))
      else Raise (ValueError "all input arrays must have the same shape")
  end.

(** [np.atleast_2d(a)]. *)
Definition np_atleast_2d (a : ndarray) : ndarray :=
  match nd_shape a with
  | [] => mk_ndarray [1; 1]%nat (nd_data a)
  | [n] => mk_ndarray [1; n]%nat (nd_data a)
  | _ => a
  end.

(** [np.vstack(arrays)]: the arrays, made at least two-dimensional, are
    concatenated along axis 0. *)
Definition np_vstack (arrays : list ndarray) : result ndarray :=
  match np_atleast_2d <$> arrays with
  | [] => Raise (ValueError "need at least one array to concatenate")
  | (a :: _) as arrays2 =>
      if decide (Forall (λ b, tail (nd_shape b) = tail (nd_shape a)) arrays2)
      then Ok (mk_ndarray
                 (sum_list ((λ b, hd 0%nat (nd_shape b)) <$> arrays2)
                    :: tail (nd_shape a))
                 (concat (nd_data <$> arrays2)))
      else Raise (ValueError "all the input array dimensions except for the concatenation axis must match exactly")
  end.

(** The values met along axis 0 at the [j]-th position of the slices. *)
Definition nd_column (a : ndarray) (j : nat) : list Q :=
  let n := hd 0%nat (nd_shape a) in
  let m := nd_size (tail (nd_shape a)) in
  (λ i, nth (i * m + j)%nat (nd_data a) 0%Q) <$> seq 0 n.

(** A reduction along axis 0, such as [np.mean(a, axis=0)]: one value per
    position of the slices.  An array without axes has no axis 0. *)
Definition nd_reduce_axis0 (f : list Q → result Q) (a : ndarray)
  : result ndarray :=
  match nd_shape a with
  | [] => Raise (ValueError "axis 0 is out of bounds for array of dimension 0")
  | _ :: rest =>
      data ← map_result (λ j, f (nd_column a j)) (seq 0 (nd_size rest));
      Ok (mk_ndarray rest data)
  end.

Definition Qsum (xs : list Q) : Q := foldr Qplus 0%Q xs.

(** The mean of the values along one axis, of which there is at least
    one. *)
Definition mean_value (xs : list Q) : Q :=
  (Qsum xs / inject_Z (Z.of_nat (length xs)))%Q.

(** numpy answers nan (and warns) for the mean of no value; the rationals
    have no nan, and the embedding raises there. *)
Definition mean_of (xs : list Q) : result Q :=
  match xs with
  | [] => Raise (ValueError "mean of empty slice")
  | _ => Ok (mean_value xs)
  end.

(** [np.mean(a, axis=0)]. *)
Definition np_mean_axis0 (a : ndarray) : result ndarray :=
  nd_reduce_axis0 mean_of a.

(** Insertion sort, stable, for [np.percentile] and [np.argsort]. *)
Fixpoint insert_by {A : Type} (le : A → A → bool) (x : A) (l : list A) : list A :=
  match l with
  | [] => [x]
  | y :: l' => if le x y then x :: y :: l' else y :: insert_by le x l'
  end.

Definition sort_by {A : Type} (le : A → A → bool) (l : list A) : list A :=
  foldr (insert_by le) [] l.

(** The [q]-th percentile of the values [xs], of which there is at least
    one, with numpy's default linear interpolation: the sorted values are
    read at the virtual index [(n-1) * q/100], interpolating between its two
    neighbours. *)
Definition percentile_linear (q : Q) (xs : list Q) : Q :=
  let sorted := sort_by Qle_bool xs in
  let n := length xs in
  let virtual_index := (inject_Z (Z.of_nat (n - 1)) * q / 100)%Q in
  let lo := Z.to_nat (Qfloor virtual_index) in
  let hi := Nat.min (lo + 1) (n - 1) in
  let gamma := (virtual_index - inject_Z (Z.of_nat lo))%Q in
  let x_lo := nth lo sorted 0%Q in
  let x_hi := nth hi sorted 0%Q in
  (x_lo + (x_hi - x_lo) * gamma)%Q.

(** [np.percentile] checks the range of [q]; as for the mean, the
    embedding raises where numpy answers nan. *)
Definition percentile_of (q : Q) (xs : list Q) : result Q :=
  if negb (Qle_bool 0 q && Qle_bool q 100)
  then Raise (ValueError "Percentiles must be in the range [0, 100]")
  else
    match xs with
    | [] => Raise (ValueError "percentile of empty slice")
    | _ => Ok (percentile_linear q xs)
    end.

(** [np.percentile(a, q, axis=0)]. *)
Definition np_percentile_axis0 (a : ndarray) (q : Q) : result ndarray :=
  nd_reduce_axis0 (percentile_of q) a.

(** [np.argsort(a)] of a vector: the positions of its values in ascending
    order.  numpy's default sort leaves the order of equal values open; the
    embedding keeps them in their original order.  Sorting arrays of more
    axes is outside the embedding. *)
Definition np_argsort (a : ndarray) : result (list nat) :=
  match nd_shape a with
  | [_] =>
      Ok (snd <$> sort_by (λ x y, Qle_bool (fst x) (fst y))
                    (combine (nd_data a) (seq 0 (length (nd_data a)))))
  | _ => Raise (TypeError "argsort of an array that is not a vector")
  end.

(** [a[idx]] for a vector [a] and the index array [idx] of [np.argsort]. *)
Definition nd_permute (a : ndarray) (idx : list nat) : result ndarray :=
  match nd_shape a with
  | [_] =>
      data ← map_result (λ i, py_getitem (nd_data a) (Z.of_nat i)) idx;
      Ok (mk_ndarray [length idx] data)
  | _ => Raise (TypeError "indexing of an array that is not a vector")
  end.

(** ** The strength aggregator: [cal_empirical_strength] *)

(** [state.shape] of an element of a bucket. *)
Definition item_shape (s : state_item) : result (list nat) :=
  match s with
  | ItemArray a => Ok (nd_shape a)
  | ItemList _ => Raise (AttributeError "'list' object has no attribute 'shape'")
  end.

(** [np.asanyarray(state)], which [np.stack] applies to its elements: a
    list of equally shaped arrays becomes one array. *)
Definition item_asarray (s : state_item) : result ndarray :=
  match s with
  | ItemArray a => Ok a
  | ItemList [] => Ok (mk_ndarray [0%nat] [])
  | ItemList states => np_stack states
  end.

(** [id_states[0][0].shape]. *)
Definition first_state_shape (id_states : list (option (list state_item)))
  : result (list nat) :=
  bucket ← py_getitem id_states 0;
  match bucket with
  | None => Raise (TypeError "'NoneType' object is not subscriptable")
  | Some states => state ← py_getitem states 0; item_shape state
  end.

(** The inner function [strenth_map]. *)
Definition strenth_map (state_shape : list nat)
    (strength_func : ndarray → result ndarray)
    (states : option (list state_item)) : result ndarray :=
  match states with
  | None => Ok (np_zeros state_shape)
  | Some states =>
      arrays ← map_result item_asarray states;
      states_mat ← np_stack arrays;
      strength_func states_mat
  end.

Definition cal_empirical_strength (id_states : list (option (list state_item)))
    (strength_func : ndarray → result ndarray) : result (list ndarray) :=
  state_shape ← first_state_shape id_states;
  map_result (strenth_map state_shape strength_func) id_states.

(** ** The cache directory and the database as state *)

(** What the module pickles into its cache files. *)
Inductive blob : Type :=
| PickledWords (words : list Z)
| PickledStates (states : list state_item)
| PickledStrengths (id_strengths : list ndarray).

(** The accesses a call makes, in order.  The queries that [fetch_states]
    sends to the database are logged as one access. *)
Inductive event : Type :=
| FileExists (path : string)
| FileRead (path : string)
| FileWrite (path : string)
| BeforeSave (path : string)
| DatabaseQuery (data_name model_name : string).

Record world : Type := mk_world {
  files : gmap string blob;
  events : list event
}.

Definition IO (A : Type) : Type := world → result A * world.

#[export] Instance IO_ret : MRet IO := λ A (a : A) (w : world), (Ok a, w).
#[export] Instance IO_bind : MBind IO :=
  λ A B (f : A → IO B) (m : IO A) (w : world),
    match m w with
    | (Ok a, w') => f a w'
    | (Raise e, w') => (Raise e, w')
    end.

Definition io_lift {A : Type} (r : result A) : IO A := λ w, (r, w).

Definition log_event (e : event) (w : world) : world :=
  mk_world (files w) (events w ++ [e]).

Definition io_log (e : event) : IO unit :=
  λ w, (Ok (), log_event e w).

(** Modelled from the spec: [file_exists] of [rnnvis.utils.io_utils], which
    is not part of the sources at hand; a cache hit is the presence of the
    file named by the key. *)
Definition file_exists (path : string) : IO bool :=
  λ w, (Ok (bool_decide (is_Some (files w !! path))),
        log_event (FileExists path) w).

(** Modelled from the spec: [before_save] of [rnnvis.utils.io_utils], which
    is not part of the sources at hand; it creates the missing directories
    of a path, which the flat file map of [world] does not need. *)
Definition before_save (path : string) : IO unit :=
  io_log (BeforeSave path).

(** [with open(path, 'rb') as f: pickle.loads(f.read())]. *)
Definition read_pickle (path : string) : IO blob :=
  λ w, (match files w !! path with
        | Some b => Ok b
        | None => Raise (FileNotFoundError path)
        end,
        log_event (FileRead path) w).

(** [with open(path, 'wb') as f: pickle.dump(value, f)].  A write that the
    file system refuses is outside the embedding: what is proved of a run
    that writes is proved of the runs whose writes succeed. *)
Definition write_pickle (path : string) (value : blob) : IO unit :=
  λ w, (Ok (),
        mk_world (<[path := value]> (files w)) (events w ++ [FileWrite path])).

(** A pickle of another kind than the caller expects is reported as a
    [TypeError]: the caller's next operation on it fails. *)
Definition expect_words (b : blob) : result (list Z) :=
  match b with
  | PickledWords words => Ok words
  | _ => Raise (TypeError "unexpected pickle")
  end.

Definition expect_states (b : blob) : result (list state_item) :=
  match b with
  | PickledStates states => Ok states
  | _ => Raise (TypeError "unexpected pickle")
  end.

Definition expect_strengths (b : blob) : result (list ndarray) :=
  match b with
  | PickledStrengths id_strengths => Ok id_strengths
  | _ => Raise (TypeError "unexpected pickle")
  end.

(** Python's [str] of an integer. *)
Definition py_str_int (z : Z) : string := NilZero.string_of_int (Z.to_int z).

(** [sep.join(parts)]. *)
Definition py_join (sep : string) (parts : list string) : string :=
  String.concat sep parts.

Definition _tmp_dir : string := "_cached/tmp".

(** The [layer] argument of [get_empirical_strength]: an integer or a list
    of integers. *)
Inductive layer_arg : Type :=
| LayerInt (layer : Z)
| LayerList (layers : list Z).

(** The first statement of [get_empirical_strength]: a layer that is not a
    list is wrapped into one. *)
Definition selected_layers (layer : layer_arg) : list Z :=
  match layer with
  | LayerList layers => layers
  | LayerInt layer => [layer]
  end.

Section Cache.

(** [get_path] of [rnnvis.utils.io_utils] is not part of the sources at
    hand; it is taken as it is called, from a directory and a file name to
    a path. *)
Variable get_path : string → string → string.

Variable db : database.

Definition load_words_and_state (data_name model_name state_name : string)
    (diff : bool) : IO (list Z * list state_item) :=
  let word_file := data_name +:+ "-" +:+ model_name +:+ "-words.pkl" in
  let word_file := get_path _tmp_dir word_file in
  let states_file := data_name +:+ "-" +:+ model_name +:+ "-" +:+ state_name
                       +:+ (if diff then "-diff" else "") +:+ ".pkl" in
  let states_file := get_path _tmp_dir states_file in
  has_words ← file_exists word_file;
  has_states ← (if (has_words : bool) then file_exists states_file
                else mret false);
  if (has_states : bool) then
    b ← read_pickle word_file;
    words ← io_lift (expect_words b);
    b ← read_pickle states_file;
    states ← io_lift (expect_states b);
    mret (words, states)
  else
    _ ← io_log (DatabaseQuery data_name model_name);
    '(words, states) ← io_lift
      (fetch_states db data_name model_name (FieldName state_name) (DiffFlag diff));
    _ ← before_save word_file;
    _ ← write_pickle word_file (PickledWords words);
    _ ← write_pickle states_file (PickledStates states);
    mret (words, states).

(** The cache tier of a request: [100 if top_k <= 100 else 500 if top_k
    <= 500 else 1000]. *)
Definition strength_tier (top_k : Z) : Z :=
  if decide (top_k ≤ 100) then 100
  else if decide (top_k ≤ 500) then 500
  else 1000.

(** The name of the cache file of a tier, before [get_path]. *)
Definition strength_file_name (data_name model_name state_name : string)
    (top : Z) : string :=
  py_join "-" [data_name; model_name; state_name; py_str_int top] +:+ ".pkl".

(** The path of the cache file of the tier of [top_k]: [tmp_file] of
    [get_empirical_strength]. *)
Definition tier_path (data_name model_name state_name : string) (top_k : Z)
  : string :=
  get_path _tmp_dir
    (strength_file_name data_name model_name state_name (strength_tier top_k)).

Definition get_empirical_strength (data_name model_name state_name : string)
    (layer : layer_arg) (top_k : Z) : IO (list ndarray) :=
  let layer := selected_layers layer in
  if decide (top_k > 1000)
  then io_lift (Raise (ValueError "selected words range too large, only support top 1000 frequent words!"))
  else
    let top := strength_tier top_k in
    let tmp_file := strength_file_name data_name model_name state_name top in
    let tmp_file := get_path _tmp_dir tmp_file in
    hit ← file_exists tmp_file;
    id_strengths ←
      (if (hit : bool) then
         b ← read_pickle tmp_file;
         io_lift (expect_strengths b)
       else
         '(words, states) ←
           load_words_and_state data_name model_name state_name true;
         id_to_states ← io_lift (sort_by_id words states);
         id_strengths ← io_lift
           (cal_empirical_strength (take (Z.to_nat top) id_to_states)
              np_mean_axis0);
         _ ← write_pickle tmp_file (PickledStrengths id_strengths);
         mret id_strengths);
    io_lift
      (map_result
         (λ i, strength ← py_getitem id_strengths (Z.of_nat i);
               nd_take strength layer)
         (py_range top_k)).

End Cache.

(** ** The cache keys of the signature sampler and of the projector *)

(** The [layer] argument of [get_state_signature]: [None], an integer or a
    list of integers. *)
Inductive layer_sel : Type :=
| LayerNone
| LayerOne (layer : Z)
| LayerMany (layers : list Z).

(** The first statements of [get_state_signature]: a single layer is
    wrapped into a list. *)
Definition signature_layers (layer : layer_sel) : option (list Z) :=
  match layer with
  | LayerNone => None
  | LayerOne l => Some [l]
  | LayerMany ls => Some ls
  end.

(** [layer_str] of [get_state_signature]. *)
Definition layer_str (layer : option (list Z)) : string :=
  match layer with
  | None => "all"
  | Some ls => py_join "" (py_str_int <$> ls)
  end.

(** [file_name] of [get_state_signature] before [get_path]: the key of the
    cached sample. *)
Definition signature_file_name (data_name model_name state_name : string)
    (layer : layer_sel) (sample_size : Z) (dim : option Z) : string :=
  let layer := signature_layers layer in
  let layer_str := layer_str layer in
  py_join "-" [data_name; model_name; state_name;
               match layer with None => "all" | Some _ => layer_str end;
               py_str_int sample_size;
               match dim with
               | Some d => py_str_int d
               | None => py_str_int sample_size
               end] +:+ ".pkl".

(** Python's [int] of a float, here of a rational: truncation towards
    zero. *)
Definition py_int_of_float (x : Q) : Z := Z.quot (Qnum x) (Z.pos (Qden x)).

(** Python's [str] of an integer or [None]. *)
Definition py_str_opt (z : option Z) : string :=
  match z with
  | Some z => py_str_int z
  | None => "None"
  end.

(** [tmp_file] of [get_tsne_projection] before [get_path]: the key of the
    cached projection.  [layer] is an integer, as the function asserts;
    [sample_size] is an argument of the call and is not used. *)
Definition tsne_file_name (data_name model_name state_name : string)
    (layer : Z) (sample_size : Z) (dim : option Z) (perplexity : Q) : string :=
  py_join "-" [data_name; model_name; state_name; "tsne";
               py_str_int layer; py_str_opt dim;
               py_str_int (py_int_of_float perplexity)] +:+ ".pkl".

(** ** The serializer: [solution2json] *)

Record point (C : Type) : Type := mk_point {
  coords : C;
  layer : Z;
  state_id : Z;
  label : Z
}.
Arguments mk_point {C} _ _ _ _.
Arguments coords {C} _.
Arguments layer {C} _.
Arguments state_id {C} _.
Arguments label {C} _.

(** The loop of [solution2json] that expands [states_num] into the flat
    [layers] and [state_ids] lists. *)
Definition expand_states_num (states_num : list Z) : list Z * list Z :=
  fold_left
    (λ '(layers, state_ids) '(i, num),
       (layers ++ py_repeat (Z.of_nat i + 1) num,
        state_ids ++ (Z.of_nat <$> py_range num)))
    (enumerate states_num) ([], []).

(** The [points] that [solution2json] hands to [dict2json]. *)
Definition solution2json_points {C : Type} (solution : list C)
    (states_num : list Z) (labels : option (list Z)) : result (list (point C)) :=
  let labels := match labels with
                | None => py_repeat 0 (Z.of_nat (length solution))
                | Some labels => labels
                end in
  let '(layers, state_ids) := expand_states_num states_num in
  map_result
    (λ '(i, s),
       l ← py_getitem layers (Z.of_nat i);
       sid ← py_getitem state_ids (Z.of_nat i);
       lab ← py_getitem labels (Z.of_nat i);
       Ok (mk_point s l sid lab))
    (enumerate solution).

(** [dict2json] of [rnnvis.utils.io_utils] is not part of the sources at
    hand; it is taken as an argument. *)
Definition solution2json {C J : Type}
    (dict2json : list (point C) → option string → J)
    (solution : list C) (states_num : list Z) (labels : option (list Z))
    (path : option string) : result J :=
  points ← solution2json_points solution states_num labels;
  Ok (dict2json points path).

(** ** The statistics engine: [compute_stats] *)

(** The five lists [compute_stats] returns, and [idx], which it keeps from
    one layer to the next. *)
Record stats : Type := mk_stats {
  means : list ndarray;
  stds : list ndarray;
  errors_l : list ndarray;
  errors_u : list ndarray;
  indices : list (option (list nat))
}.

Section Stats.

(** [np.std] along one axis takes a square root, which the rationals do
    not have; the standard deviation of a list of values is taken as
    given. *)
Variable std_of : list Q → Q.

Definition np_std_axis0 (a : ndarray) : result ndarray :=
  nd_reduce_axis0 (λ xs, Ok (std_of xs)) a.

(** The body of the loop over the layers. *)
Definition compute_stats_layer (states : list ndarray) (sort_by_mean : bool)
    (percent : Q) (acc : stats * option (list nat)) (layer : nat)
  : result (stats * option (list nat)) :=
  let '(st, idx) := acc in
  state_list ← map_result (λ state, nd_getitem state (Z.of_nat layer)) states;
  states_mat ← np_vstack state_list;
  std ← np_std_axis0 states_mat;
  mean ← np_mean_axis0 states_mat;
  p_lower ← np_percentile_axis0 states_mat ((100 - percent) / 2)%Q;
  error_l ← nd_sub mean p_lower;
  p_upper ← np_percentile_axis0 states_mat (50 + percent / 2)%Q;
  error_u ← nd_sub p_upper mean;
  '(idx, mean, std, error_u, error_l) ←
    (if sort_by_mean then
       idx ← np_argsort mean;
       mean ← nd_permute mean idx;
       std ← nd_permute std idx;
       error_u ← nd_permute error_u idx;
       error_l ← nd_permute error_l idx;
       Ok (Some idx, mean, std, error_u, error_l)
     else Ok (idx, mean, std, error_u, error_l));
  Ok (mk_stats (means st ++ [mean]) (stds st ++ [std])
               (errors_l st ++ [error_l]) (errors_u st ++ [error_u])
               (indices st ++ [idx]),
      idx).

Definition compute_stats (states : list ndarray) (sort_by_mean : bool)
    (percent : Q) : result stats :=
  state0 ← py_getitem states 0;
  layer_num ← py_getitem (nd_shape state0) 0;
  '(st, _) ← for_each (py_range (Z.of_nat layer_num))
    (compute_stats_layer states sort_by_mean percent)
    (mk_stats [] [] [] [] [], None);
  Ok st.

End Stats.

(** ** The remaining functions of the module *)

(** The sum of the products of two rows. *)
Definition dot (xs ys : list Q) : Q := Qsum (zip_with Qmult xs ys).

(** [cal_similar1]: [np.dot(array, array.T)].  For a matrix of [n] rows the
    result is the [n] by [n] matrix of the products of its rows; a vector
    is its own transpose and gives a number.  Arrays of more axes are
    outside the embedding. *)
Definition cal_similar1 (array : ndarray) : result ndarray :=
  match nd_shape array with
  | [] => Ok (mk_ndarray [] [dot (nd_data array) (nd_data array)])
  | [_] => Ok (mk_ndarray [] [dot (nd_data array) (nd_data array)])
  | [n; _] =>
      Ok (mk_ndarray [n; n]
            (i ← seq 0 n; j ← seq 0 n; [dot (nd_slice array i) (nd_slice array j)]))
  | _ => Raise (TypeError "dot of an array of more than two axes")
  end.

(** Python's nested lists of numbers, as [ndarray.tolist()] builds them. *)
#[warnings="-register-all"]
Inductive pylist : Type :=
| PyNum (x : Q)
| PyList (items : list pylist).

(** [array.tolist()] for the data of an array of the given shape. *)
Fixpoint tolist_of (shape : list nat) (data : list Q) : pylist :=
  match shape with
  | [] => PyNum (hd 0%Q data)
  | n :: rest =>
      let m := nd_size rest in
      PyList ((λ i, tolist_of rest (take m (drop (i * m) data))) <$> seq 0 n)
  end.

Definition nd_tolist (a : ndarray) : pylist :=
  tolist_of (nd_shape a) (nd_data a).

(** One record of [strength2json]. *)
Record strength_point : Type := mk_strength_point {
  sp_word : string;
  sp_strength : pylist;
  sp_label : Z
}.

(** The [points] that [strength2json] hands to [dict2json]. *)
Definition strength2json_points (strength_list : list ndarray)
    (words : list string) (labels : option (list Z))
  : result (list strength_point) :=
  let labels := match labels with
                | None => py_repeat 0 (Z.of_nat (length strength_list))
                | Some labels => labels
                end in
  map_result
    (λ '(i, strength),
       word ← py_getitem words (Z.of_nat i);
       lab ← py_getitem labels (Z.of_nat i);
       Ok (mk_strength_point word (nd_tolist strength) lab))
    (enumerate strength_list).

Definition strength2json {J : Type}
    (dict2json : list strength_point → option string → J)
    (strength_list : list ndarray) (words : list string)
    (labels : option (list Z)) (path : option string) : result J :=
  points ← strength2json_points strength_list words labels;
  Ok (dict2json points path).

(** [xs[:k]]: the first [k] elements, or all but the last [-k] for a
    negative [k]. *)
Definition py_slice_to {A : Type} (xs : list A) (k : Z) : list A :=
  if decide (0 ≤ k) then take (Z.to_nat k) xs
  else take (Z.to_nat (Z.of_nat (length xs) + k)) xs.

(** [fetch_freq_words].  [get_dataset] of [rnnvis.db] is not part of the
    sources at hand; the vocabulary it returns under ['id_to_word'] is
    taken as an argument. *)
Definition fetch_freq_words (id_to_word : string → list string)
    (data_name : string) (k : Z) : list string :=
  py_slice_to (id_to_word data_name) k.

(** [get_state_value]: [[state[layer, dim] for state in states]]. *)
Definition get_state_value (states : list ndarray) (layer dim : Z)
  : result (list ndarray) :=
  map_result (λ state, row ← nd_getitem state layer; nd_getitem row dim) states.

(** ** Example data *)

Module Example.

(** A state of two layers of two units. *)
Definition state2x2 (a b c d : Z) : ndarray :=
  mk_ndarray [2; 2]%nat [inject_Z a; inject_Z b; inject_Z c; inject_Z d].

Definition rec3 : list record :=
  [ mk_record 5 {[ "state_c" := state2x2 1 2 3 4 ]};
    mk_record 5 {[ "state_c" := state2x2 2 4 6 8 ]};
    mk_record 7 {[ "state_c" := state2x2 0 1 0 1 ]} ].

(** One evaluation of three time steps with word ids 5, 5, 7. *)
Definition db : database :=
  mk_database (λ _ _, [mk_eval "eval0"]) (λ _, rec3).

(** A [get_path] that joins directory and file name. *)
Definition get_path (dir file : string) : string := dir +:+ "/" +:+ file.

(** One evaluation of three time steps with word ids 0, 1, 0. *)
Definition rec010 : list record :=
  [ mk_record 0 {[ "state" := state2x2 1 2 3 4 ]};
    mk_record 1 {[ "state" := state2x2 2 4 6 8 ]};
    mk_record 0 {[ "state" := state2x2 0 1 0 1 ]} ].

Definition db010 : database :=
  mk_database (λ _ _, [mk_eval "eval0"]) (λ _, rec010).

(** A world with nothing cached. *)
Definition empty_world : world := mk_world ∅ [].

(** A world in which the strengths of two words are cached for the tier
    of 100 words. *)
Definition cached_world : world :=
  mk_world
    {[ get_path _tmp_dir "ptb-GRU-state-100.pkl"
         := PickledStrengths [state2x2 1 2 3 4; state2x2 5 6 7 8] ]}
    [].

(** A world in which the strengths of a thousand words are cached for the
    tier of 1000 words. *)
Definition full_world : world :=
  mk_world
    {[ get_path _tmp_dir "ptb-GRU-state-1000.pkl"
         := PickledStrengths (replicate 1000 (state2x2 1 2 3 4)) ]}
    [].

(** A state of one layer of one unit. *)
Definition state1x1 (x : Z) : ndarray := mk_ndarray [1; 1]%nat [inject_Z x].

(** Five records of one unit whose values are skewed: one far below the
    others. *)
Definition skewed : list ndarray :=
  [state1x1 (-100); state1x1 0; state1x1 0; state1x1 0; state1x1 0].

(** A standard deviation for the examples, which do not look at it. *)
Definition no_std (xs : list Q) : Q := 0%Q.

End Example.

(** ** Specification predicates *)

(** What the specification says of a differenced sequence [out] of the
    fetched sequence [s]: same length, same first element, and afterwards
    the difference of each element and its predecessor. *)
Definition keep_first_then_diff (s out : list ndarray) : Prop :=
  length out = length s
  ∧ out !! 0%nat = s !! 0%nat
  ∧ ∀ k, (1 ≤ k < length s)%nat →
         ∃ a b d, s !! (k - 1)%nat = Some a ∧ s !! k = Some b
                  ∧ nd_sub b a = Ok d ∧ out !! k = Some d.

(** The states recorded with the word id [id], in the order of the time
    steps, among the pairs of word ids and states. *)
Definition group_of {A : Type} (pairs : list (Z * A)) (id : Z) : list A :=
  snd <$> filter (λ p, p.1 = id) pairs.

(** The bucket of a group: absent ([None]) when the group is empty. *)
Definition to_bucket {A : Type} (states : list A) : option (list A) :=
  match states with
  | [] => None
  | _ => Some states
  end.

(** The bucket list of [n] word ids built from pairs of word ids and
    states. *)
Definition buckets_of {A : Type} (n : nat) (pairs : list (Z * A))
  : list (option (list A)) :=
  (λ j, to_bucket (group_of pairs (Z.of_nat j))) <$> seq 0 n.

(** The number of records held by a bucket list. *)
Definition bucket_count {A : Type} (buckets : list (option (list A))) : nat :=
  sum_list ((λ b, length (default [] b)) <$> buckets).

(** Python's [sum] of a list of integers. *)
Definition py_sum (xs : list Z) : Z := foldr Z.add 0 xs.

(** The position at which the block of layer [j] starts when [states_num]
    is expanded: the sizes of the blocks before it, a negative count giving
    an empty block. *)
Definition block_start (states_num : list Z) (j : nat) : nat :=
  sum_list (Z.to_nat <$> take j states_num).

(** The blocks of layer numbers and of state ids that the loop of
    [solution2json] appends, the layers counted from [off]. *)
Definition layer_blocks (off : nat) (states_num : list Z) : list (list Z) :=
  (λ '(i, num), py_repeat (Z.of_nat i + 1) num)
    <$> zip (seq off (length states_num)) states_num.

Definition id_blocks (states_num : list Z) : list (list Z) :=
  (λ num, Z.of_nat <$> py_range num) <$> states_num.

(** A string without the delimiter of the cache keys. *)
Definition dash_free (s : string) : bool :=
  forallb (λ c, negb (Ascii.eqb c "-")) (list_ascii_of_string s).

(** The last component of the key of a sample: [dim], or [sample_size]
    when no [dim] is given. *)
Definition effective_dim (sample_size : Z) (dim : option Z) : Z :=
  default sample_size dim.

(** A selector of no layer or of one layer. *)
Definition at_most_one_layer (layer : layer_sel) : Prop :=
  match layer with
  | LayerNone | LayerOne _ | LayerMany [_] => True
  | LayerMany _ => False
  end.

(** A computation only adds to the log of accesses. *)
Definition io_extends {A : Type} (m : IO A) : Prop :=
  ∀ w, ∃ rest, events (m w).2 = events w ++ rest.

(** The strengths of the tier of [top_k] are at hand: pickled in the file
    of the tier, or, without that file, computed from the loaded words and
    states. *)
Definition tier_strengths (get_path : string → string → string) (db : database)
    (data_name model_name state_name : string) (top_k : Z) (w : world)
    (id_strengths : list ndarray) : Prop :=
  let path := tier_path get_path data_name model_name state_name top_k in
  files w !! path = Some (PickledStrengths id_strengths)
  ∨ (files w !! path = None
     ∧ ∃ words states buckets w',
         load_words_and_state get_path db data_name model_name state_name true
           (log_event (FileExists path) w) = (Ok (words, states), w')
         ∧ sort_by_id words states = Ok buckets
         ∧ cal_empirical_strength
             (take (Z.to_nat (strength_tier top_k)) buckets) np_mean_axis0
           = Ok id_strengths).

(** The message of the range check of [get_empirical_strength]. *)
Definition range_error : exn :=
  ValueError "selected words range too large, only support top 1000 frequent words!".

(** The columns of a matrix along axis 0, one per position of a slice. *)
Definition nd_columns (a : ndarray) : list (list Q) :=
  nd_column a <$> seq 0 (nd_size (tail (nd_shape a))).

(** A computation that does not end in the error of the range check. *)
Definition raises_other {A : Type} (r : result A) : Prop :=
  r ≠ Raise range_error.

Definition io_raises_other {A : Type} (m : IO A) : Prop :=
  ∀ w, raises_other (m w).1.

(** Buckets of arrays as [fetch_states] and [sort_by_id] hand them to the
    strength aggregator when one field is fetched. *)
Definition array_buckets (buckets : list (option (list ndarray)))
  : list (option (list state_item)) :=
  (λ b : option (list ndarray), (λ l : list ndarray, ItemArray <$> l) <$> b)
    <$> buckets.

(** ** Further specification functions *)

(** One round of the loop of [cal_diff]: the difference of the array after
    position [i] and the array at it. *)
Definition diff_at (arrays : list ndarray) (i : nat) : result ndarray :=
  a1 ← py_getitem arrays (Z.of_nat i + 1);
  a0 ← py_getitem arrays (Z.of_nat i);
  nd_sub a1 a0.

(** The id that a Python index denotes in a list of [n] buckets. *)
Definition py_wrap (n : nat) (id : Z) : Z :=
  if decide (id < 0) then Z.of_nat n + id else id.

(** The names of the two files of [load_words_and_state], before
    [get_path]. *)
Definition words_file_name (data_name model_name : string) : string :=
  data_name +:+ "-" +:+ model_name +:+ "-words.pkl".

Definition states_file_name (data_name model_name state_name : string)
    (diff : bool) : string :=
  data_name +:+ "-" +:+ model_name +:+ "-" +:+ state_name
    +:+ (if diff then "-diff" else "") +:+ ".pkl".

(** The accesses of a call of [load_words_and_state] that finds both
    files. *)
Definition load_hit_events (word_file states_file : string) : list event :=
  [FileExists word_file; FileExists states_file;
   FileRead word_file; FileRead states_file].

(** The entry-wise mean of arrays of the shape [sh]. *)
Definition entry_means (sh : list nat) (states : list ndarray) : list Q :=
  (λ p, mean_value ((λ s, nth p (nd_data s) 0%Q) <$> states))
    <$> seq 0 (nd_size sh).

(** The strength of a word whose states are [states]: zeros when it has
    none, their entry-wise mean otherwise. *)
Definition strength_of (sh : list nat) (states : list ndarray) : ndarray :=
  match states with
  | [] => np_zeros sh
  | _ => mk_ndarray sh (entry_means sh states)
  end.

(** The labels that [solution2json] and [strength2json] use: the given
    ones, or a zero per element. *)
Definition labels_or_zeros (labels : option (list Z)) (n : nat) : list Z :=
  match labels with
  | None => py_repeat 0 (Z.of_nat n)
  | Some labels => labels
  end.

(** The numbers of a nested list, in order. *)
Fixpoint pylist_flatten (p : pylist) : list Q :=
  match p with
  | PyNum x => [x]
  | PyList items => concat (map pylist_flatten items)
  end.

(** The order in which [np.argsort] lists the positions of the values. *)
Definition argsort_pairs (xs : list Q) : list (Q * nat) :=
  sort_by (λ x y, Qle_bool (fst x) (fst y)) (combine xs (seq 0 (length xs))).

Definition argsort_of (xs : list Q) : list nat := snd <$> argsort_pairs xs.

(** [xs[idx]] for a list of positions. *)
Definition gather (idx : list nat) (xs : list Q) : list Q :=
  (λ i, nth i xs 0%Q) <$> idx.

(** The matrix of one layer: one row per state, the slice of that layer. *)
Definition layer_mat (U : nat) (states : list ndarray) (k : nat) : ndarray :=
  mk_ndarray [length states; U] (concat ((λ s, nd_slice s k) <$> states)).

(** The two error bands of the values of one unit. *)
Definition band_l (percent : Q) (c : list Q) : Q :=
  (mean_value c - percentile_linear ((100 - percent) / 2) c)%Q.

Definition band_u (percent : Q) (c : list Q) : Q :=
  (percentile_linear (50 + percent / 2) c - mean_value c)%Q.

(** A statistic of the units of one layer, in the order of the units, and
    the order of the units by their mean. *)
Definition unit_stat (g : list Q → Q) (U : nat) (states : list ndarray)
    (k : nat) : list Q :=
  g <$> nd_columns (layer_mat U states k).

Definition unit_order (U : nat) (states : list ndarray) (k : nat) : list nat :=
  argsort_of (unit_stat mean_value U states k).

(** A statistic of one layer as [compute_stats] returns it: reordered by
    the means when [sort_by_mean] is set. *)
Definition layer_stat (g : list Q → Q) (sort_by_mean : bool) (U : nat)
    (states : list ndarray) (k : nat) : ndarray :=
  mk_ndarray [U]
    (if sort_by_mean
     then gather (unit_order U states k) (unit_stat g U states k)
     else unit_stat g U states k).

Definition stats_of (std_of : list Q → Q) (states : list ndarray)
    (sort_by_mean : bool) (percent : Q) (L U : nat) : stats :=
  mk_stats
    ((λ k, layer_stat mean_value sort_by_mean U states k) <$> seq 0 L)
    ((λ k, layer_stat std_of sort_by_mean U states k) <$> seq 0 L)
    ((λ k, layer_stat (band_l percent) sort_by_mean U states k) <$> seq 0 L)
    ((λ k, layer_stat (band_u percent) sort_by_mean U states k) <$> seq 0 L)
    ((λ k, if sort_by_mean then Some (unit_order U states k) else None)
       <$> seq 0 L).

(** The values that the records give to unit [u] of layer [k]. *)
Definition unit_values (U : nat) (states : list ndarray) (k u : nat) : list Q :=
  (λ s, nth (k * U + u) (nd_data s) 0%Q) <$> states.

(** The message of [np.percentile] for a percentile out of range. *)
Definition percentile_error : exn :=
  ValueError "Percentiles must be in the range [0, 100]".

(** ** Further example data *)

Module Sample.

(** Two evaluations, the first of two time steps and the second of one,
    with a cell state and a hidden state per time step. *)
Definition records1 : list record :=
  [ mk_record 0 {[ "state_c" := Example.state2x2 1 2 3 4;
                   "state_h" := Example.state2x2 0 0 0 0 ]};
    mk_record 2 {[ "state_c" := Example.state2x2 2 4 6 8;
                   "state_h" := Example.state2x2 1 1 1 1 ]} ].

Definition records2 : list record :=
  [ mk_record 1 {[ "state_c" := Example.state2x2 0 1 0 1;
                   "state_h" := Example.state2x2 2 2 2 2 ]} ].

Definition db : database :=
  mk_database (λ _ _, [mk_eval "eval1"; mk_eval "eval2"])
    (λ eval_id, if String.eqb eval_id "eval1" then records1 else records2).

(** A database without evaluations. *)
Definition no_evals : database := mk_database (λ _ _, []) (λ _, []).

(** A vocabulary of three words. *)
Definition id_to_word (data_name : string) : list string :=
  ["the"; "of"; "and"].

(** Three states of two layers of two units. *)
Definition states3 : list ndarray :=
  [Example.state2x2 1 2 3 4; Example.state2x2 2 4 6 8;
   Example.state2x2 0 1 0 1].

End Sample.

(** * Properties *)

(** ** Fallible computations and Python lists *)

Lemma bind_Ok {A B : Type} (f : A → result B) (a : A) :
  (Ok a ≫= f) = f a.
Proof. reflexivity. Qed.

Lemma bind_Ok_inv {A B : Type} (f : A → result B) (m : result A) (b : B) :
  (m ≫= f) = Ok b → ∃ a, m = Ok a ∧ f a = Ok b.
Proof. destruct m as [a|e]; [eauto | discriminate]. Qed.

Lemma for_each_app {A S : Type} (xs ys : list A) (body : S → A → result S) s :
  for_each (xs ++ ys) body s = (for_each xs body s ≫= for_each ys body).
Proof.
  revert s. induction xs as [|x xs IH]; intros s; simpl; [done|].
  destruct (body s x) as [s'|e]; simpl; [apply IH | done].
Qed.

(** A loop whose body appends one value per element builds the list of
    those values. *)
Lemma for_each_snoc {A B : Type} (xs : list A) (body : list B → A → result (list B))
    (f : A → B) (acc : list B) :
  (∀ x acc', x ∈ xs → body acc' x = Ok (acc' ++ [f x])) →
  for_each xs body acc = Ok (acc ++ (f <$> xs)).
Proof.
  revert acc. induction xs as [|x xs IH]; intros acc Hbody; simpl.
  - by rewrite app_nil_r.
  - rewrite Hbody by left. simpl. rewrite IH.
    + by rewrite <- app_assoc.
    + intros y acc' Hy. apply Hbody. by right.
Qed.

Lemma map_result_Ok {A B : Type} (g : A → result B) (f : A → B) (xs : list A) :
  (∀ x, x ∈ xs → g x = Ok (f x)) → map_result g xs = Ok (f <$> xs).
Proof.
  induction xs as [|x xs IH]; intros Hg; simpl; [done|].
  rewrite Hg by left. simpl. rewrite IH; [done|].
  intros y Hy. apply Hg. by right.
Qed.

Lemma map_result_inv {A B : Type} (g : A → result B) (xs : list A) (ys : list B) :
  map_result g xs = Ok ys → Forall2 (λ x y, g x = Ok y) xs ys.
Proof.
  revert ys. induction xs as [|x xs IH]; intros ys; simpl.
  - intros [= <-]. constructor.
  - intros H. apply bind_Ok_inv in H as (y & Hy & H).
    apply bind_Ok_inv in H as (ys' & Hys & [= <-]).
    constructor; auto.
Qed.

Lemma map_result_length {A B : Type} (g : A → result B) (xs : list A) (ys : list B) :
  map_result g xs = Ok ys → length ys = length xs.
Proof. intros H. apply map_result_inv in H. symmetry. by eapply Forall2_length. Qed.

Lemma py_position_nat (n k : nat) :
  (k < n)%nat → py_position n (Z.of_nat k) = Some k.
Proof.
  intros Hk. unfold py_position.
  rewrite decide_True by lia. by rewrite Nat2Z.id.
Qed.

Lemma py_position_bound (n : nat) (i : Z) (k : nat) :
  py_position n i = Some k → (k < n)%nat.
Proof.
  unfold py_position. repeat case_decide; intros [= <-]; lia.
Qed.

Lemma py_position_nonneg (n : nat) (i : Z) :
  0 ≤ i → py_position n i = if decide (i < Z.of_nat n) then Some (Z.to_nat i) else None.
Proof.
  intros Hi. unfold py_position. repeat case_decide; try lia; done.
Qed.

Lemma py_getitem_nat {A : Type} (xs : list A) (k : nat) (x : A) :
  xs !! k = Some x → py_getitem xs (Z.of_nat k) = Ok x.
Proof.
  intros Hx. unfold py_getitem.
  rewrite py_position_nat by (by eapply lookup_lt_Some).
  by rewrite Hx.
Qed.

Lemma py_getitem_nat_inv {A : Type} (xs : list A) (k : nat) (x : A) :
  py_getitem xs (Z.of_nat k) = Ok x → xs !! k = Some x.
Proof.
  unfold py_getitem. rewrite py_position_nonneg by lia.
  case_decide; [|discriminate]. rewrite Nat2Z.id.
  destruct (xs !! k); [congruence | discriminate].
Qed.

Lemma py_getitem_0 {A : Type} (xs : list A) (x : A) :
  xs !! 0%nat = Some x → py_getitem xs 0 = Ok x.
Proof. apply (py_getitem_nat xs 0). Qed.

Lemma py_getitem_succ {A : Type} (xs : list A) (k : nat) (x : A) :
  xs !! S k = Some x → py_getitem xs (Z.of_nat k + 1) = Ok x.
Proof.
  intros Hx. replace (Z.of_nat k + 1) with (Z.of_nat (S k)) by lia.
  by apply py_getitem_nat.
Qed.

Lemma enumerate_lookup {A : Type} (xs : list A) (i : nat) (x : A) :
  xs !! i = Some x → enumerate xs !! i = Some (i, x).
Proof.
  intros Hx. unfold enumerate.
  apply lookup_lt_Some in Hx as Hlt.
  change (combine ?a ?b) with (zip a b).
  rewrite lookup_zip_with. rewrite lookup_seq_lt by done. simpl. by rewrite Hx.
Qed.

Lemma enumerate_elem_of {A : Type} (xs : list A) (i : nat) (x : A) :
  (i, x) ∈ enumerate xs → xs !! i = Some x.
Proof.
  unfold enumerate. change (combine ?a ?b) with (zip a b).
  intros H. apply list_elem_of_lookup in H as [k Hk].
  rewrite lookup_zip_with in Hk.
  destruct (seq 0 (length xs) !! k) as [j|] eqn:Hj; [|done]. simpl in Hk.
  destruct (xs !! k) as [y|] eqn:Hy; [|done]. simpl in Hk.
  apply lookup_seq in Hj as [-> _]. by simplify_eq.
Qed.

Lemma enumerate_length {A : Type} (xs : list A) :
  length (enumerate xs) = length xs.
Proof.
  unfold enumerate. change (combine ?a ?b) with (zip a b).
  rewrite length_zip_with, length_seq. lia.
Qed.

(** ** The differencer *)

Lemma nd_sub_same_shape (a b : ndarray) :
  nd_shape a = nd_shape b →
  nd_sub a b = Ok (mk_ndarray (nd_shape a) (zip_with Qminus (nd_data a) (nd_data b))).
Proof. intros H. unfold nd_sub. by rewrite decide_True. Qed.

(** On equally shaped arrays [cal_diff] returns one difference per pair of
    neighbours. *)
Lemma cal_diff_same_shape (arrays : list ndarray) (sh : list nat) :
  Forall (λ a, nd_shape a = sh) arrays →
  ∃ ds, cal_diff arrays = Ok ds
        ∧ length ds = (length arrays - 1)%nat
        ∧ ∀ k a b, arrays !! k = Some a → arrays !! S k = Some b →
                   ∃ d, nd_sub b a = Ok d ∧ ds !! k = Some d.
Proof.
  intros Hsh.
  pose (f := λ k : nat,
          match arrays !! S k, arrays !! k with
          | Some b, Some a =>
              mk_ndarray (nd_shape b) (zip_with Qminus (nd_data b) (nd_data a))
          | _, _ => mk_ndarray [] []
          end).
  assert (Hshape : ∀ k a, arrays !! k = Some a → nd_shape a = sh).
  { intros k a Hk. by eapply (Forall_lookup_1 _ _ _ _ Hsh). }
  assert (Hrange : py_range (Z.of_nat (length arrays) - 1)
                   = seq 0 (length arrays - 1)).
  { unfold py_range. f_equal. lia. }
  exists (f <$> seq 0 (length arrays - 1)). split; [|split].
  - unfold cal_diff. rewrite Hrange.
    rewrite (for_each_snoc _ _ f); [done|].
    intros k acc Hk. apply elem_of_seq in Hk.
    destruct (lookup_lt_is_Some_2 arrays k) as [a Ha]; [lia|].
    destruct (lookup_lt_is_Some_2 arrays (S k)) as [b Hb]; [lia|].
    rewrite (py_getitem_succ _ _ _ Hb). simpl.
    rewrite (py_getitem_nat _ _ _ Ha). simpl.
    rewrite nd_sub_same_shape
      by (rewrite (Hshape _ _ Ha), (Hshape _ _ Hb); done).
    simpl. unfold f. by rewrite Ha, Hb.
  - by rewrite length_fmap, length_seq.
  - intros k a b Ha Hb.
    exists (mk_ndarray (nd_shape b) (zip_with Qminus (nd_data b) (nd_data a))).
    split.
    + apply nd_sub_same_shape.
      by rewrite (Hshape _ _ Ha), (Hshape _ _ Hb).
    + rewrite list_lookup_fmap.
      pose proof (lookup_lt_Some _ _ _ Hb) as Hlt.
      rewrite lookup_seq_lt by lia. simpl. unfold f.
      by rewrite Hb, Ha.
Qed.

Lemma fetch_field_diff (records : list record) (flags : list bool) (i : nat)
    (name : string) (s : list ndarray) (sh : list nat) :
  field_states records name = Ok s →
  flags !! i = Some true →
  s ≠ [] →
  Forall (λ a, nd_shape a = sh) s →
  ∃ out, fetch_field records flags i name = Ok out ∧ keep_first_then_diff s out.
Proof.
  intros Hs Hflag Hne Hsh.
  destruct s as [|s0 s']; [done|].
  destruct (cal_diff_same_shape _ _ Hsh) as (ds & Hds & Hlen & Hdiff).
  exists (s0 :: ds). split.
  - unfold fetch_field. rewrite Hs. simpl.
    rewrite (py_getitem_nat _ _ _ Hflag). simpl.
    by rewrite Hds.
  - split; [|split].
    + simpl in *. lia.
    + done.
    + intros k Hk. destruct k as [|k]; [lia|].
      simpl in Hk. replace (S k - 1)%nat with k by lia.
      destruct (lookup_lt_is_Some_2 (s0 :: s') k) as [a Ha]; [simpl; lia|].
      destruct (lookup_lt_is_Some_2 (s0 :: s') (S k)) as [b Hb]; [simpl; lia|].
      destruct (Hdiff k a b Ha Hb) as (d & Hd & Hk').
      exists a, b, d. done.
Qed.

Lemma fetch_field_plain (records : list record) (flags : list bool) (i : nat)
    (name : string) (s : list ndarray) :
  field_states records name = Ok s →
  flags !! i = Some false →
  fetch_field records flags i name = Ok s.
Proof.
  intros Hs Hflag. unfold fetch_field. rewrite Hs. simpl.
  by rewrite (py_getitem_nat _ _ _ Hflag).
Qed.

(** C1. For every requested state field whose diff flag is set and every
    non-empty sequence of records, [fetch_state_of_eval] returns for that
    field a sequence of the length of the fetched one, whose first element
    is the first fetched state unchanged and whose [k]-th element, for
    [k >= 1], is the [k]-th fetched state minus its predecessor.  The call
    returns when every requested field is stored in every record and has a
    flag, and the states of a differenced field have one shape. *)
Theorem fetch_state_of_eval_keep_first_then_diff
    (db : database) (eval_id : string) (field_name : field_arg) (diff : diff_arg)
    (names : list string) (flags : list bool) :
  let records := query_evaluation_records db eval_id in
  normalize_fields field_name diff = Ok (names, flags) →
  records ≠ [] →
  (∀ i name, names !! i = Some name →
     ∃ s flag, field_states records name = Ok s
               ∧ flags !! i = Some flag
               ∧ (flag = true → ∃ sh, Forall (λ a, nd_shape a = sh) s)) →
  ∃ out,
    fetch_state_of_eval db eval_id field_name diff = Ok (word_id <$> records, out)
    ∧ ∀ i name s, names !! i = Some name → flags !! i = Some true →
        field_states records name = Ok s →
        ∃ out_i, fetched_field out i = Some out_i ∧ keep_first_then_diff s out_i.
Proof.
  intros records Hnorm Hne Hfields.
  pose (f := λ p : nat * string,
          match fetch_field records flags p.1 p.2 with
          | Ok o => o
          | Raise _ => []
          end).
  assert (Hfield : ∀ i name, names !! i = Some name →
            ∃ o, fetch_field records flags i name = Ok o).
  { intros i name Hi.
    destruct (Hfields i name Hi) as (s & flag & Hs & Hflag & Hshape).
    destruct flag.
    - destruct (Hshape eq_refl) as [sh Hsh].
      destruct (fetch_field_diff records flags i name s sh) as (o & Ho & _);
        try done; [|by eauto].
      apply map_result_length in Hs. intros ->. simpl in Hs.
      destruct records; [done | discriminate].
    - exists s. by apply fetch_field_plain. }
  assert (Hloop : for_each (enumerate names)
            (λ (states : list (list ndarray)) '(i, field),
               state ← fetch_field records flags i field;
               Ok (states ++ [state])) []
          = Ok (f <$> enumerate names)).
  { rewrite (for_each_snoc _ _ f); [done|].
    intros [i name] acc Hin. apply enumerate_elem_of in Hin.
    destruct (Hfield i name Hin) as [o Ho].
    unfold f. simpl. by rewrite Ho. }
  assert (Hout : ∀ i name, names !! i = Some name →
            fetch_field records flags i name = Ok (f (i, name))).
  { intros i name Hi. destruct (Hfield i name Hi) as [o Ho].
    unfold f. simpl. by rewrite Ho. }
  unfold fetch_state_of_eval. fold records. rewrite Hnorm. simpl.
  rewrite Hloop. simpl.
  destruct (f <$> enumerate names) as [|st [|st' sts]] eqn:Hstates.
  - eexists. split; [done|].
    intros i name s Hi.
    apply enumerate_lookup in Hi.
    apply (f_equal (fmap f)) in Hi. rewrite <- list_lookup_fmap, Hstates in Hi.
    done.
  - eexists. split; [done|].
    intros i name s Hi Hflag Hs.
    assert (i = 0%nat) as ->.
    { apply lookup_lt_Some in Hi.
      apply (f_equal length) in Hstates.
      rewrite length_fmap, enumerate_length in Hstates. simpl in Hstates. lia. }
    pose proof (enumerate_lookup _ _ _ Hi) as Hi'.
    apply (f_equal (fmap f)) in Hi'. rewrite <- list_lookup_fmap, Hstates in Hi'.
    simpl in Hi'. injection Hi' as ->.
    destruct (Hfields 0%nat name Hi) as (s' & flag & Hs' & Hflag' & Hshape).
    assert (s' = s) as -> by congruence.
    assert (flag = true) as -> by congruence.
    destruct (Hshape eq_refl) as [sh Hsh].
    destruct (fetch_field_diff records flags 0%nat name s sh) as (o & Ho & Hspec);
      try done.
    { apply map_result_length in Hs. intros ->. simpl in Hs.
      destruct records; [done | discriminate]. }
    exists o. split; [|done]. simpl.
    rewrite (Hout _ _ Hi) in Ho. by injection Ho as ->.
  - eexists. split; [done|].
    intros i name s Hi Hflag Hs.
    pose proof (enumerate_lookup _ _ _ Hi) as Hi'.
    apply (f_equal (fmap f)) in Hi'. rewrite <- list_lookup_fmap, Hstates in Hi'.
    destruct (Hfields i name Hi) as (s' & flag & Hs' & Hflag' & Hshape).
    assert (s' = s) as -> by congruence.
    assert (flag = true) as -> by congruence.
    destruct (Hshape eq_refl) as [sh Hsh].
    destruct (fetch_field_diff records flags i name s sh) as (o & Ho & Hspec);
      try done.
    { apply map_result_length in Hs. intros ->. simpl in Hs.
      destruct records; [done | discriminate]. }
    exists o. split; [|done]. simpl. simpl in Hi'. rewrite Hi'.
    rewrite (Hout _ _ Hi) in Ho. by injection Ho as ->.
Qed.

Lemma fetch_state_of_eval_keep_first_then_diff_witness :
  ∃ out,
    fetch_state_of_eval Example.db "eval0" (FieldName "state_c") (DiffFlag true)
    = Ok ([5; 5; 7], out)
    ∧ ∀ i name s, ["state_c"] !! i = Some name → [true] !! i = Some true →
        field_states Example.rec3 name = Ok s →
        ∃ out_i, fetched_field out i = Some out_i ∧ keep_first_then_diff s out_i.
Proof.
  apply (fetch_state_of_eval_keep_first_then_diff
           Example.db "eval0" (FieldName "state_c") (DiffFlag true)
           ["state_c"] [true]).
  - reflexivity.
  - discriminate.
  - intros [|i] name Hi; [|discriminate]. injection Hi as <-.
    eexists _, true. split; [vm_compute; reflexivity|]. split; [reflexivity|].
    intros _. exists [2; 2]%nat. repeat constructor.
Defined.

(** ** The grouper *)

Lemma py_max_spec (xs : list Z) :
  xs ≠ [] →
  ∃ m, py_max xs = Ok m ∧ m ∈ xs ∧ ∀ x, x ∈ xs → x ≤ m.
Proof.
  destruct xs as [|x xs]; [done|]. intros _. simpl.
  exists (fold_left Z.max xs x). split; [done|].
  assert (H : ∀ ys y, fold_left Z.max ys y ∈ y :: ys
                      ∧ ∀ z, z ∈ y :: ys → z ≤ fold_left Z.max ys y).
  { induction ys as [|y' ys IH]; intros y; simpl.
    - split; [left|]. intros z Hz. apply list_elem_of_singleton in Hz. lia.
    - destruct (IH (Z.max y y')) as [Hin Hle]. split.
      + apply elem_of_cons in Hin as [Heq|Hin].
        * rewrite Heq. destruct (Z.max_spec y y') as [[_ ->]|[_ ->]];
            [right; left | left].
        * right. by right.
      + intros z Hz.
        assert (Z.max y y' ≤ fold_left Z.max ys (Z.max y y')) by (apply Hle; left).
        apply elem_of_cons in Hz as [->|Hz]; [lia|].
        apply elem_of_cons in Hz as [->|Hz]; [lia|].
        apply Hle. by right. }
  apply H.
Qed.

Section Grouper.
Context {A : Type}.
Implicit Types (pairs : list (Z * A)) (states : list A).

Lemma group_of_snoc pairs (id id' : Z) (s : A) :
  group_of (pairs ++ [(id', s)]) id
  = group_of pairs id ++ (if decide (id' = id) then [s] else []).
Proof.
  unfold group_of. rewrite filter_app, fmap_app. f_equal.
  rewrite filter_cons. simpl. by case_decide.
Qed.

Lemma default_to_bucket states : default [] (to_bucket states) = states.
Proof. by destruct states. Qed.

Lemma to_bucket_snoc states (s : A) :
  to_bucket (states ++ [s]) = Some (states ++ [s]).
Proof. by destruct states. Qed.

Lemma buckets_of_length n pairs : length (buckets_of n pairs) = n.
Proof. unfold buckets_of. by rewrite length_fmap, length_seq. Qed.

Lemma buckets_of_lookup n pairs (j : nat) :
  (j < n)%nat →
  buckets_of n pairs !! j = Some (to_bucket (group_of pairs (Z.of_nat j))).
Proof.
  intros Hj. unfold buckets_of.
  rewrite list_lookup_fmap, lookup_seq_lt by done. done.
Qed.

Lemma buckets_of_nil n : buckets_of n (@nil (Z * A)) = replicate n None.
Proof.
  apply list_eq. intros j.
  destruct (decide (j < n)%nat) as [Hj|Hj].
  - rewrite buckets_of_lookup by done. by rewrite lookup_replicate_2.
  - rewrite !lookup_ge_None_2; [done | |].
    + rewrite length_replicate. lia.
    + rewrite buckets_of_length. lia.
Qed.

(** One round of the loop of [sort_by_id]: reading the bucket of [id] and
    storing it back with one more state. *)
Lemma sort_by_id_step n pairs (id : Z) (s : A) :
  0 ≤ id < Z.of_nat n →
  (bucket ← py_getitem (buckets_of n pairs) id;
   py_setitem (buckets_of n pairs) id
     (Some (match bucket with None => [] | Some l => l end ++ [s])))
  = Ok (buckets_of n (pairs ++ [(id, s)])).
Proof.
  intros Hid.
  destruct (Z_of_nat_complete id) as [k ->]; [lia|].
  assert (Hlt : (k < n)%nat) by lia.
  rewrite (py_getitem_nat _ _ _ (buckets_of_lookup n pairs _ Hlt)). simpl.
  unfold py_setitem. rewrite buckets_of_length, py_position_nat by done.
  f_equal. apply list_eq. intros j.
  destruct (decide (j < n)%nat) as [Hj|Hj].
  - rewrite (buckets_of_lookup n (pairs ++ _)) by done.
    rewrite group_of_snoc.
    destruct (decide (j = k)) as [->|Hne].
    + rewrite list_lookup_insert_eq by (rewrite buckets_of_length; done).
      rewrite decide_True by done. rewrite to_bucket_snoc.
      pose proof (default_to_bucket (group_of pairs (Z.of_nat k))) as Hd.
      destruct (to_bucket (group_of pairs (Z.of_nat k))); simpl in Hd;
        by rewrite Hd.
    + rewrite list_lookup_insert_ne by done.
      rewrite buckets_of_lookup by done.
      rewrite decide_False by lia. by rewrite app_nil_r.
  - rewrite !lookup_ge_None_2; [done | |].
    + rewrite buckets_of_length. lia.
    + rewrite length_insert, buckets_of_length. lia.
Qed.

Lemma sort_by_id_loop n states (ws : list Z) (off : nat) pairs :
  Forall (λ id, 0 ≤ id < Z.of_nat n) ws →
  (off + length ws ≤ length states)%nat →
  for_each (zip (seq off (length ws)) ws)
    (λ (id_to_states : list (option (list A))) '(k, id_),
       bucket ← py_getitem id_to_states id_;
       let bucket := match bucket with
                     | None => []
                     | Some states_of_id => states_of_id
                     end in
       state ← py_getitem states (Z.of_nat k);
       py_setitem id_to_states id_ (Some (bucket ++ [state])))
    (buckets_of n pairs)
  = Ok (buckets_of n (pairs ++ zip ws (drop off states))).
Proof.
  revert off pairs. induction ws as [|id ws IH]; intros off pairs Hids Hlen.
  - simpl. by rewrite app_nil_r.
  - apply Forall_cons in Hids as [Hid Hids]. simpl in Hlen.
    destruct (lookup_lt_is_Some_2 states off) as [s Hs]; [lia|].
    rewrite (drop_S _ _ _ Hs). simpl.
    pose proof (sort_by_id_step n pairs id s Hid) as Hstep.
    destruct (py_getitem (buckets_of n pairs) id) as [b|e]; [|done].
    simpl in *. rewrite (py_getitem_nat _ _ _ Hs). simpl.
    rewrite Hstep. simpl.
    rewrite IH by (done || lia).
    by rewrite <- app_assoc.
Qed.

(** [sort_by_id] computes the buckets of the pairs of word ids and
    states. *)
Lemma sort_by_id_buckets (word_ids : list Z) states (max_id : Z) :
  py_max word_ids = Ok max_id →
  Forall (λ id, 0 ≤ id) word_ids →
  (length word_ids ≤ length states)%nat →
  sort_by_id word_ids states
  = Ok (buckets_of (Z.to_nat (max_id + 1)) (zip word_ids states)).
Proof.
  intros Hmax Hnonneg Hlen.
  assert (word_ids ≠ []) as Hne by (intros ->; discriminate).
  destruct (py_max_spec word_ids Hne) as (m & Hm & Hin & Hle).
  assert (m = max_id) as -> by congruence.
  unfold sort_by_id. rewrite Hmax. simpl.
  unfold py_repeat. rewrite <- buckets_of_nil.
  unfold enumerate. change (combine ?a ?b) with (zip a b).
  rewrite (sort_by_id_loop _ states word_ids 0 []); [done | | lia].
  apply Forall_forall. intros id Hid.
  rewrite Forall_forall in Hnonneg.
  specialize (Hnonneg id Hid). specialize (Hle id Hid). simpl in *. lia.
Qed.

End Grouper.

Section GrouperCount.
Context {A : Type}.
Implicit Types (pairs : list (Z * A)).

Lemma length_group_of_split pairs (n : nat) :
  length (filter (λ p, 0 ≤ p.1 < Z.of_nat (S n)) pairs)
  = (length (filter (λ p, (0 ≤ p.1 < Z.of_nat n)%Z) pairs)
     + length (group_of pairs (Z.of_nat n)))%nat.
Proof.
  unfold group_of. rewrite length_fmap.
  induction pairs as [|[id s] pairs IH]; [done|].
  rewrite !filter_cons. simpl.
  repeat case_decide; simpl; lia.
Qed.

Lemma bucket_count_buckets_of n pairs :
  bucket_count (buckets_of n pairs)
  = length (filter (λ p, 0 ≤ p.1 < Z.of_nat n) pairs).
Proof.
  unfold bucket_count, buckets_of. rewrite <- list_fmap_compose.
  induction n as [|n IH].
  - simpl. symmetry. apply length_zero_iff_nil.
    induction pairs as [|p pairs IHp]; [done|].
    rewrite filter_cons. case_decide; [lia | done].
  - rewrite seq_S, fmap_app, sum_list_with_app, IH. simpl.
    rewrite default_to_bucket, length_group_of_split. lia.
Qed.

Lemma filter_in_range pairs (n : nat) :
  Forall (λ p, 0 ≤ p.1 < Z.of_nat n) pairs →
  filter (λ p, 0 ≤ p.1 < Z.of_nat n) pairs = pairs.
Proof.
  induction 1 as [|p pairs Hp _ IH]; [done|].
  rewrite filter_cons. rewrite decide_True by done. by rewrite IH.
Qed.

Lemma elem_of_group_of pairs (id : Z) (s : A) :
  s ∈ group_of pairs id ↔ (id, s) ∈ pairs.
Proof.
  unfold group_of. rewrite list_elem_of_fmap. split.
  - intros ([id' s'] & -> & Hin). apply list_elem_of_filter in Hin as [Heq Hin].
    simpl in *. by subst.
  - intros Hin. exists (id, s). split; [done|].
    apply list_elem_of_filter. done.
Qed.

Lemma elem_of_zip_lookup (word_ids : list Z) (states : list A) (id : Z) (s : A) :
  (id, s) ∈ zip word_ids states
  ↔ ∃ k, word_ids !! k = Some id ∧ states !! k = Some s.
Proof.
  rewrite list_elem_of_lookup. split.
  - intros [k Hk]. exists k. rewrite lookup_zip_with in Hk.
    destruct (word_ids !! k) as [id'|]; [|done]. simpl in Hk.
    destruct (states !! k) as [s'|]; [|done]. simpl in Hk. by simplify_eq.
  - intros (k & Hid & Hs). exists k. rewrite lookup_zip_with, Hid. simpl.
    by rewrite Hs.
Qed.

End GrouperCount.

(** C7. For every non-empty sequence of word ids, all non-negative, that
    comes with a state per word id, [sort_by_id] returns buckets that hold as
    many records as the input has; the bucket of an id holds exactly the
    states recorded with that id, in their order, so every record is in the
    bucket of its id and every record of a bucket was in the input with that
    id; an id below the maximum that does not occur gets the absent bucket
    [None]. *)
Theorem sort_by_id_partitions {A : Type} (word_ids : list Z) (states : list A) :
  word_ids ≠ [] →
  Forall (λ id, 0 ≤ id) word_ids →
  (length word_ids ≤ length states)%nat →
  ∃ buckets,
    sort_by_id word_ids states = Ok buckets
    ∧ bucket_count buckets = length word_ids
    ∧ (∀ j, (j < length buckets)%nat →
         buckets !! j
         = Some (to_bucket (group_of (zip word_ids states) (Z.of_nat j))))
    ∧ (∀ k id s, word_ids !! k = Some id → states !! k = Some s →
         ∃ l, buckets !! Z.to_nat id = Some (Some l) ∧ s ∈ l)
    ∧ (∀ j l s, buckets !! j = Some (Some l) → s ∈ l →
         ∃ k, word_ids !! k = Some (Z.of_nat j) ∧ states !! k = Some s)
    ∧ (∀ j, (j < length buckets)%nat → Z.of_nat j ∉ word_ids →
         buckets !! j = Some None).
Proof.
  intros Hne Hnonneg Hlen.
  destruct (py_max_spec word_ids Hne) as (max_id & Hmax & Hin & Hle).
  set (n := Z.to_nat (max_id + 1)).
  assert (Hrange : Forall (λ id, 0 ≤ id < Z.of_nat n) word_ids).
  { apply Forall_forall. intros id Hid. rewrite Forall_forall in Hnonneg.
    specialize (Hnonneg id Hid). specialize (Hle id Hid). simpl in *. lia. }
  exists (buckets_of n (zip word_ids states)).
  split; [by apply sort_by_id_buckets|].
  rewrite buckets_of_length.
  split; [|split; [|split; [|split]]].
  - rewrite bucket_count_buckets_of, filter_in_range.
    + rewrite length_zip_with. lia.
    + apply Forall_forall. intros [id s] Hp.
      apply elem_of_zip_lookup in Hp as (k & Hk & _).
      rewrite Forall_forall in Hrange. apply Hrange.
      by eapply list_elem_of_lookup_2.
  - intros j Hj. by apply buckets_of_lookup.
  - intros k id s Hid Hs.
    rewrite Forall_forall in Hrange.
    pose proof (Hrange id (list_elem_of_lookup_2 _ _ _ Hid)) as Hr. simpl in Hr.
    rewrite buckets_of_lookup by lia. rewrite Z2Nat.id by lia.
    assert (Hmem : s ∈ group_of (zip word_ids states) id).
    { apply elem_of_group_of, elem_of_zip_lookup. eauto. }
    destruct (group_of (zip word_ids states) id) as [|s' l] eqn:Hg.
    + by apply elem_of_nil in Hmem.
    + exists (s' :: l). done.
  - intros j l s Hj Hs.
    pose proof (lookup_lt_Some _ _ _ Hj) as Hlt.
    rewrite buckets_of_length in Hlt.
    rewrite buckets_of_lookup in Hj by done.
    injection Hj as Hj.
    apply elem_of_zip_lookup, elem_of_group_of.
    destruct (group_of (zip word_ids states) (Z.of_nat j)); simpl in Hj;
      [discriminate | by injection Hj as ->].
  - intros j Hj Hnot. rewrite buckets_of_lookup by done.
    destruct (group_of (zip word_ids states) (Z.of_nat j)) as [|s l] eqn:Hg;
      [done|].
    exfalso. apply Hnot.
    assert (Hmem : s ∈ group_of (zip word_ids states) (Z.of_nat j))
      by (rewrite Hg; left).
    apply elem_of_group_of, elem_of_zip_lookup in Hmem as (k & Hk & _).
    by eapply list_elem_of_lookup_2.
Qed.

Lemma sort_by_id_partitions_witness :
  ∃ buckets,
    sort_by_id [5; 5; 7] ["t0"; "t1"; "t2"] = Ok buckets
    ∧ bucket_count buckets = 3%nat
    ∧ buckets !! 5%nat = Some (Some ["t0"; "t1"])
    ∧ buckets !! 6%nat = Some None
    ∧ buckets !! 7%nat = Some (Some ["t2"]).
Proof.
  destruct (sort_by_id_partitions [5; 5; 7] ["t0"; "t1"; "t2"])
    as (buckets & Hrun & Hcount & Hbuckets & _).
  - discriminate.
  - repeat constructor; lia.
  - simpl. lia.
  - exists buckets. split; [exact Hrun|]. split; [exact Hcount|].
    vm_compute in Hrun. injection Hrun as <-. repeat split.
Defined.

(** C10. [sort_by_id] is defined for non-empty sequences only: on the empty
    sequence of word ids it raises the error of [max] of an empty sequence,
    and on every non-empty sequence of non-negative word ids, each with its
    state, it returns a bucket list whose length is the largest word id plus
    one. *)
Theorem sort_by_id_needs_word_ids {A : Type} (word_ids : list Z) (states : list A) :
  Forall (λ id, 0 ≤ id) word_ids →
  (length word_ids ≤ length states)%nat →
  match word_ids with
  | [] =>
      sort_by_id word_ids states
      = Raise (ValueError "max() arg is an empty sequence")
  | _ =>
      ∃ max_id buckets,
        max_id ∈ word_ids ∧ (∀ id, id ∈ word_ids → id ≤ max_id)
        ∧ sort_by_id word_ids states = Ok buckets
        ∧ Z.of_nat (length buckets) = max_id + 1
  end.
Proof.
  intros Hnonneg Hlen. destruct word_ids as [|id word_ids]; [done|].
  destruct (py_max_spec (id :: word_ids)) as (max_id & Hmax & Hin & Hle); [done|].
  exists max_id, (buckets_of (Z.to_nat (max_id + 1)) (zip (id :: word_ids) states)).
  split; [done|]. split; [done|].
  split; [by apply sort_by_id_buckets|].
  rewrite buckets_of_length.
  rewrite Forall_forall in Hnonneg. specialize (Hnonneg _ Hin). simpl in *. lia.
Qed.

Lemma sort_by_id_needs_word_ids_witness :
  sort_by_id [] ["t0"] = Raise (ValueError "max() arg is an empty sequence")
  ∧ ∃ max_id buckets,
      max_id ∈ [5; 5; 7] ∧ (∀ id, id ∈ [5; 5; 7] → id ≤ max_id)
      ∧ sort_by_id [5; 5; 7] ["t0"; "t1"; "t2"] = Ok buckets
      ∧ Z.of_nat (length buckets) = max_id + 1.
Proof.
  split.
  - apply (sort_by_id_needs_word_ids [] ["t0"]); [constructor | simpl; lia].
  - apply (sort_by_id_needs_word_ids [5; 5; 7] ["t0"; "t1"; "t2"]);
      [repeat constructor; lia | simpl; lia].
Defined.

(** ** The serializer *)

Section Serializer.

Lemma expand_states_num_blocks (states_num : list Z) (off : nat)
    (layers state_ids : list Z) :
  fold_left
    (λ '(layers, state_ids) '(i, num),
       (layers ++ py_repeat (Z.of_nat i + 1) num,
        state_ids ++ (Z.of_nat <$> py_range num)))
    (zip (seq off (length states_num)) states_num) (layers, state_ids)
  = (layers ++ concat (layer_blocks off states_num),
     state_ids ++ concat (id_blocks states_num)).
Proof.
  revert off layers state_ids.
  induction states_num as [|num states_num IH]; intros off layers state_ids.
  - simpl. by rewrite !app_nil_r.
  - simpl. rewrite IH. unfold layer_blocks, id_blocks. simpl.
    by rewrite <- !app_assoc.
Qed.

Lemma block_start_0 (states_num : list Z) : block_start states_num 0 = 0%nat.
Proof. done. Qed.

Lemma block_start_S (num : Z) (states_num : list Z) (j : nat) :
  block_start (num :: states_num) (S j)
  = (Z.to_nat num + block_start states_num j)%nat.
Proof. done. Qed.

Lemma layer_blocks_cons (off : nat) (num : Z) (states_num : list Z) :
  layer_blocks off (num :: states_num)
  = py_repeat (Z.of_nat off + 1) num :: layer_blocks (S off) states_num.
Proof. done. Qed.

Lemma id_blocks_cons (num : Z) (states_num : list Z) :
  id_blocks (num :: states_num)
  = (Z.of_nat <$> py_range num) :: id_blocks states_num.
Proof. done. Qed.

Lemma py_repeat_length {A : Type} (x : A) (n : Z) :
  length (py_repeat x n) = Z.to_nat n.
Proof. unfold py_repeat. apply length_replicate. Qed.

Lemma py_range_length (n : Z) : length (py_range n) = Z.to_nat n.
Proof. unfold py_range. apply length_seq. Qed.

Lemma layer_blocks_lookup (states_num : list Z) (off i j : nat) (num : Z) :
  states_num !! j = Some num →
  (block_start states_num j ≤ i < block_start states_num j + Z.to_nat num)%nat →
  concat (layer_blocks off states_num) !! i = Some (Z.of_nat (off + j) + 1).
Proof.
  revert off i j.
  induction states_num as [|num0 states_num IH]; intros off i j Hj Hi; [done|].
  rewrite layer_blocks_cons, concat_cons.
  destruct j as [|j].
  - injection Hj as ->. rewrite block_start_0 in Hi.
    rewrite lookup_app_l by (rewrite py_repeat_length; lia).
    unfold py_repeat. rewrite lookup_replicate_2 by lia.
    do 2 f_equal. lia.
  - simpl in Hj. rewrite block_start_S in Hi.
    rewrite lookup_app_r by (rewrite py_repeat_length; lia).
    rewrite py_repeat_length.
    rewrite (IH (S off) _ j) by (done || lia).
    do 2 f_equal. lia.
Qed.

Lemma id_blocks_lookup (states_num : list Z) (i j : nat) (num : Z) :
  states_num !! j = Some num →
  (block_start states_num j ≤ i < block_start states_num j + Z.to_nat num)%nat →
  concat (id_blocks states_num) !! i
  = Some (Z.of_nat (i - block_start states_num j)).
Proof.
  revert i j.
  induction states_num as [|num0 states_num IH]; intros i j Hj Hi; [done|].
  rewrite id_blocks_cons, concat_cons.
  destruct j as [|j].
  - injection Hj as ->. rewrite block_start_0 in *.
    rewrite lookup_app_l by (rewrite length_fmap, py_range_length; lia).
    unfold py_range. rewrite list_lookup_fmap, lookup_seq_lt by lia.
    simpl. do 2 f_equal. lia.
  - simpl in Hj. rewrite block_start_S in *.
    rewrite lookup_app_r by (rewrite length_fmap, py_range_length; lia).
    rewrite length_fmap, py_range_length.
    rewrite (IH _ j) by (done || lia).
    do 2 f_equal. lia.
Qed.

Lemma sizes_cons (num : Z) (states_num : list Z) :
  sum_list (Z.to_nat <$> num :: states_num)
  = (Z.to_nat num + sum_list (Z.to_nat <$> states_num))%nat.
Proof. done. Qed.

Lemma layer_blocks_length (states_num : list Z) (off : nat) :
  length (concat (layer_blocks off states_num))
  = sum_list (Z.to_nat <$> states_num).
Proof.
  revert off. induction states_num as [|num states_num IH]; intros off; [done|].
  rewrite layer_blocks_cons, concat_cons, length_app, py_repeat_length.
  by rewrite IH, sizes_cons.
Qed.

Lemma id_blocks_length (states_num : list Z) :
  length (concat (id_blocks states_num)) = sum_list (Z.to_nat <$> states_num).
Proof.
  induction states_num as [|num states_num IH]; [done|].
  rewrite id_blocks_cons, concat_cons, length_app, length_fmap, py_range_length.
  by rewrite IH, sizes_cons.
Qed.

Lemma py_sum_le_sizes (states_num : list Z) :
  py_sum states_num ≤ Z.of_nat (sum_list (Z.to_nat <$> states_num)).
Proof.
  induction states_num as [|num states_num IH]; [done|].
  rewrite sizes_cons. simpl. lia.
Qed.

(** Every position below the total size lies in the block of one layer. *)
Lemma block_of_position (states_num : list Z) (i : nat) :
  (i < sum_list (Z.to_nat <$> states_num))%nat →
  ∃ j num, states_num !! j = Some num
           ∧ (block_start states_num j ≤ i
              < block_start states_num j + Z.to_nat num)%nat.
Proof.
  revert i. induction states_num as [|num states_num IH]; intros i Hi.
  - simpl in Hi. lia.
  - rewrite sizes_cons in Hi.
    destruct (decide (i < Z.to_nat num)%nat) as [Hlt|Hge].
    + exists 0%nat, num. split; [done|]. rewrite block_start_0. lia.
    + destruct (IH (i - Z.to_nat num)%nat) as (j & num' & Hj & Hb); [lia|].
      exists (S j), num'. split; [done|]. rewrite block_start_S. lia.
Qed.

Lemma expand_states_num_eq (states_num : list Z) :
  expand_states_num states_num
  = (concat (layer_blocks 0 states_num), concat (id_blocks states_num)).
Proof.
  unfold expand_states_num, enumerate. change (combine ?a ?b) with (zip a b).
  by rewrite expand_states_num_blocks.
Qed.

End Serializer.

(** C8. When the entries of [states_num] sum to the length of the solution
    (and the labels, if given, cover it), [solution2json] builds one point
    per element of the solution; every position [i] lies in the block of
    one layer [j], the blocks following each other in the order of
    [states_num], and the point at [i] carries the layer [j+1] and, as state
    id, the offset of [i] in that block, counted from 0.  For
    [states_num = [3, 2]] the layers and state ids are
    (1,0), (1,1), (1,2), (2,0), (2,1). *)
Theorem solution2json_layer_state_id {C : Type} (solution : list C)
    (states_num : list Z) (labels : option (list Z)) :
  py_sum states_num = Z.of_nat (length solution) →
  (∀ given, labels = Some given → (length solution ≤ length given)%nat) →
  ∃ points,
    solution2json_points solution states_num labels = Ok points
    ∧ length points = length solution
    ∧ (∀ i, (i < length solution)%nat →
         ∃ j num, states_num !! j = Some num
                  ∧ (block_start states_num j ≤ i
                     < block_start states_num j + Z.to_nat num)%nat)
    ∧ (∀ i j num s,
         solution !! i = Some s →
         states_num !! j = Some num →
         (block_start states_num j ≤ i
          < block_start states_num j + Z.to_nat num)%nat →
         ∃ p, points !! i = Some p
              ∧ coords p = s
              ∧ layer p = Z.of_nat j + 1
              ∧ state_id p = Z.of_nat (i - block_start states_num j))
    ∧ (states_num = [3; 2] →
       (λ p, (layer p, state_id p)) <$> points
       = [(1, 0); (1, 1); (1, 2); (2, 0); (2, 1)]).
Proof.
  intros Hsum Hlabels.
  pose proof (py_sum_le_sizes states_num) as Hsizes.
  set (labels' := match labels with
                  | None => py_repeat 0 (Z.of_nat (length solution))
                  | Some given => given
                  end).
  assert (Hlab : (length solution ≤ length labels')%nat).
  { unfold labels'. destruct labels as [given|].
    - by apply Hlabels.
    - rewrite py_repeat_length. lia. }
  set (layers := concat (layer_blocks 0 states_num)).
  set (ids := concat (id_blocks states_num)).
  assert (Hlayers : (length solution ≤ length layers)%nat).
  { unfold layers. rewrite layer_blocks_length. lia. }
  assert (Hids : (length solution ≤ length ids)%nat).
  { unfold ids. rewrite id_blocks_length. lia. }
  pose (f := λ p : nat * C,
          mk_point p.2 (default 0 (layers !! p.1)) (default 0 (ids !! p.1))
                   (default 0 (labels' !! p.1))).
  assert (Hrun : solution2json_points solution states_num labels
                 = Ok (f <$> enumerate solution)).
  { unfold solution2json_points. rewrite expand_states_num_eq.
    fold labels' layers ids.
    apply map_result_Ok. intros [i s] Hin.
    apply enumerate_elem_of in Hin. apply lookup_lt_Some in Hin.
    destruct (lookup_lt_is_Some_2 layers i) as [l Hl]; [lia|].
    destruct (lookup_lt_is_Some_2 ids i) as [sid Hsid]; [lia|].
    destruct (lookup_lt_is_Some_2 labels' i) as [lab Hlab']; [lia|].
    rewrite (py_getitem_nat _ _ _ Hl). simpl.
    rewrite (py_getitem_nat _ _ _ Hsid). simpl.
    rewrite (py_getitem_nat _ _ _ Hlab'). simpl.
    unfold f. simpl. by rewrite Hl, Hsid, Hlab'. }
  exists (f <$> enumerate solution).
  split; [done|]. split; [by rewrite length_fmap, enumerate_length|].
  split; [|split].
  - intros i Hi. apply block_of_position. lia.
  - intros i j num s Hs Hj Hi.
    exists (f (i, s)). split.
    + by rewrite list_lookup_fmap, (enumerate_lookup _ _ _ Hs).
    + unfold f, layers, ids. simpl.
      rewrite (layer_blocks_lookup _ 0 i j num Hj Hi).
      rewrite (id_blocks_lookup _ i j num Hj Hi). done.
  - intros ->. simpl in Hsum.
    destruct solution as [|c1 [|c2 [|c3 [|c4 [|c5 [|c6 solution]]]]]];
      simpl in Hsum; try lia.
    reflexivity.
Qed.

Lemma solution2json_layer_state_id_witness :
  ∃ points,
    solution2json_points ["a"; "b"; "c"; "d"; "e"] [3; 2] None = Ok points
    ∧ (λ p, (layer p, state_id p)) <$> points
      = [(1, 0); (1, 1); (1, 2); (2, 0); (2, 1)].
Proof.
  destruct (solution2json_layer_state_id ["a"; "b"; "c"; "d"; "e"] [3; 2] None)
    as (points & Hrun & _ & _ & _ & Hpairs).
  - reflexivity.
  - discriminate.
  - exists points. split; [exact Hrun | exact (Hpairs eq_refl)].
Defined.

(** ** Strings and cache keys *)

Lemma append_nil_l (s : string) : "" +:+ s = s.
Proof. done. Qed.

Lemma append_cons (c : ascii) (a s : string) :
  String c a +:+ s = String c (a +:+ s).
Proof. done. Qed.

Lemma chars_app (a b : string) :
  list_ascii_of_string (a +:+ b)
  = list_ascii_of_string a ++ list_ascii_of_string b.
Proof. induction a as [|c a IH]; simpl; [done | by rewrite IH]. Qed.

Lemma chars_inj (a b : string) :
  list_ascii_of_string a = list_ascii_of_string b → a = b.
Proof.
  intros H. rewrite <- (string_of_list_ascii_of_string a),
              <- (string_of_list_ascii_of_string b). by rewrite H.
Qed.

Lemma append_inv_tail (a b s : string) : a +:+ s = b +:+ s → a = b.
Proof.
  intros H. apply chars_inj.
  apply (f_equal list_ascii_of_string) in H. rewrite !chars_app in H.
  by apply app_inv_tail in H.
Qed.

Lemma dash_free_app (a b : string) :
  dash_free (a +:+ b) = dash_free a && dash_free b.
Proof. unfold dash_free. by rewrite chars_app, forallb_app. Qed.

Lemma dash_free_cons (c : ascii) (a : string) :
  dash_free (String c a) = negb (Ascii.eqb c "-") && dash_free a.
Proof. done. Qed.

(** Two keys that begin with a dash-free component agree on it and on the
    rest. *)
Lemma split_first_dash (a a' x x' : string) :
  dash_free a = true → dash_free a' = true →
  a +:+ "-" +:+ x = a' +:+ "-" +:+ x' → a = a' ∧ x = x'.
Proof.
  revert a'. induction a as [|c a IH]; intros [|c' a'] Ha Ha' H;
    rewrite ?append_cons, ?append_nil_l in H.
  - by injection H as ->.
  - injection H as <- _. by rewrite dash_free_cons in Ha'.
  - injection H as -> _. by rewrite dash_free_cons in Ha.
  - injection H as -> H. rewrite dash_free_cons in Ha, Ha'.
    apply andb_true_iff in Ha as [_ Ha]. apply andb_true_iff in Ha' as [_ Ha'].
    destruct (IH a' Ha Ha' H) as [-> ->]. done.
Qed.

(** Two keys that end with a dash-free component agree on it and on what
    precedes it. *)
Lemma split_last_dash (x x' y y' : string) :
  dash_free y = true → dash_free y' = true →
  x +:+ "-" +:+ y = x' +:+ "-" +:+ y' → x = x' ∧ y = y'.
Proof.
  intros Hy Hy'. revert x'.
  induction x as [|c x IH]; intros [|c' x'] H;
    rewrite ?append_cons, ?append_nil_l in H.
  - by injection H as ->.
  - injection H as <- ->.
    rewrite dash_free_app, dash_free_cons in Hy.
    by rewrite andb_false_r in Hy.
  - injection H as -> <-.
    rewrite dash_free_app, dash_free_cons in Hy'.
    by rewrite andb_false_r in Hy'.
  - injection H as -> H. destruct (IH x' H) as [-> ->]. done.
Qed.

Lemma uint_digits_dash_free (d : Decimal.uint) :
  dash_free (NilEmpty.string_of_uint d) = true.
Proof. induction d; simpl; try done; by rewrite dash_free_cons, IHd. Qed.

Lemma py_str_int_dash_free (z : Z) : 0 ≤ z → dash_free (py_str_int z) = true.
Proof.
  intros Hz. unfold py_str_int. destruct z as [|p|p]; [done| |lia].
  simpl. unfold NilZero.string_of_uint.
  destruct (Pos.to_uint p); try done; apply uint_digits_dash_free.
Qed.

Lemma Z_to_int_nonnil (z : Z) :
  Z.to_int z ≠ Decimal.Pos Decimal.Nil ∧ Z.to_int z ≠ Decimal.Neg Decimal.Nil.
Proof.
  destruct z as [|p|p]; simpl; split; try discriminate;
    intros [= H]; by apply DecimalPos.Unsigned.to_uint_nonnil in H.
Qed.

Lemma py_str_int_parse (z : Z) :
  NilZero.int_of_string (py_str_int z) = Some (Z.to_int z).
Proof.
  destruct (Z_to_int_nonnil z). unfold py_str_int. by apply NilZero.isi.
Qed.

Lemma py_str_int_inj (z z' : Z) : py_str_int z = py_str_int z' → z = z'.
Proof.
  intros H. apply (f_equal NilZero.int_of_string) in H.
  rewrite !py_str_int_parse in H. injection H as H.
  rewrite <- (DecimalZ.of_to z), <- (DecimalZ.of_to z'). by rewrite H.
Qed.

(** The text of an integer is not a word. *)
Lemma py_str_int_not_word (z : Z) (w : string) :
  NilZero.int_of_string w = None → py_str_int z ≠ w.
Proof. intros Hw H. rewrite <- H, py_str_int_parse in Hw. discriminate. Qed.

Lemma py_str_opt_inj (z z' : option Z) : py_str_opt z = py_str_opt z' → z = z'.
Proof.
  destruct z as [z|], z' as [z'|]; simpl; intros H.
  - f_equal. by apply py_str_int_inj.
  - by apply py_str_int_not_word in H.
  - symmetry in H. by apply py_str_int_not_word in H.
  - done.
Qed.

Lemma py_str_opt_dash_free (z : option Z) :
  (∀ d, z = Some d → 0 ≤ d) → dash_free (py_str_opt z) = true.
Proof.
  destruct z as [d|]; simpl; intros H; [|done].
  apply py_str_int_dash_free. by apply H.
Qed.

Lemma layer_str_one_inj (l l' : layer_sel) :
  at_most_one_layer l → at_most_one_layer l' →
  layer_str (signature_layers l) = layer_str (signature_layers l') →
  signature_layers l = signature_layers l'.
Proof.
  assert (Hone : ∀ a, py_join "" [py_str_int a] = py_str_int a) by done.
  assert (Hall : NilZero.int_of_string "all" = None) by done.
  destruct l as [|a|[|a [|? ?]]], l' as [|b|[|b [|? ?]]]; simpl; try done;
    rewrite ?Hone; intros _ _ H;
    try (by apply py_str_int_not_word in H);
    try (symmetry in H; by apply py_str_int_not_word in H);
    apply py_str_int_inj in H; by subst.
Qed.

Lemma append_assoc (a b c : string) : (a +:+ b) +:+ c = a +:+ (b +:+ c).
Proof.
  induction a as [|x a IH]; [done|].
  rewrite !append_cons. by rewrite IH.
Qed.

(** Three components of which the last two are dash-free are read back from
    their join, whatever the first one is. *)
Lemma split_last_two (x x' y y' z z' : string) :
  dash_free y = true → dash_free y' = true →
  dash_free z = true → dash_free z' = true →
  x +:+ "-" +:+ y +:+ "-" +:+ z = x' +:+ "-" +:+ y' +:+ "-" +:+ z' →
  x = x' ∧ y = y' ∧ z = z'.
Proof.
  intros Hy Hy' Hz Hz' H.
  assert (Hassoc : ∀ a b c, a +:+ "-" +:+ b +:+ "-" +:+ c
                            = (a +:+ "-" +:+ b) +:+ "-" +:+ c).
  { intros a b c. by rewrite !append_assoc. }
  rewrite !Hassoc in H.
  apply split_last_dash in H as [H ->]; [|done..].
  apply split_last_dash in H as [-> ->]; done.
Qed.

(** The key of a sample determines the three names, the text of the layers,
    the sample size and the effective dimension. *)
Lemma signature_file_name_inj
    (d m s : string) (l : layer_sel) (ss : Z) (dim : option Z)
    (d' m' s' : string) (l' : layer_sel) (ss' : Z) (dim' : option Z) :
  dash_free d = true → dash_free m = true → dash_free s = true →
  dash_free d' = true → dash_free m' = true → dash_free s' = true →
  0 ≤ ss → 0 ≤ ss' →
  0 ≤ effective_dim ss dim → 0 ≤ effective_dim ss' dim' →
  signature_file_name d m s l ss dim = signature_file_name d' m' s' l' ss' dim' →
  (d, m, s, layer_str (signature_layers l), ss, effective_dim ss dim)
  = (d', m', s', layer_str (signature_layers l'), ss', effective_dim ss' dim').
Proof.
  intros Hd Hm Hs Hd' Hm' Hs' Hss Hss' Hdim Hdim' H.
  unfold signature_file_name in H. apply append_inv_tail in H.
  assert (Hl : ∀ l0, match signature_layers l0 with
                     | Some _ => layer_str (signature_layers l0)
                     | None => "all"
                     end = layer_str (signature_layers l0)).
  { by intros [| |]. }
  assert (Hdim_str : ∀ ss0 dim0, match dim0 with
                                 | Some d0 => py_str_int d0
                                 | None => py_str_int ss0
                                 end = py_str_int (effective_dim ss0 dim0)).
  { by intros ss0 [|]. }
  rewrite !Hl, !Hdim_str in H.
  unfold py_join in H. cbn [String.concat] in H.
  apply split_first_dash in H as [-> H]; [|done..].
  apply split_first_dash in H as [-> H]; [|done..].
  apply split_first_dash in H as [-> H]; [|done..].
  apply split_last_two in H as (-> & Hss_eq & Hdim_eq);
    try (by apply py_str_int_dash_free).
  apply py_str_int_inj in Hss_eq as ->.
  apply py_str_int_inj in Hdim_eq as ->. done.
Qed.

(** The key of a projection determines the three names, the layer, the
    dimension and the integer part of the perplexity. *)
Lemma tsne_file_name_inj
    (d m s : string) (l ss : Z) (dim : option Z) (p : Q)
    (d' m' s' : string) (l' ss' : Z) (dim' : option Z) (p' : Q) :
  dash_free d = true → dash_free m = true → dash_free s = true →
  dash_free d' = true → dash_free m' = true → dash_free s' = true →
  (∀ x, dim = Some x → 0 ≤ x) → (∀ x, dim' = Some x → 0 ≤ x) →
  0 ≤ py_int_of_float p → 0 ≤ py_int_of_float p' →
  tsne_file_name d m s l ss dim p = tsne_file_name d' m' s' l' ss' dim' p' →
  (d, m, s, l, dim, py_int_of_float p) = (d', m', s', l', dim', py_int_of_float p').
Proof.
  intros Hd Hm Hs Hd' Hm' Hs' Hdim Hdim' Hp Hp' H.
  unfold tsne_file_name in H. apply append_inv_tail in H.
  unfold py_join in H. cbn [String.concat] in H.
  apply split_first_dash in H as [-> H]; [|done..].
  apply split_first_dash in H as [-> H]; [|done..].
  apply split_first_dash in H as [-> H]; [|done..].
  apply split_first_dash in H as [_ H]; [|done..].
  apply split_last_two in H as (Hl & Hdim_eq & Hp_eq);
    try (by apply py_str_int_dash_free); try (by apply py_str_opt_dash_free).
  apply py_str_int_inj in Hl as ->.
  apply py_str_opt_inj in Hdim_eq as ->.
  apply py_str_int_inj in Hp_eq as ->. done.
Qed.

(** C2, as the code has it.  Two calls of the signature sampler whose names
    hold no dash and whose sample size and dimension are not negative build
    distinct keys whenever they differ in a name, in the text of the layer
    selector (for selectors of at most one layer: in the selector), in the
    sample size or in the effective dimension ([dim], or the sample size
    when [dim] is [None]).  Two calls of the projector under the same
    conditions on names, dimension and perplexity build distinct keys
    whenever they differ in a name, in the layer, in the dimension or in the
    integer part of the perplexity. *)
Theorem cache_keys_distinct :
  (∀ (d m s : string) (l : layer_sel) (ss : Z) (dim : option Z)
     (d' m' s' : string) (l' : layer_sel) (ss' : Z) (dim' : option Z),
     dash_free d = true → dash_free m = true → dash_free s = true →
     dash_free d' = true → dash_free m' = true → dash_free s' = true →
     0 ≤ ss → 0 ≤ ss' →
     0 ≤ effective_dim ss dim → 0 ≤ effective_dim ss' dim' →
     ((d, m, s, layer_str (signature_layers l), ss, effective_dim ss dim)
      ≠ (d', m', s', layer_str (signature_layers l'), ss', effective_dim ss' dim')
      → signature_file_name d m s l ss dim
        ≠ signature_file_name d' m' s' l' ss' dim')
     ∧ (at_most_one_layer l → at_most_one_layer l' →
        (d, m, s, signature_layers l, ss, effective_dim ss dim)
        ≠ (d', m', s', signature_layers l', ss', effective_dim ss' dim')
        → signature_file_name d m s l ss dim
          ≠ signature_file_name d' m' s' l' ss' dim'))
  ∧ (∀ (d m s : string) (l ss : Z) (dim : option Z) (p : Q)
       (d' m' s' : string) (l' ss' : Z) (dim' : option Z) (p' : Q),
       dash_free d = true → dash_free m = true → dash_free s = true →
       dash_free d' = true → dash_free m' = true → dash_free s' = true →
       (∀ x, dim = Some x → 0 ≤ x) → (∀ x, dim' = Some x → 0 ≤ x) →
       0 ≤ py_int_of_float p → 0 ≤ py_int_of_float p' →
       (d, m, s, l, dim, py_int_of_float p)
       ≠ (d', m', s', l', dim', py_int_of_float p')
       → tsne_file_name d m s l ss dim p
         ≠ tsne_file_name d' m' s' l' ss' dim' p').
Proof.
  split.
  - intros d m s l ss dim d' m' s' l' ss' dim'
      Hd Hm Hs Hd' Hm' Hs' Hss Hss' Hdim Hdim'.
    split.
    + intros Hne Hkey. apply Hne. by apply signature_file_name_inj.
    + intros Hl Hl' Hne Hkey. apply Hne.
      pose proof (signature_file_name_inj _ _ _ _ _ _ _ _ _ _ _ _
                    Hd Hm Hs Hd' Hm' Hs' Hss Hss' Hdim Hdim' Hkey) as Heq.
      injection Heq as -> -> -> Hstr -> ->.
      by rewrite (layer_str_one_inj l l' Hl Hl' Hstr).
  - intros d m s l ss dim p d' m' s' l' ss' dim' p'
      Hd Hm Hs Hd' Hm' Hs' Hdim Hdim' Hp Hp' Hne Hkey.
    apply Hne. by eapply tsne_file_name_inj.
Qed.

Lemma cache_keys_distinct_witness :
  signature_file_name "ptb" "GRU" "state" (LayerOne 1) 5000 (Some 50)
  ≠ signature_file_name "ptb" "GRU" "state" (LayerOne 0) 5000 (Some 50)
  ∧ tsne_file_name "ptb" "GRU" "state" (-1) 5000 (Some 50) 40
    ≠ tsne_file_name "ptb" "GRU" "state" (-1) 5000 (Some 50) 30.
Proof.
  split.
  - apply (proj1 cache_keys_distinct
             "ptb" "GRU" "state" (LayerOne 1) 5000 (Some 50)
             "ptb" "GRU" "state" (LayerOne 0) 5000 (Some 50));
      try reflexivity; try (simpl; lia); try exact I; discriminate.
  - apply (proj2 cache_keys_distinct
             "ptb" "GRU" "state" (-1) 5000 (Some 50) 40%Q
             "ptb" "GRU" "state" (-1) 5000 (Some 50) 30%Q);
      try reflexivity; try (intros x [= <-]; lia);
      try (vm_compute; discriminate); discriminate.
Defined.

(** C2 as stated does not hold: calls that differ in a parameter can build
    one key.  The projector leaves the sample size out of its key and keeps
    only the integer part of the perplexity; the sampler writes the sample
    size for a missing dimension, joins the layers of a list without a
    delimiter, and a dash in a name moves the boundary between names. *)
Lemma cache_keys_collide :
  (5000 ≠ 1000
   ∧ tsne_file_name "ptb" "GRU" "state" (-1) 5000 (Some 50) 40
     = tsne_file_name "ptb" "GRU" "state" (-1) 1000 (Some 50) 40)
  ∧ (¬ (40 == 81 # 2)%Q
     ∧ tsne_file_name "ptb" "GRU" "state" (-1) 5000 (Some 50) 40
       = tsne_file_name "ptb" "GRU" "state" (-1) 5000 (Some 50) (81 # 2))
  ∧ (None ≠ Some 5000
     ∧ signature_file_name "ptb" "GRU" "state" LayerNone 5000 None
       = signature_file_name "ptb" "GRU" "state" LayerNone 5000 (Some 5000))
  ∧ (LayerMany [1; 2] ≠ LayerMany [12]
     ∧ signature_file_name "ptb" "GRU" "state" (LayerMany [1; 2]) 5000 (Some 50)
       = signature_file_name "ptb" "GRU" "state" (LayerMany [12]) 5000 (Some 50))
  ∧ ("ptb-a" ≠ "ptb"
     ∧ signature_file_name "ptb-a" "GRU" "state" LayerNone 5000 (Some 50)
       = signature_file_name "ptb" "a-GRU" "state" LayerNone 5000 (Some 50)).
Proof.
  repeat split; try discriminate; try reflexivity.
Qed.

(** ** The cache monad *)

Lemma io_bind_Ok {A B : Type} (m : IO A) (f : A → IO B) (w w' : world) (a : A) :
  m w = (Ok a, w') → (m ≫= f) w = f a w'.
Proof. intros H. unfold mbind, IO_bind. by rewrite H. Qed.

Lemma io_bind_Raise {A B : Type} (m : IO A) (f : A → IO B) (w w' : world) e :
  m w = (Raise e, w') → (m ≫= f) w = (Raise e, w').
Proof. intros H. unfold mbind, IO_bind. by rewrite H. Qed.

Lemma io_bind_inv {A B : Type} (m : IO A) (f : A → IO B) (w w' : world) (b : B) :
  (m ≫= f) w = (Ok b, w') → ∃ a w1, m w = (Ok a, w1) ∧ f a w1 = (Ok b, w').
Proof.
  unfold mbind, IO_bind. destruct (m w) as [[a|e] w1]; [eauto | discriminate].
Qed.

Lemma io_extends_ret {A : Type} (a : A) : io_extends (mret a : IO A).
Proof. intros w. exists []. by rewrite app_nil_r. Qed.

Lemma io_extends_lift {A : Type} (r : result A) : io_extends (io_lift r).
Proof. intros w. exists []. by rewrite app_nil_r. Qed.

Lemma io_extends_bind {A B : Type} (m : IO A) (f : A → IO B) :
  io_extends m → (∀ a, io_extends (f a)) → io_extends (m ≫= f).
Proof.
  intros Hm Hf w. unfold mbind, IO_bind.
  destruct (Hm w) as [rest Hrest].
  destruct (m w) as [[a|e] w1]; simpl in *.
  - destruct (Hf a w1) as [rest' Hrest']. exists (rest ++ rest').
    by rewrite Hrest', Hrest, app_assoc.
  - by exists rest.
Qed.

Lemma io_extends_log (e : event) : io_extends (io_log e).
Proof. intros w. by exists [e]. Qed.

Lemma io_extends_file_exists (path : string) : io_extends (file_exists path).
Proof. intros w. by exists [FileExists path]. Qed.

Lemma io_extends_read_pickle (path : string) : io_extends (read_pickle path).
Proof. intros w. by exists [FileRead path]. Qed.

Lemma io_extends_write_pickle (path : string) (b : blob) :
  io_extends (write_pickle path b).
Proof. intros w. by exists [FileWrite path]. Qed.

Lemma io_extends_before_save (path : string) : io_extends (before_save path).
Proof. apply io_extends_log. Qed.

Create HintDb io_extends.

#[local] Hint Resolve io_extends_ret io_extends_lift io_extends_log
  io_extends_file_exists io_extends_read_pickle io_extends_write_pickle
  io_extends_before_save : io_extends.

Ltac io_extends :=
  repeat first
    [ apply io_extends_bind; [|intros ?]
    | match goal with
      | |- io_extends (if ?b then _ else _) => destruct b
      | |- io_extends (let '(_, _) := ?p in _) => destruct p
      | |- io_extends (match ?p with (_, _) => _ end) => destruct p
      end
    | solve [auto with io_extends] ].

Lemma io_extends_load_words_and_state get_path db data_name model_name state_name diff :
  io_extends (load_words_and_state get_path db data_name model_name state_name diff).
Proof. unfold load_words_and_state. io_extends. Qed.

(** ** The strength aggregator *)

Lemma nd_take_shape (s r : ndarray) (layers : list Z) :
  nd_take s layers = Ok r →
  nd_shape r = length layers :: tail (nd_shape s) ∧ nd_ndim r = nd_ndim s.
Proof.
  unfold nd_take, nd_ndim. destruct (nd_shape s) as [|n rest]; [discriminate|].
  intros H. apply bind_Ok_inv in H as (slices & _ & [= <-]). done.
Qed.

Lemma map_result_Forall2 {A B : Type} (h : A → result B) (xs : list A) :
  (∀ x, x ∈ xs → is_Ok (h x)) →
  ∃ ys, map_result h xs = Ok ys ∧ Forall2 (λ x y, h x = Ok y) xs ys.
Proof.
  induction xs as [|x xs IH]; intros Hh.
  - exists []. split; [done | constructor].
  - destruct (Hh x) as [y Hy]; [left|].
    destruct IH as (ys & Hys & Hall); [intros z Hz; apply Hh; by right|].
    exists (y :: ys). simpl. rewrite Hy. simpl. rewrite Hys. simpl.
    split; [done | by constructor].
Qed.

(** Reading the first [n] elements by index is reading the prefix. *)
Lemma map_result_range {A B : Type} (h : A → result B) (xs : list A) (off n : nat) :
  (off + n ≤ length xs)%nat →
  map_result (λ i, x ← py_getitem xs (Z.of_nat i); h x) (seq off n)
  = map_result h (take n (drop off xs)).
Proof.
  revert off. induction n as [|n IH]; intros off Hlen; [done|].
  destruct (lookup_lt_is_Some_2 xs off) as [x Hx]; [lia|].
  rewrite (drop_S _ _ _ Hx). simpl.
  rewrite (py_getitem_nat _ _ _ Hx). simpl.
  by rewrite IH by lia.
Qed.

(** The last statement of [get_empirical_strength]: the first [top_k]
    strengths, each restricted to the selected layers. *)
Lemma strengths_slice (id_strengths : list ndarray) (layers : list Z) (top_k : Z) :
  (Z.to_nat top_k ≤ length id_strengths)%nat →
  (∀ s, s ∈ take (Z.to_nat top_k) id_strengths → is_Ok (nd_take s layers)) →
  ∃ out,
    map_result (λ i, strength ← py_getitem id_strengths (Z.of_nat i);
                     nd_take strength layers) (py_range top_k) = Ok out
    ∧ length out = Z.to_nat top_k
    ∧ Forall2 (λ s r, nd_take s layers = Ok r)
              (take (Z.to_nat top_k) id_strengths) out.
Proof.
  intros Hlen Hok. unfold py_range.
  rewrite (map_result_range (λ s, nd_take s layers)) by (simpl; lia).
  rewrite drop_0.
  destruct (map_result_Forall2 (λ s, nd_take s layers) _ Hok) as (out & Hout & Hall).
  exists out. split; [done|]. split; [|done].
  apply Forall2_length in Hall. rewrite <- Hall, length_take. lia.
Qed.

Lemma file_exists_bind_events {B : Type} (path : string) (k : bool → IO B)
    (w : world) :
  (∀ hit, io_extends (k hit)) →
  ∃ rest, events ((file_exists path ≫= k) w).2
          = events w ++ FileExists path :: rest.
Proof.
  intros Hk. unfold mbind, IO_bind, file_exists.
  match goal with
  | |- context [ k ?hit ?w1 ] => destruct (Hk hit w1) as [rest Hrest]
  end.
  exists rest. rewrite Hrest. simpl. by rewrite <- app_assoc.
Qed.

Section Strength.
Variable get_path : string → string → string.
Variable db : database.
Variables data_name model_name state_name : string.

Local Abbreviation tier_file top_k :=
  (tier_path get_path data_name model_name state_name top_k).

Lemma get_empirical_strength_rejects (layer : layer_arg) (top_k : Z) (w : world) :
  top_k > 1000 →
  get_empirical_strength get_path db data_name model_name state_name layer top_k w
  = (Raise (ValueError "selected words range too large, only support top 1000 frequent words!"), w).
Proof. intros H. unfold get_empirical_strength. by rewrite decide_True. Qed.

(** Within the range the first access is the look-up of the file of the
    tier. *)
Lemma get_empirical_strength_looks_up_tier (layer : layer_arg) (top_k : Z) (w : world) :
  top_k ≤ 1000 →
  ∃ rest,
    events (get_empirical_strength get_path db data_name model_name
              state_name layer top_k w).2
    = events w ++ FileExists (tier_file top_k) :: rest.
Proof.
  intros H. unfold get_empirical_strength. rewrite decide_False by lia.
  apply file_exists_bind_events. intros hit. io_extends.
Qed.

(** A cache hit: the pickled strengths are read and sliced. *)
Lemma get_empirical_strength_hit (layer : layer_arg) (top_k : Z) (w : world)
    (id_strengths : list ndarray) :
  top_k ≤ 1000 →
  files w !! tier_file top_k = Some (PickledStrengths id_strengths) →
  get_empirical_strength get_path db data_name model_name state_name layer top_k w
  = (map_result (λ i, strength ← py_getitem id_strengths (Z.of_nat i);
                      nd_take strength (selected_layers layer)) (py_range top_k),
     log_event (FileRead (tier_file top_k))
       (log_event (FileExists (tier_file top_k)) w)).
Proof.
  intros H Hfile. unfold get_empirical_strength. rewrite decide_False by lia.
  fold (tier_file top_k).
  unfold mbind at 1. unfold IO_bind at 1. unfold file_exists at 1.
  rewrite Hfile. rewrite bool_decide_eq_true_2 by eauto.
  unfold mbind at 1. unfold IO_bind at 1.
  unfold mbind at 1. unfold IO_bind at 1. unfold read_pickle at 1.
  simpl. rewrite Hfile. done.
Qed.

(** A cache miss: the strengths are computed from the loaded words and
    states, pickled under the name of the tier, and sliced. *)
Lemma get_empirical_strength_miss (layer : layer_arg) (top_k : Z) (w w' : world)
    (words : list Z) (states : list state_item)
    (buckets : list (option (list state_item))) (id_strengths : list ndarray) :
  top_k ≤ 1000 →
  files w !! tier_file top_k = None →
  load_words_and_state get_path db data_name model_name state_name true
    (log_event (FileExists (tier_file top_k)) w) = (Ok (words, states), w') →
  sort_by_id words states = Ok buckets →
  cal_empirical_strength (take (Z.to_nat (strength_tier top_k)) buckets)
    np_mean_axis0 = Ok id_strengths →
  get_empirical_strength get_path db data_name model_name state_name layer top_k w
  = (map_result (λ i, strength ← py_getitem id_strengths (Z.of_nat i);
                      nd_take strength (selected_layers layer)) (py_range top_k),
     mk_world (<[tier_file top_k := PickledStrengths id_strengths]> (files w'))
              (events w' ++ [FileWrite (tier_file top_k)])).
Proof.
  intros H Hfile Hload Hsort Hcal.
  unfold get_empirical_strength. rewrite decide_False by lia.
  fold (tier_file top_k).
  erewrite (io_bind_Ok (file_exists (tier_file top_k)) _ w _ false); cycle 1.
  { unfold file_exists. rewrite Hfile.
    rewrite bool_decide_eq_false_2; [done|]. by intros [? ?]. }
  erewrite io_bind_Ok; [done|].
  erewrite io_bind_Ok; [|exact Hload].
  unfold mbind, IO_bind, io_lift, write_pickle, mret, IO_ret.
  by rewrite Hsort, Hcal.
Qed.

End Strength.

(** An absent bucket gets zeros of the shape of the first state of the
    first bucket, when that bucket is there. *)
Lemma cal_empirical_strength_absent_bucket
    (a : ndarray) (states : list state_item)
    (rest : list (option (list state_item)))
    (strength_func : ndarray → result ndarray) (out : list ndarray) (j : nat) :
  cal_empirical_strength (Some (ItemArray a :: states) :: rest) strength_func
  = Ok out →
  (Some (ItemArray a :: states) :: rest) !! j = Some None →
  out !! j = Some (np_zeros (nd_shape a)).
Proof.
  set (id_states := Some (ItemArray a :: states) :: rest).
  assert (Hshape : first_state_shape id_states = Ok (nd_shape a)) by reflexivity.
  unfold cal_empirical_strength. rewrite Hshape, bind_Ok.
  intros Hrun Hj. apply map_result_inv in Hrun.
  destruct (Forall2_lookup_l _ _ _ _ _ Hrun Hj) as (r & Hr & Hmap).
  simpl in Hmap. by injection Hmap as <-.
Qed.

(** C3 fails on the code.  When the first bucket is absent,
    [cal_empirical_strength] raises: it reads the shape of the zero arrays
    from the first state of the first bucket before it looks at any
    bucket. *)
Theorem cal_empirical_strength_first_bucket_absent
    (rest : list (option (list state_item)))
    (strength_func : ndarray → result ndarray) :
  cal_empirical_strength (None :: rest) strength_func
  = Raise (TypeError "'NoneType' object is not subscriptable").
Proof. reflexivity. Qed.

(** The grouped states of the word ids 1, 1: the word id 0 has no state,
    and the strength aggregation raises. *)
Example cal_empirical_strength_after_sort_by_id :
  sort_by_id [1; 1] [ItemArray (Example.state2x2 1 2 3 4);
                     ItemArray (Example.state2x2 2 4 6 8)]
  = Ok [None; Some [ItemArray (Example.state2x2 1 2 3 4);
                    ItemArray (Example.state2x2 2 4 6 8)]]
  ∧ cal_empirical_strength
      [None; Some [ItemArray (Example.state2x2 1 2 3 4);
                   ItemArray (Example.state2x2 2 4 6 8)]] np_mean_axis0
    = Raise (TypeError "'NoneType' object is not subscriptable").
Proof. split; reflexivity. Qed.

Lemma strength_tier_covers (top_k : Z) :
  top_k ≤ 1000 →
  strength_tier top_k ∈ [100; 500; 1000]
  ∧ top_k ≤ strength_tier top_k
  ∧ ∀ t, t ∈ [100; 500; 1000] → top_k ≤ t → strength_tier top_k ≤ t.
Proof.
  intros H. unfold strength_tier.
  repeat case_decide; (split; [set_solver | split; [lia|]]);
    intros t Ht Hle; set_unfold; lia.
Qed.

(** With the strengths of the tier at hand, the call returns the first
    [top_k] of them, each restricted to the selected layers. *)
Lemma get_empirical_strength_prefix
    (get_path : string → string → string) (db : database)
    (data_name model_name state_name : string) (layer : layer_arg)
    (top_k : Z) (w : world) (id_strengths : list ndarray) :
  top_k ≤ 1000 →
  tier_strengths get_path db data_name model_name state_name top_k w
    id_strengths →
  (Z.to_nat top_k ≤ length id_strengths)%nat →
  (∀ s, s ∈ take (Z.to_nat top_k) id_strengths →
        is_Ok (nd_take s (selected_layers layer))) →
  ∃ out,
    (get_empirical_strength get_path db data_name model_name state_name
       layer top_k w).1 = Ok out
    ∧ length out = Z.to_nat top_k
    ∧ Forall2 (λ s r, nd_take s (selected_layers layer) = Ok r)
              (take (Z.to_nat top_k) id_strengths) out.
Proof.
  intros H Hids Hlen Hok.
  destruct (strengths_slice id_strengths (selected_layers layer) top_k Hlen Hok)
    as (out & Hout & Hlen_out & Hall).
  exists out. split; [|done].
  destruct Hids as [Hhit | (Hmiss & words & states & buckets & w' & Hload & Hsort & Hcal)].
  - by rewrite (get_empirical_strength_hit _ _ _ _ _ _ _ _ _ H Hhit).
  - by rewrite (get_empirical_strength_miss _ _ _ _ _ _ _ _ _ _ _ _ _
                  H Hmiss Hload Hsort Hcal).
Qed.

(** C4, as the code has it.  For every [top_k <= 1000],
    [get_empirical_strength] takes the smallest of the tiers 100, 500, 1000
    that covers [top_k], first looks up the cache file of that tier, and,
    the strengths of the tier at hand (read from that file or computed and
    stored under its name), returns exactly the first [top_k] of them, each
    restricted to the selected layers; the result has [top_k] entries (none
    for a negative [top_k]).  The tiers of 1, 100, 101, 500 and 1000 are
    100, 100, 500, 500 and 1000. *)
Theorem get_empirical_strength_tier_and_prefix
    (get_path : string → string → string) (db : database)
    (data_name model_name state_name : string) (layer : layer_arg)
    (top_k : Z) (w : world) :
  top_k ≤ 1000 →
  let run := get_empirical_strength get_path db data_name model_name
               state_name layer top_k w in
  (strength_tier top_k ∈ [100; 500; 1000]
   ∧ top_k ≤ strength_tier top_k
   ∧ ∀ t, t ∈ [100; 500; 1000] → top_k ≤ t → strength_tier top_k ≤ t)
  ∧ strength_tier <$> [1; 100; 101; 500; 1000] = [100; 100; 500; 500; 1000]
  ∧ (∃ rest, events run.2
             = events w
               ++ FileExists (tier_path get_path data_name model_name
                                state_name top_k) :: rest)
  ∧ ∀ id_strengths,
      tier_strengths get_path db data_name model_name state_name top_k w
        id_strengths →
      (Z.to_nat top_k ≤ length id_strengths)%nat →
      (∀ s, s ∈ take (Z.to_nat top_k) id_strengths →
            is_Ok (nd_take s (selected_layers layer))) →
      ∃ out, run.1 = Ok out
             ∧ length out = Z.to_nat top_k
             ∧ Forall2 (λ s r, nd_take s (selected_layers layer) = Ok r)
                       (take (Z.to_nat top_k) id_strengths) out.
Proof.
  intros H run.
  split; [by apply strength_tier_covers|].
  split; [done|].
  split; [by apply get_empirical_strength_looks_up_tier|].
  intros id_strengths Hids Hlen Hok.
  by apply get_empirical_strength_prefix.
Qed.

Lemma get_empirical_strength_tier_and_prefix_witness :
  ∃ out,
    (get_empirical_strength Example.get_path Example.db010 "ptb" "GRU" "state"
       (LayerInt (-1)) 2 Example.cached_world).1 = Ok out
    ∧ length out = 2%nat.
Proof.
  destruct (get_empirical_strength_tier_and_prefix
              Example.get_path Example.db010 "ptb" "GRU" "state"
              (LayerInt (-1)) 2 Example.cached_world)
    as (_ & _ & _ & Hslice); [lia|].
  destruct (Hslice [Example.state2x2 1 2 3 4; Example.state2x2 5 6 7 8])
    as (out & Hout & Hlen & _).
  - left. vm_compute. reflexivity.
  - simpl. lia.
  - intros s Hs. simpl in Hs.
    apply elem_of_cons in Hs as [->|Hs]; [eexists; reflexivity|].
    apply elem_of_cons in Hs as [->|Hs]; [eexists; reflexivity|].
    by apply elem_of_nil in Hs.
  - exists out. split; [exact Hout | exact Hlen].
Defined.

(** C4 as stated does not hold: the tiers of 100 and of 500 are 100 and
    500, the tiers that cover them, not 500 and 1000.  And a request for
    more words than the tier has strengths raises an [IndexError]. *)
Lemma strength_tier_of_bounds :
  strength_tier 100 = 100
  ∧ strength_tier 500 = 500
  ∧ strength_tier <$> [1; 100; 101; 500; 1000] ≠ [100; 500; 500; 1000; 1000]
  ∧ (get_empirical_strength Example.get_path Example.db010 "ptb" "GRU" "state"
       (LayerInt (-1)) 3 Example.cached_world).1 = Raise IndexError.
Proof.
  split; [done|]. split; [done|]. split; [discriminate|].
  vm_compute. reflexivity.
Qed.

(** A fresh computation: nothing is cached, the states are fetched and
    differenced, grouped and averaged, and the strengths are stored under
    the name of the tier of 100 words. *)
Example get_empirical_strength_fresh :
  let run := get_empirical_strength Example.get_path Example.db010
               "ptb" "GRU" "state" (LayerInt (-1)) 2 Example.empty_world in
  run.1 = Ok [mk_ndarray [1; 2]%nat [-3 # 2; -3 # 2]%Q;
              mk_ndarray [1; 2]%nat [3; 4]%Q]
  ∧ events run.2
    = [FileExists "_cached/tmp/ptb-GRU-state-100.pkl";
       FileExists "_cached/tmp/ptb-GRU-words.pkl";
       DatabaseQuery "ptb" "GRU";
       BeforeSave "_cached/tmp/ptb-GRU-words.pkl";
       FileWrite "_cached/tmp/ptb-GRU-words.pkl";
       FileWrite "_cached/tmp/ptb-GRU-state-diff.pkl";
       FileWrite "_cached/tmp/ptb-GRU-state-100.pkl"].
Proof. split; vm_compute; reflexivity. Qed.

(** *** The error of the range check has one source *)

Lemma raises_other_Ok {A : Type} (a : A) : raises_other (Ok a).
Proof. discriminate. Qed.

Lemma raises_other_bind {A B : Type} (m : result A) (f : A → result B) :
  raises_other m → (∀ a, raises_other (f a)) → raises_other (m ≫= f).
Proof.
  intros Hm Hf. unfold mbind, result_bind.
  destruct m as [a|e]; [apply Hf|].
  intros [= ->]. by apply Hm.
Qed.

Lemma raises_other_for_each {A S : Type} (xs : list A)
    (body : S → A → result S) (s : S) :
  (∀ s x, raises_other (body s x)) → raises_other (for_each xs body s).
Proof.
  intros Hbody. revert s. induction xs as [|x xs IH]; intros s; simpl.
  - discriminate.
  - apply raises_other_bind; [apply Hbody | apply IH].
Qed.

Lemma raises_other_map_result {A B : Type} (f : A → result B) (xs : list A) :
  (∀ x, raises_other (f x)) → raises_other (map_result f xs).
Proof.
  intros Hf. induction xs as [|x xs IH]; simpl; [discriminate|].
  apply raises_other_bind; [apply Hf|]. intros y.
  apply raises_other_bind; [apply IH|]. discriminate.
Qed.

Create HintDb raises_other.

Ltac raises_other :=
  repeat first
    [ apply raises_other_Ok
    | solve [auto with raises_other]
    | solve [unfold raises_other, range_error; discriminate]
    | apply raises_other_bind; [|intros ?]
    | apply raises_other_for_each; intros ? ?
    | apply raises_other_map_result; intros ?
    | match goal with
      | |- raises_other (let '(_, _) := ?p in _) => destruct p
      | |- context [ let '(_, _) := ?p in _ ] => is_var p; destruct p
      | |- raises_other (match ?x with _ => _ end) => destruct x
      | |- raises_other (if ?b then _ else _) => destruct b
      end ].

Lemma raises_other_py_getitem {A : Type} (xs : list A) (i : Z) :
  raises_other (py_getitem xs i).
Proof. unfold py_getitem. raises_other. Qed.

Lemma raises_other_py_setitem {A : Type} (xs : list A) (i : Z) (x : A) :
  raises_other (py_setitem xs i x).
Proof. unfold py_setitem. raises_other. Qed.

Lemma raises_other_py_max (xs : list Z) : raises_other (py_max xs).
Proof. unfold py_max. raises_other. Qed.

Lemma raises_other_nd_sub (a b : ndarray) : raises_other (nd_sub a b).
Proof. unfold nd_sub. raises_other. Qed.

#[local] Hint Resolve raises_other_py_getitem raises_other_py_setitem
  raises_other_py_max raises_other_nd_sub : raises_other.

Lemma raises_other_cal_diff (arrays : list ndarray) :
  raises_other (cal_diff arrays).
Proof. unfold cal_diff. raises_other. Qed.

Lemma raises_other_field_states (records : list record) (field : string) :
  raises_other (field_states records field).
Proof. unfold field_states, rec_getitem. raises_other. Qed.

#[local] Hint Resolve raises_other_cal_diff raises_other_field_states
  : raises_other.

Lemma raises_other_fetch_state_of_eval (db : database) (eval_id : string)
    (field_name : field_arg) (diff : diff_arg) :
  raises_other (fetch_state_of_eval db eval_id field_name diff).
Proof.
  unfold fetch_state_of_eval, normalize_fields, fetch_field.
  destruct field_name, diff; raises_other.
Qed.

#[local] Hint Resolve raises_other_fetch_state_of_eval : raises_other.

Lemma raises_other_fetch_states (db : database) (data_name model_name : string)
    (field_name : field_arg) (diff : diff_arg) :
  raises_other (fetch_states db data_name model_name field_name diff).
Proof. unfold fetch_states. raises_other. Qed.

Lemma raises_other_sort_by_id {A : Type} (word_ids : list Z) (states : list A) :
  raises_other (sort_by_id word_ids states).
Proof. unfold sort_by_id. raises_other. Qed.

Lemma raises_other_np_stack (arrays : list ndarray) :
  raises_other (np_stack arrays).
Proof. unfold np_stack. raises_other. Qed.

#[local] Hint Resolve raises_other_np_stack : raises_other.

Lemma raises_other_np_mean_axis0 (a : ndarray) : raises_other (np_mean_axis0 a).
Proof. unfold np_mean_axis0, nd_reduce_axis0, mean_of. raises_other. Qed.

#[local] Hint Resolve raises_other_np_mean_axis0 : raises_other.

Lemma raises_other_cal_empirical_strength
    (id_states : list (option (list state_item)))
    (strength_func : ndarray → result ndarray) :
  (∀ a, raises_other (strength_func a)) →
  raises_other (cal_empirical_strength id_states strength_func).
Proof.
  intros Hf.
  unfold cal_empirical_strength, first_state_shape, strenth_map,
    item_shape, item_asarray.
  raises_other.
Qed.

Lemma raises_other_nd_take (a : ndarray) (layers : list Z) :
  raises_other (nd_take a layers).
Proof. unfold nd_take. raises_other. Qed.

#[local] Hint Resolve raises_other_fetch_states raises_other_sort_by_id
  raises_other_cal_empirical_strength raises_other_nd_take : raises_other.

Lemma io_raises_other_ret {A : Type} (a : A) : io_raises_other (mret a : IO A).
Proof. intros w. discriminate. Qed.

Lemma io_raises_other_lift {A : Type} (r : result A) :
  raises_other r → io_raises_other (io_lift r).
Proof. intros Hr w. exact Hr. Qed.

Lemma io_raises_other_bind {A B : Type} (m : IO A) (f : A → IO B) :
  io_raises_other m → (∀ a, io_raises_other (f a)) → io_raises_other (m ≫= f).
Proof.
  intros Hm Hf w. unfold mbind, IO_bind. specialize (Hm w).
  destruct (m w) as [[a|e] w1]; [apply Hf|].
  simpl in *. intros [= ->]. by apply Hm.
Qed.

Lemma io_raises_other_file_exists (path : string) :
  io_raises_other (file_exists path).
Proof. intros w. discriminate. Qed.

Lemma io_raises_other_read_pickle (path : string) :
  io_raises_other (read_pickle path).
Proof. intros w. unfold read_pickle. simpl. raises_other. Qed.

Lemma io_raises_other_write_pickle (path : string) (b : blob) :
  io_raises_other (write_pickle path b).
Proof. intros w. discriminate. Qed.

Lemma io_raises_other_log (e : event) : io_raises_other (io_log e).
Proof. intros w. discriminate. Qed.

Lemma raises_other_expect_words (b : blob) : raises_other (expect_words b).
Proof. unfold expect_words. raises_other. Qed.

Lemma raises_other_expect_states (b : blob) : raises_other (expect_states b).
Proof. unfold expect_states. raises_other. Qed.

Lemma raises_other_expect_strengths (b : blob) :
  raises_other (expect_strengths b).
Proof. unfold expect_strengths. raises_other. Qed.

#[local] Hint Resolve raises_other_expect_words raises_other_expect_states
  raises_other_expect_strengths : raises_other.

Ltac io_raises_other :=
  repeat first
    [ apply io_raises_other_ret
    | apply io_raises_other_file_exists
    | apply io_raises_other_read_pickle
    | apply io_raises_other_write_pickle
    | apply io_raises_other_log
    | apply io_raises_other_lift; raises_other
    | apply io_raises_other_bind; [|intros ?]
    | match goal with
      | |- io_raises_other (if ?b then _ else _) => destruct b
      | |- io_raises_other (let '(_, _) := ?p in _) => destruct p
      | |- io_raises_other (match ?p with (_, _) => _ end) => destruct p
      end ].

Lemma io_raises_other_load_words_and_state get_path db data_name model_name
    state_name diff :
  io_raises_other
    (load_words_and_state get_path db data_name model_name state_name diff).
Proof. unfold load_words_and_state, before_save. io_raises_other. Qed.

(** Within the range no call ends in the error of the range check. *)
Lemma get_empirical_strength_raises_other
    (get_path : string → string → string) (db : database)
    (data_name model_name state_name : string) (layer : layer_arg)
    (top_k : Z) (w : world) :
  top_k ≤ 1000 →
  (get_empirical_strength get_path db data_name model_name state_name
     layer top_k w).1 ≠ Raise range_error.
Proof.
  intros H. unfold get_empirical_strength. rewrite decide_False by lia.
  revert w.
  match goal with |- ∀ w, (?m w).1 ≠ _ => change (io_raises_other m) end.
  io_raises_other.
Qed.

(** C5. A call of [get_empirical_strength] with [top_k > 1000] raises the
    [ValueError] of the range check and leaves the world as it was: no file
    is looked up, read or written and the database is not queried.  A call
    with [top_k <= 1000] never ends in that error.  A call with
    [top_k = 1000] goes on to look up the cache file of the tier of 1000
    words and, the strengths of that tier at hand, returns 1000 of them. *)
Theorem get_empirical_strength_range_check
    (get_path : string → string → string) (db : database)
    (data_name model_name state_name : string) (layer : layer_arg)
    (top_k : Z) (w : world) :
  let run := get_empirical_strength get_path db data_name model_name
               state_name layer top_k w in
  (top_k > 1000 → run = (Raise range_error, w))
  ∧ (top_k ≤ 1000 → run.1 ≠ Raise range_error)
  ∧ (top_k = 1000 →
     (∃ rest, events run.2
              = events w
                ++ FileExists (get_path _tmp_dir
                     (strength_file_name data_name model_name state_name 1000))
                   :: rest)
     ∧ ∀ id_strengths,
         tier_strengths get_path db data_name model_name state_name 1000 w
           id_strengths →
         (1000 ≤ length id_strengths)%nat →
         (∀ s, s ∈ take 1000 id_strengths →
               is_Ok (nd_take s (selected_layers layer))) →
         ∃ out, run.1 = Ok out ∧ length out = 1000%nat).
Proof.
  intros run. split; [|split].
  - intros H. by apply get_empirical_strength_rejects.
  - intros H. by apply get_empirical_strength_raises_other.
  - intros ->. split.
    + apply (get_empirical_strength_looks_up_tier _ _ _ _ _ layer 1000 w). lia.
    + intros id_strengths Hids Hlen Hok.
      destruct (get_empirical_strength_prefix get_path db data_name model_name
                  state_name layer 1000 w id_strengths)
        as (out & Hout & Hlen_out & _); [lia | exact Hids | | |].
      * replace (Z.to_nat 1000) with 1000%nat by lia. exact Hlen.
      * replace (Z.to_nat 1000) with 1000%nat by lia. exact Hok.
      * exists out. split; [exact Hout|]. rewrite Hlen_out. lia.
Qed.

Lemma get_empirical_strength_range_check_witness :
  get_empirical_strength Example.get_path Example.db010 "ptb" "GRU" "state"
    (LayerInt (-1)) 1001 Example.full_world
  = (Raise range_error, Example.full_world)
  ∧ ∃ out,
      (get_empirical_strength Example.get_path Example.db010 "ptb" "GRU" "state"
         (LayerInt (-1)) 1000 Example.full_world).1 = Ok out
      ∧ length out = 1000%nat.
Proof.
  split.
  - apply (proj1 (get_empirical_strength_range_check
                    Example.get_path Example.db010 "ptb" "GRU" "state"
                    (LayerInt (-1)) 1001 Example.full_world)).
    lia.
  - destruct (proj2 (proj2 (get_empirical_strength_range_check
                              Example.get_path Example.db010 "ptb" "GRU" "state"
                              (LayerInt (-1)) 1000 Example.full_world)) eq_refl)
      as [_ Hreturns].
    apply (Hreturns (replicate 1000 (Example.state2x2 1 2 3 4))).
    + left. vm_compute. reflexivity.
    + rewrite length_replicate. lia.
    + intros s Hs. rewrite take_replicate in Hs.
      apply elem_of_replicate_inv in Hs as ->. eexists. reflexivity.
Defined.

Lemma map_result_range_bound {A B : Type} (h : A → result B) (xs : list A)
    (n : nat) (out : list B) :
  map_result (λ i, x ← py_getitem xs (Z.of_nat i); h x) (seq 0 n) = Ok out →
  (n ≤ length xs)%nat.
Proof.
  intros H. apply map_result_inv in H.
  destruct n as [|n]; [lia|].
  assert (Hn : seq 0 (S n) !! n = Some n) by (apply lookup_seq_lt; lia).
  destruct (Forall2_lookup_l _ _ _ _ _ H Hn) as (r & _ & Hr).
  apply bind_Ok_inv in Hr as (x & Hx & _).
  apply py_getitem_nat_inv, lookup_lt_Some in Hx. lia.
Qed.

(** What a successful call leaves in the cache file of its tier, and what
    it returns from it. *)
Lemma get_empirical_strength_inv
    (get_path : string → string → string) (db : database)
    (data_name model_name state_name : string) (layer : layer_arg)
    (top_k : Z) (w w' : world) (out : list ndarray) :
  get_empirical_strength get_path db data_name model_name state_name
    layer top_k w = (Ok out, w') →
  ∃ id_strengths,
    files w' !! tier_path get_path data_name model_name state_name top_k
    = Some (PickledStrengths id_strengths)
    ∧ Forall2 (λ s r, nd_take s (selected_layers layer) = Ok r)
              (take (Z.to_nat top_k) id_strengths) out.
Proof.
  intros Hrun.
  destruct (decide (top_k > 1000)) as [Hbig|Hsmall].
  { rewrite get_empirical_strength_rejects in Hrun by done. discriminate. }
  unfold get_empirical_strength in Hrun. rewrite decide_False in Hrun by done.
  fold (tier_path get_path data_name model_name state_name top_k) in Hrun.
  set (path := tier_path get_path data_name model_name state_name top_k) in *.
  apply io_bind_inv in Hrun as (hit & w1 & Hexists & Hrun).
  unfold file_exists in Hexists. injection Hexists as <- <-.
  apply io_bind_inv in Hrun as (ids & w2 & Hids & Hfinal).
  unfold io_lift in Hfinal. injection Hfinal as Hmap <-.
  exists ids. split.
  - destruct (bool_decide (is_Some (files w !! path))).
    + apply io_bind_inv in Hids as (b & w3 & Hread & Hexpect).
      unfold read_pickle in Hread. simpl in Hread.
      destruct (files w !! path) as [b'|] eqn:Hfile; [|discriminate].
      injection Hread as <- <-.
      unfold io_lift in Hexpect. injection Hexpect as Hexpect <-.
      destruct b'; try discriminate. simpl in *. congruence.
    + apply io_bind_inv in Hids as ([words states] & w3 & Hload & Hids).
      apply io_bind_inv in Hids as (buckets & w4 & Hsort & Hids).
      apply io_bind_inv in Hids as (ids' & w5 & Hcal & Hids).
      apply io_bind_inv in Hids as ([] & w6 & Hwrite & Hret).
      unfold write_pickle in Hwrite. injection Hwrite as <-.
      unfold mret, IO_ret in Hret. injection Hret as <- <-.
      simpl. apply lookup_insert_eq.
  - unfold py_range in Hmap.
    pose proof (map_result_range_bound _ _ _ _ Hmap) as Hlen.
    rewrite (map_result_range (λ s, nd_take s (selected_layers layer)))
      in Hmap by (simpl; lia).
    rewrite drop_0 in Hmap. by apply map_result_inv in Hmap.
Qed.

(** C9, as the code has it.  A call of [get_empirical_strength] with a
    single integer as layer wraps it into a list, and selecting with a list
    keeps the axis of the layers: each element of the returned list is the
    strength of the word in the cache file of the tier, reduced to the one
    selected layer along its first axis.  It has as many axes as the cached
    strength, the first of length one; for strengths of shape (layers,
    units) it is a two-dimensional array of shape (1, units). *)
Theorem get_empirical_strength_single_layer
    (get_path : string → string → string) (db : database)
    (data_name model_name state_name : string) (l : Z)
    (top_k : Z) (w w' : world) (out : list ndarray) :
  get_empirical_strength get_path db data_name model_name state_name
    (LayerInt l) top_k w = (Ok out, w') →
  ∃ id_strengths,
    files w' !! tier_path get_path data_name model_name state_name top_k
    = Some (PickledStrengths id_strengths)
    ∧ Forall2 (λ s r, nd_take s [l] = Ok r
                      ∧ nd_shape r = 1%nat :: tail (nd_shape s)
                      ∧ nd_ndim r = nd_ndim s
                      ∧ ∀ units layers, nd_shape s = [layers; units] →
                                        nd_shape r = [1%nat; units])
              (take (Z.to_nat top_k) id_strengths) out.
Proof.
  intros Hrun.
  destruct (get_empirical_strength_inv _ _ _ _ _ _ _ _ _ _ Hrun)
    as (id_strengths & Hfile & Hall).
  exists id_strengths. split; [done|].
  eapply Forall2_impl; [exact Hall|].
  intros s r Hr. simpl in Hr.
  destruct (nd_take_shape _ _ _ Hr) as [Hshape Hndim].
  repeat split; try done.
  intros units layers Hs. by rewrite Hshape, Hs.
Qed.

Lemma get_empirical_strength_single_layer_witness :
  ∃ id_strengths,
    Forall2 (λ s r, nd_take s [-1] = Ok r
                    ∧ nd_shape r = 1%nat :: tail (nd_shape s)
                    ∧ nd_ndim r = nd_ndim s
                    ∧ ∀ units layers, nd_shape s = [layers; units] →
                                      nd_shape r = [1%nat; units])
      (take (Z.to_nat 2) id_strengths)
      [mk_ndarray [1; 2]%nat [3; 4]%Q; mk_ndarray [1; 2]%nat [7; 8]%Q].
Proof.
  destruct (get_empirical_strength_single_layer
              Example.get_path Example.db010 "ptb" "GRU" "state" (-1) 2
              Example.cached_world
              (log_event (FileRead "_cached/tmp/ptb-GRU-state-100.pkl")
                 (log_event (FileExists "_cached/tmp/ptb-GRU-state-100.pkl")
                    Example.cached_world))
              [mk_ndarray [1; 2]%nat [3; 4]%Q; mk_ndarray [1; 2]%nat [7; 8]%Q])
    as (id_strengths & _ & Hall).
  - vm_compute. reflexivity.
  - exists id_strengths. exact Hall.
Defined.

(** C9 as stated does not hold: with the integer -1 as layer and states of
    two layers of two units, the strengths returned are arrays of two axes,
    of shape (1, 2), not vectors. *)
Lemma get_empirical_strength_single_layer_not_vectors :
  (get_empirical_strength Example.get_path Example.db010 "ptb" "GRU" "state"
     (LayerInt (-1)) 2 Example.empty_world).1
  = Ok [mk_ndarray [1; 2]%nat [-3 # 2; -3 # 2]%Q;
        mk_ndarray [1; 2]%nat [3; 4]%Q]
  ∧ Forall (λ r, nd_ndim r = 2%nat ∧ nd_ndim r ≠ 1%nat)
      [mk_ndarray [1; 2]%nat [-3 # 2; -3 # 2]%Q;
       mk_ndarray [1; 2]%nat [3; 4]%Q].
Proof.
  split; [vm_compute; reflexivity|].
  repeat constructor; discriminate.
Qed.

(** ** The statistics engine *)

Section Sorting.
Context {A : Type} (le : A → A → bool).

Lemma elem_of_insert_by (x y : A) (l : list A) :
  y ∈ insert_by le x l ↔ y = x ∨ y ∈ l.
Proof.
  induction l as [|z l IH]; simpl.
  - rewrite list_elem_of_singleton, elem_of_nil. tauto.
  - destruct (le x z); rewrite !elem_of_cons; [tauto|].
    rewrite IH. tauto.
Qed.

Lemma elem_of_sort_by (y : A) (l : list A) : y ∈ sort_by le l ↔ y ∈ l.
Proof.
  induction l as [|x l IH]; [done|].
  unfold sort_by in *. simpl. rewrite elem_of_insert_by, IH, elem_of_cons. done.
Qed.

Lemma length_insert_by (x : A) (l : list A) :
  length (insert_by le x l) = S (length l).
Proof.
  induction l as [|z l IH]; simpl; [done|].
  destruct (le x z); simpl; by rewrite ?IH.
Qed.

Lemma length_sort_by (l : list A) : length (sort_by le l) = length l.
Proof.
  induction l as [|x l IH]; [done|].
  unfold sort_by in *. simpl. by rewrite length_insert_by, IH.
Qed.
End Sorting.

Lemma insert_by_sorted (x : Q) (l : list Q) :
  StronglySorted Qle l → StronglySorted Qle (insert_by Qle_bool x l).
Proof.
  induction 1 as [|y l Hl IH Hy]; simpl.
  - repeat constructor.
  - destruct (Qle_bool x y) eqn:Hxy.
    + apply Qle_bool_iff in Hxy. constructor; [by constructor|].
      constructor; [done|].
      eapply Forall_impl; [exact Hy|]. intros z Hz. simpl in Hz. lra.
    + assert (y <= x)%Q as Hyx.
      { apply Qnot_lt_le. intros Hlt. apply Qlt_le_weak in Hlt.
        apply Qle_bool_iff in Hlt. congruence. }
      constructor; [done|].
      apply Forall_forall. intros z Hz.
      apply elem_of_insert_by in Hz as [->|Hz]; [done|].
      rewrite Forall_forall in Hy. by apply Hy.
Qed.

Lemma sort_by_sorted (l : list Q) : StronglySorted Qle (sort_by Qle_bool l).
Proof.
  induction l as [|x l IH]; [constructor|].
  unfold sort_by in *. simpl. by apply insert_by_sorted.
Qed.

Lemma sorted_nth_le (l : list Q) (i j : nat) :
  StronglySorted Qle l → (i ≤ j < length l)%nat →
  (nth i l 0 <= nth j l 0)%Q.
Proof.
  intros Hl. revert i j. induction Hl as [|x l Hl IH Hx]; intros i j Hij.
  - simpl in Hij. lia.
  - destruct i as [|i], j as [|j]; simpl in *; try lia.
    + lra.
    + rewrite Forall_forall in Hx. apply Hx.
      apply list_elem_of_In, nth_In. lia.
    + apply IH. lia.
Qed.

Lemma Qsum_lower (lo : Q) (xs : list Q) :
  (∀ x, x ∈ xs → (lo <= x)%Q) →
  (inject_Z (Z.of_nat (length xs)) * lo <= Qsum xs)%Q.
Proof.
  induction xs as [|x xs IH]; intros Hlo.
  - change (0 * lo <= 0)%Q. lra.
  - assert (lo <= x)%Q by (apply Hlo; left).
    assert (inject_Z (Z.of_nat (length xs)) * lo <= Qsum xs)%Q as IH'
      by (apply IH; intros y Hy; apply Hlo; by right).
    change (Qsum (x :: xs)) with (x + Qsum xs)%Q.
    replace (Z.of_nat (length (x :: xs))) with (Z.of_nat (length xs) + 1)
      by (simpl; lia).
    rewrite inject_Z_plus. change (inject_Z 1) with 1%Q. nra.
Qed.

Lemma Qsum_upper (hi : Q) (xs : list Q) :
  (∀ x, x ∈ xs → (x <= hi)%Q) →
  (Qsum xs <= inject_Z (Z.of_nat (length xs)) * hi)%Q.
Proof.
  induction xs as [|x xs IH]; intros Hhi.
  - change (0 <= 0 * hi)%Q. lra.
  - assert (x <= hi)%Q by (apply Hhi; left).
    assert (Qsum xs <= inject_Z (Z.of_nat (length xs)) * hi)%Q as IH'
      by (apply IH; intros y Hy; apply Hhi; by right).
    change (Qsum (x :: xs)) with (x + Qsum xs)%Q.
    replace (Z.of_nat (length (x :: xs))) with (Z.of_nat (length xs) + 1)
      by (simpl; lia).
    rewrite inject_Z_plus. change (inject_Z 1) with 1%Q. nra.
Qed.

Lemma mean_value_bounds (lo hi : Q) (xs : list Q) :
  xs ≠ [] →
  (∀ x, x ∈ xs → (lo <= x <= hi)%Q) →
  (lo <= mean_value xs <= hi)%Q.
Proof.
  intros Hne Hx. unfold mean_value.
  assert (0 < inject_Z (Z.of_nat (length xs)))%Q as Hn.
  { change 0%Q with (inject_Z 0). rewrite <- Zlt_Qlt.
    destruct xs; [done | simpl; lia]. }
  split.
  - apply Qle_shift_div_l; [done|].
    rewrite Qmult_comm. apply Qsum_lower. intros x Hin. by apply Hx.
  - apply Qle_shift_div_r; [done|].
    rewrite Qmult_comm. apply Qsum_upper. intros x Hin. by apply Hx.
Qed.

(** At a whole virtual index the percentile is the sorted value there. *)
Lemma percentile_linear_at (q : Q) (xs : list Q) (k : nat) :
  (inject_Z (Z.of_nat (length xs - 1)) * q / 100 == inject_Z (Z.of_nat k))%Q →
  (percentile_linear q xs == nth k (sort_by Qle_bool xs) 0)%Q.
Proof.
  intros Hvi. unfold percentile_linear. cbv zeta.
  set (vi := (inject_Z (Z.of_nat (length xs - 1)) * q / 100)%Q) in *.
  assert (Hfloor : Qfloor vi = Z.of_nat k).
  { rewrite (Qfloor_comp _ _ Hvi). apply Qfloor_Z. }
  rewrite Hfloor, Nat2Z.id.
  assert (Hgamma : (vi - inject_Z (Z.of_nat k) == 0)%Q) by (rewrite Hvi; ring).
  rewrite Hgamma. ring.
Qed.


(** The parts of a virtual index: its floor is a position, and the rest is
    a weight in [0, 1). *)
Lemma virtual_index_parts (v : Q) (m : nat) :
  (0 <= v <= inject_Z (Z.of_nat m))%Q →
  let lo := Z.to_nat (Qfloor v) in
  (lo ≤ m)%nat
  ∧ (0 <= v - inject_Z (Z.of_nat lo))%Q
  ∧ (v - inject_Z (Z.of_nat lo) < 1)%Q.
Proof.
  intros [H0 Hm] lo.
  assert (Hfloor0 : 0 ≤ Qfloor v).
  { change 0 with (Qfloor 0). by apply Qfloor_resp_le. }
  assert (Hfloorm : Qfloor v ≤ Z.of_nat m).
  { rewrite <- (Qfloor_Z (Z.of_nat m)). by apply Qfloor_resp_le. }
  assert (Hlo : Z.of_nat lo = Qfloor v) by (unfold lo; lia).
  rewrite Hlo.
  pose proof (Qfloor_le v) as Hle. pose proof (Qlt_floor v) as Hlt.
  rewrite inject_Z_plus in Hlt. change (inject_Z 1) with 1%Q in Hlt.
  repeat split; [lia | lra | lra].
Qed.

Lemma virtual_index_mono (c q1 q2 : Q) :
  (0 <= c)%Q → (q1 <= q2)%Q → (c * q1 / 100 <= c * q2 / 100)%Q.
Proof.
  intros Hc Hq. unfold Qdiv. apply Qmult_le_compat_r; [|done].
  rewrite (Qmult_comm c q1), (Qmult_comm c q2). by apply Qmult_le_compat_r.
Qed.

Lemma percentile_linear_mono (xs : list Q) (q1 q2 : Q) :
  xs ≠ [] →
  (0 <= q1)%Q → (q1 <= q2)%Q → (q2 <= 100)%Q →
  (percentile_linear q1 xs <= percentile_linear q2 xs)%Q.
Proof.
  intros Hne H0 H12 H100.
  pose proof (sort_by_sorted xs) as Hsorted.
  pose proof (length_sort_by Qle_bool xs) as Hlen.
  unfold percentile_linear. cbv zeta.
  set (s := sort_by Qle_bool xs) in *.
  set (m := (length xs - 1)%nat).
  assert (Hm : (m < length s)%nat).
  { unfold m. rewrite Hlen. destruct xs; [done | simpl; lia]. }
  assert (Hm0 : (0 <= inject_Z (Z.of_nat m))%Q).
  { change 0%Q with (inject_Z 0). rewrite <- Zle_Qle. lia. }
  set (v1 := (inject_Z (Z.of_nat m) * q1 / 100)%Q).
  set (v2 := (inject_Z (Z.of_nat m) * q2 / 100)%Q).
  assert (Hv1 : (0 <= v1)%Q).
  { setoid_replace 0%Q with (inject_Z (Z.of_nat m) * 0 / 100)%Q
      using relation Qeq by field.
    by apply virtual_index_mono. }
  assert (Hv12 : (v1 <= v2)%Q) by (by apply virtual_index_mono).
  assert (Hv2 : (v2 <= inject_Z (Z.of_nat m))%Q).
  { setoid_replace (inject_Z (Z.of_nat m))
      with (inject_Z (Z.of_nat m) * 100 / 100)%Q using relation Qeq by field.
    by apply virtual_index_mono. }
  destruct (virtual_index_parts v1 m) as (Hlo1 & Hg1 & Hg1'); [lra|].
  destruct (virtual_index_parts v2 m) as (Hlo2 & Hg2 & Hg2'); [lra|].
  pose proof (Qfloor_resp_le _ _ Hv12) as Hfloor.
  assert (Hfloor1 : 0 ≤ Qfloor v1).
  { change 0 with (Qfloor 0). by apply Qfloor_resp_le. }
  set (lo1 := Z.to_nat (Qfloor v1)) in *.
  set (lo2 := Z.to_nat (Qfloor v2)) in *.
  assert (Hlo12 : (lo1 ≤ lo2)%nat) by (unfold lo1, lo2; lia).
  set (hi1 := Nat.min (lo1 + 1) m). set (hi2 := Nat.min (lo2 + 1) m).
  set (g1 := (v1 - inject_Z (Z.of_nat lo1))%Q) in *.
  set (g2 := (v2 - inject_Z (Z.of_nat lo2))%Q) in *.
  assert (Hs1 : (nth lo1 s 0 <= nth hi1 s 0)%Q)
    by (apply sorted_nth_le; [done | unfold hi1; lia]).
  assert (Hs2 : (nth lo2 s 0 <= nth hi2 s 0)%Q)
    by (apply sorted_nth_le; [done | unfold hi2; lia]).
  destruct (decide (lo1 = lo2)) as [Heq|Hneq].
  - assert (Hg12 : (g1 <= g2)%Q) by (unfold g1, g2; rewrite Heq; lra).
    unfold hi1, hi2. rewrite Heq in *. fold hi2.
    set (a := nth lo2 s 0%Q) in *. set (b := nth hi2 s 0%Q) in *. nra.
  - assert (Hs12 : (nth hi1 s 0 <= nth lo2 s 0)%Q)
      by (apply sorted_nth_le; [done | unfold hi1; lia]).
    set (a1 := nth lo1 s 0%Q) in *. set (b1 := nth hi1 s 0%Q) in *.
    set (a2 := nth lo2 s 0%Q) in *. set (b2 := nth hi2 s 0%Q) in *.
    nra.
Qed.

Lemma sorted_bounds (xs : list Q) (x : Q) :
  x ∈ xs →
  (nth 0 (sort_by Qle_bool xs) 0 <= x
   <= nth (length xs - 1) (sort_by Qle_bool xs) 0)%Q.
Proof.
  intros Hx. apply (elem_of_sort_by Qle_bool) in Hx.
  apply list_elem_of_In, (In_nth _ _ 0%Q) in Hx as (i & Hi & <-).
  pose proof (sort_by_sorted xs) as Hs.
  rewrite length_sort_by in Hi.
  split; apply sorted_nth_le; try done; rewrite length_sort_by; lia.
Qed.


(** The two percentages at which [compute_stats] asks for percentiles. *)
Lemma percent_quantiles (percent : Q) :
  (0 <= percent)%Q → (percent <= 100)%Q →
  (0 <= (100 - percent) / 2)%Q
  ∧ ((100 - percent) / 2 <= 50 + percent / 2)%Q
  ∧ (50 + percent / 2 <= 100)%Q.
Proof.
  intros H0 H100.
  assert (E1 : ((100 - percent) / 2 == (100 - percent) * (1 # 2))%Q) by field.
  assert (E2 : (percent / 2 == percent * (1 # 2))%Q) by field.
  rewrite E1, E2. repeat split; lra.
Qed.

(** In exact arithmetic the two percentiles that [compute_stats] asks for
    are in order, so that the two bands of a unit add up to a width that
    is not negative, and for [percent = 100] they are the least and the
    greatest value with the mean between them.  This is a fact about
    rationals: a mean computed in floating point need not lie between the
    least and the greatest value, and nothing here is said of the bands
    that the code returns. *)
Lemma percentile_band (percent : Q) (xs : list Q) :
  xs ≠ [] →
  (0 <= percent)%Q → (percent <= 100)%Q →
  (0 <= (mean_value xs - percentile_linear ((100 - percent) / 2) xs)
        + (percentile_linear (50 + percent / 2) xs - mean_value xs))%Q
  ∧ ((percent == 100)%Q →
     (0 <= mean_value xs - percentile_linear ((100 - percent) / 2) xs)%Q
     ∧ (0 <= percentile_linear (50 + percent / 2) xs - mean_value xs)%Q).
Proof.
  intros Hne H0 H100. split.
  - pose proof (percentile_linear_mono xs ((100 - percent) / 2)
                  (50 + percent / 2) Hne) as Hmono.
    destruct (percent_quantiles percent H0 H100) as (Hq0 & Hq12 & Hq100).
    specialize (Hmono Hq0 Hq12 Hq100). lra.
  - intros Hp.
    pose proof (mean_value_bounds _ _ xs Hne (sorted_bounds xs)) as [Hlo Hhi].
    assert (Hq0 : (percentile_linear ((100 - percent) / 2) xs
                   == nth 0 (sort_by Qle_bool xs) 0)%Q).
    { apply (percentile_linear_at _ xs 0).
      change (inject_Z (Z.of_nat 0)) with 0%Q. rewrite Hp. field. }
    assert (Hq100 : (percentile_linear (50 + percent / 2) xs
                     == nth (length xs - 1) (sort_by Qle_bool xs) 0)%Q).
    { apply (percentile_linear_at _ xs (length xs - 1)). rewrite Hp. field. }
    rewrite Hq0, Hq100. lra.
Qed.

Lemma nd_getitem_layer (s : ndarray) (L U k : nat) :
  nd_shape s = [L; U] → (k < L)%nat →
  nd_getitem s (Z.of_nat k) = Ok (mk_ndarray [U] (nd_slice s k)).
Proof.
  intros Hs Hk. unfold nd_getitem. rewrite Hs.
  by rewrite py_position_nat.
Qed.

Lemma sum_list_vectors (vs : list ndarray) (U : nat) :
  Forall (λ v, nd_shape v = [U]) vs →
  sum_list ((λ b, hd 0%nat (nd_shape b)) <$> (np_atleast_2d <$> vs)) = length vs.
Proof.
  induction 1 as [|v vs Hv _ IH]; [done|].
  rewrite !fmap_cons. simpl. rewrite IH.
  unfold np_atleast_2d. by rewrite Hv.
Qed.

Lemma nd_column_nonempty (mat : ndarray) (n : nat) (rest : list nat) (j : nat) :
  nd_shape mat = n :: rest → n ≠ 0%nat → nd_column mat j ≠ [].
Proof.
  intros Hshape Hn. unfold nd_column. rewrite Hshape. simpl.
  destruct n; [done|]. discriminate.
Qed.

(** A reduction along axis 0 of a matrix with rows reduces every column. *)
Lemma nd_reduce_axis0_columns (f : list Q → result Q) (g : list Q → Q)
    (mat : ndarray) (n : nat) (rest : list nat) :
  (∀ xs, xs ≠ [] → f xs = Ok (g xs)) →
  nd_shape mat = n :: rest → n ≠ 0%nat →
  nd_reduce_axis0 f mat = Ok (mk_ndarray rest (g <$> nd_columns mat)).
Proof.
  intros Hf Hshape Hn. unfold nd_reduce_axis0, nd_columns. rewrite Hshape.
  simpl tail.
  rewrite (map_result_Ok _ (g ∘ nd_column mat)).
  - simpl. by rewrite list_fmap_compose.
  - intros j _. simpl. apply Hf. by eapply nd_column_nonempty.
Qed.

Lemma mean_of_value (xs : list Q) : xs ≠ [] → mean_of xs = Ok (mean_value xs).
Proof. by destruct xs. Qed.

Lemma percentile_of_linear (q : Q) (xs : list Q) :
  Qle_bool 0 q && Qle_bool q 100 = true →
  xs ≠ [] → percentile_of q xs = Ok (percentile_linear q xs).
Proof. intros Hq Hne. unfold percentile_of. rewrite Hq. by destruct xs. Qed.

Lemma zip_with_fmap_same {A B C D : Type} (h : B → C → D) (f : A → B)
    (g : A → C) (l : list A) :
  zip_with h (f <$> l) (g <$> l) = (λ x, h (f x) (g x)) <$> l.
Proof.
  induction l as [|x l IH]; [done|].
  rewrite !fmap_cons. simpl. by f_equal.
Qed.


(** Reordering a vector by valid positions gathers its entries. *)
Lemma nd_permute_gather (a : ndarray) (u : nat) (idx : list nat) :
  nd_shape a = [u] →
  (∀ i, i ∈ idx → (i < length (nd_data a))%nat) →
  nd_permute a idx
  = Ok (mk_ndarray [length idx] ((λ i, nth i (nd_data a) 0%Q) <$> idx)).
Proof.
  intros Hshape Hidx. unfold nd_permute. rewrite Hshape.
  rewrite (map_result_Ok _ (λ i, nth i (nd_data a) 0%Q)); [done|].
  intros i Hi.
  destruct (lookup_lt_is_Some_2 (nd_data a) i) as [x Hx]; [by apply Hidx|].
  rewrite (nth_lookup_Some _ _ _ _ Hx). by apply py_getitem_nat.
Qed.

(** A loop over [range(n)] that keeps an invariant indexed by the number of
    rounds done. *)
Lemma for_each_seq_invariant {S : Type} (P : nat → S → Prop)
    (body : S → nat → result S) (n : nat) (s0 : S) :
  P 0%nat s0 →
  (∀ k s, (k < n)%nat → P k s → ∃ s', body s k = Ok s' ∧ P (Datatypes.S k) s') →
  ∃ s', for_each (seq 0 n) body s0 = Ok s' ∧ P n s'.
Proof.
  intros H0 Hstep. induction n as [|n IH].
  - by exists s0.
  - destruct IH as (s & Hs & HP); [intros k s Hk; apply Hstep; lia|].
    destruct (Hstep n s) as (s' & Hs' & HP'); [lia | done |].
    exists s'. split; [|done].
    rewrite seq_S, for_each_app, Hs. simpl. by rewrite Hs'.
Qed.


Section StatsProperties.
Variables (states : list ndarray) (L U : nat).
Hypothesis states_shape : Forall (λ s, nd_shape s = [L; U]) states.

Lemma layer_slices (k : nat) :
  (k < L)%nat →
  map_result (λ state, nd_getitem state (Z.of_nat k)) states
  = Ok ((λ s, mk_ndarray [U] (nd_slice s k)) <$> states).
Proof.
  intros Hk. apply map_result_Ok. intros s Hs.
  rewrite Forall_forall in states_shape.
  by apply (nd_getitem_layer s L U k (states_shape s Hs)).
Qed.

End StatsProperties.

(** For [percent = 100] the bands of the skewed values are 80 below the
    mean and 20 above it. *)
Example compute_stats_full_range :
  ∃ st band_l band_u,
    compute_stats Example.no_std Example.skewed true 100 = Ok st
    ∧ errors_l st = [mk_ndarray [1%nat] [band_l]]
    ∧ errors_u st = [mk_ndarray [1%nat] [band_u]]
    ∧ (band_l == 80)%Q ∧ (band_u == 20)%Q.
Proof.
  eexists _, _, _. split; [vm_compute; reflexivity|].
  repeat split; reflexivity.
Qed.

(** C6 as stated does not hold: for [percent = 50] and the values -100, 0,
    0, 0, 0 of one unit the mean, -20, lies below the 25th percentile, 0,
    and the lower error band is -20. *)
Lemma compute_stats_lower_band_negative :
  ∃ st band,
    compute_stats Example.no_std Example.skewed true 50 = Ok st
    ∧ errors_l st = [mk_ndarray [1%nat] [band]]
    ∧ (band == -20)%Q
    ∧ (band < 0)%Q.
Proof.
  eexists _, _. split; [vm_compute; reflexivity|].
  split; [reflexivity|]. split; reflexivity.
Qed.

(** ** The strength aggregator, the first bucket present *)

Lemma map_result_item_asarray (states : list ndarray) :
  map_result item_asarray (ItemArray <$> states) = Ok states.
Proof.
  induction states as [|s states IH]; [done|].
  rewrite fmap_cons. simpl. by rewrite IH.
Qed.

Lemma np_stack_same_shape (arrays : list ndarray) (sh : list nat) :
  arrays ≠ [] →
  Forall (λ s, nd_shape s = sh) arrays →
  np_stack arrays
  = Ok (mk_ndarray (length arrays :: sh) (concat (nd_data <$> arrays))).
Proof.
  intros Hne Hsh. destruct arrays as [|a arrays]; [done|].
  unfold np_stack. pose proof (Forall_inv Hsh) as Ha. simpl in Ha.
  rewrite decide_True; [by rewrite Ha|].
  eapply Forall_impl; [exact Hsh|]. intros b Hb. simpl in Hb. congruence.
Qed.

(** The mean of a populated bucket of states of one shape has that shape. *)
Lemma strenth_map_populated (state_shape sh : list nat) (states : list ndarray) :
  states ≠ [] →
  Forall (λ s, nd_shape s = sh) states →
  ∃ r, strenth_map state_shape np_mean_axis0 (Some (ItemArray <$> states)) = Ok r
       ∧ nd_shape r = sh.
Proof.
  intros Hne Hsh. unfold strenth_map.
  rewrite map_result_item_asarray, bind_Ok.
  rewrite (np_stack_same_shape states sh Hne Hsh), bind_Ok.
  unfold np_mean_axis0.
  rewrite (nd_reduce_axis0_columns mean_of mean_value
             (mk_ndarray (length states :: sh) (concat (nd_data <$> states)))
             (length states) sh mean_of_value eq_refl); [by eexists|].
  by destruct states.
Qed.

(** With a populated first bucket, [cal_empirical_strength] with the mean
    along axis 0 returns one array per bucket, each of the shape of a
    state, and zeros for every absent bucket. *)
Lemma cal_empirical_strength_populated_first
    (a : ndarray) (states : list ndarray)
    (rest : list (option (list ndarray))) (sh : list nat) :
  let buckets := Some (a :: states) :: rest in
  Forall (λ b, ∀ l, b = Some l → l ≠ [] ∧ Forall (λ s, nd_shape s = sh) l)
         buckets →
  ∃ out,
    cal_empirical_strength (array_buckets buckets) np_mean_axis0
    = Ok out
    ∧ length out = length buckets
    ∧ Forall (λ r, nd_shape r = sh) out
    ∧ ∀ j, buckets !! j = Some None → out !! j = Some (np_zeros sh).
Proof.
  intros buckets Hbuckets.
  assert (Ha : nd_shape a = sh).
  { pose proof (Forall_inv Hbuckets) as H0.
    destruct (H0 (a :: states) eq_refl) as [_ Hall]. by apply Forall_inv in Hall. }
  destruct (map_result_Forall2 (strenth_map sh np_mean_axis0)
              (array_buckets buckets)) as (out & Hout & Hall).
  { intros b Hb. unfold array_buckets in Hb.
    apply list_elem_of_fmap in Hb as (b' & -> & Hb').
    rewrite Forall_forall in Hbuckets. specialize (Hbuckets b' Hb').
    destruct b' as [l|]; [|by eexists].
    destruct (Hbuckets l eq_refl) as [Hne Hsh].
    destruct (strenth_map_populated sh sh l Hne Hsh) as (r & Hr & _).
    by exists r. }
  exists out.
  assert (Hshape : first_state_shape (array_buckets buckets) = Ok sh).
  { unfold buckets. rewrite <- Ha. reflexivity. }
  split; [unfold cal_empirical_strength; by rewrite Hshape, bind_Ok|].
  pose proof (Forall2_length _ _ _ Hall) as Hlen.
  unfold array_buckets in Hlen. rewrite length_fmap in Hlen.
  split; [done|]. split.
  - apply Forall_forall. intros r Hr.
    apply list_elem_of_lookup in Hr as [j Hj].
    destruct (Forall2_lookup_r _ _ _ _ _ Hall Hj) as (b & Hb & Hrun).
    unfold array_buckets in Hb. rewrite list_lookup_fmap in Hb.
    destruct (buckets !! j) as [b'|] eqn:Hb'; [|done]. simpl in Hb.
    injection Hb as <-.
    rewrite Forall_forall in Hbuckets.
    specialize (Hbuckets b' (list_elem_of_lookup_2 _ _ _ Hb')).
    destruct b' as [l|]; simpl in Hrun.
    + destruct (Hbuckets l eq_refl) as [Hne Hsh].
      destruct (strenth_map_populated sh sh l Hne Hsh) as (r' & Hr' & Hshape').
      simpl in Hr'. congruence.
    + by injection Hrun as <-.
  - intros j Hj.
    assert (Hj' : array_buckets buckets !! j = Some None)
      by (unfold array_buckets; by rewrite list_lookup_fmap, Hj).
    destruct (Forall2_lookup_l _ _ _ _ _ Hall Hj') as (r & Hr & Hrun).
    simpl in Hrun. by injection Hrun as <-.
Qed.

(** * Further properties *)


(** A loop that appends one computed value per element is a map. *)
Lemma for_each_snoc_map_result {A B : Type} (xs : list A)
    (body : list B → A → result (list B)) (g : A → result B) (acc : list B) :
  (∀ acc' x, body acc' x = (g x ≫= λ y, Ok (acc' ++ [y]))) →
  for_each xs body acc = (map_result g xs ≫= λ ys, Ok (acc ++ ys)).
Proof.
  intros Hbody. revert acc. induction xs as [|x xs IH]; intros acc; simpl.
  - by rewrite app_nil_r.
  - rewrite Hbody. destruct (g x) as [y|e]; simpl; [|done].
    rewrite IH. destruct (map_result g xs) as [ys|e]; simpl; [|done].
    by rewrite <- app_assoc.
Qed.

Lemma map_result_lookup {A B : Type} (g : A → result B) (xs : list A)
    (ys : list B) :
  map_result g xs = Ok ys ↔
  length ys = length xs ∧ ∀ k x, xs !! k = Some x → ∃ y, ys !! k = Some y ∧ g x = Ok y.
Proof.
  split.
  - intros H. split; [by eapply map_result_length|].
    apply map_result_inv in H. intros k x Hx.
    destruct (Forall2_lookup_l _ _ _ _ _ H Hx) as (y & Hy & Hg). eauto.
  - revert ys. induction xs as [|x xs IH]; intros ys [Hlen Hall].
    + destruct ys; [done | discriminate].
    + destruct ys as [|y ys]; [discriminate|]. simpl.
      destruct (Hall 0%nat x eq_refl) as (y' & [= <-] & ->). simpl.
      rewrite (IH ys); [done|]. split; [simpl in Hlen; lia|].
      intros k x' Hx'. apply (Hall (S k) x' Hx').
Qed.

Lemma cal_diff_map_result (arrays : list ndarray) :
  cal_diff arrays = map_result (diff_at arrays) (seq 0 (length arrays - 1)).
Proof.
  unfold cal_diff.
  replace (py_range (Z.of_nat (length arrays) - 1))
    with (seq 0 (length arrays - 1)) by (unfold py_range; f_equal; lia).
  rewrite (for_each_snoc_map_result _ _ (diff_at arrays)).
  - by destruct (map_result _ _).
  - intros acc i. unfold diff_at.
    destruct (py_getitem arrays (Z.of_nat i + 1)); simpl; [|done].
    destruct (py_getitem arrays (Z.of_nat i)); simpl; [|done].
    by destruct (nd_sub _ _).
Qed.

(** X1. On arrays of one shape [cal_diff] returns one difference per pair
    of neighbours, in their order, each the array after the pair's first
    minus that first: one array fewer than it was given, and none for a
    list of no or one array. *)
Theorem cal_diff_neighbours (arrays : list ndarray) (sh : list nat) :
  Forall (λ a, nd_shape a = sh) arrays →
  ∃ ds,
    cal_diff arrays = Ok ds
    ∧ length ds = (length arrays - 1)%nat
    ∧ (∀ k a b, arrays !! k = Some a → arrays !! S k = Some b →
                ∃ d, ds !! k = Some d ∧ nd_sub b a = Ok d)
    ∧ ((length arrays ≤ 1)%nat → ds = []).
Proof.
  intros Hshape.
  destruct (cal_diff_same_shape arrays sh Hshape) as (ds & Hrun & Hlen & Hall).
  exists ds. split; [exact Hrun|]. split; [exact Hlen|]. split.
  - intros k a b Ha Hb. destruct (Hall k a b Ha Hb) as (d & Hsub & Hd). eauto.
  - intros Hshort. apply length_zero_iff_nil. lia.
Qed.

Lemma cal_diff_neighbours_witness :
  ∃ ds,
    cal_diff Sample.states3 = Ok ds
    ∧ length ds = 2%nat
    ∧ ∀ k a b, Sample.states3 !! k = Some a → Sample.states3 !! S k = Some b →
               ∃ d, ds !! k = Some d ∧ nd_sub b a = Ok d.
Proof.
  destruct (cal_diff_neighbours Sample.states3 [2; 2]%nat)
    as (ds & Hrun & Hlen & Hall & _); [repeat constructor|].
  exists ds. split; [exact Hrun|]. split; [exact Hlen | exact Hall].
Defined.

(** ** The record fetcher, further properties *)

Lemma fetch_field_length (records : list record) (flags : list bool) (i : nat)
    (name : string) (out : list ndarray) :
  fetch_field records flags i name = Ok out → length out = length records.
Proof.
  unfold fetch_field. intros H.
  apply bind_Ok_inv in H as (s & Hs & H).
  apply map_result_length in Hs.
  apply bind_Ok_inv in H as (flag & _ & H).
  destruct flag; [|by injection H as <-].
  apply bind_Ok_inv in H as (s0 & Hs0 & H).
  apply bind_Ok_inv in H as (ds & Hds & [= <-]).
  rewrite cal_diff_map_result in Hds.
  apply map_result_length in Hds. rewrite length_seq in Hds.
  rename Hds into Hlen.
  change 0 with (Z.of_nat 0) in Hs0.
  apply py_getitem_nat_inv, lookup_lt_Some in Hs0.
  simpl. rewrite Hlen. lia.
Qed.

(** The loop over the requested fields returns one sequence per field. *)
Lemma fetch_fields_inv (records : list record) (flags : list bool)
    (names : list string) (states : list (list ndarray)) :
  for_each (enumerate names)
    (λ (states : list (list ndarray)) '(i, field),
       state ← fetch_field records flags i field;
       Ok (states ++ [state])) []
  = Ok states →
  length states = length names
  ∧ Forall (λ state, length state = length records) states.
Proof.
  rewrite (for_each_snoc_map_result _ _
             (λ p, fetch_field records flags p.1 p.2)).
  - intros H. apply bind_Ok_inv in H as (ys & Hys & [= <-]). simpl.
    split; [by rewrite (map_result_length _ _ _ Hys), enumerate_length|].
    apply map_result_inv in Hys.
    apply Forall_forall. intros state Hstate.
    apply list_elem_of_lookup in Hstate as [k Hk].
    destruct (Forall2_lookup_r _ _ _ _ _ Hys Hk) as ([i name] & _ & Hrun).
    by eapply fetch_field_length.
  - intros acc [i name]. simpl.
    by destruct (fetch_field records flags i name).
Qed.

(** What a call for one field name returns: the word ids of the records
    and one state per record. *)
Lemma fetch_state_of_eval_one_inv (db : database) (eval_id name : string)
    (diff : diff_arg) (word_ids : list Z) (f : fetched) :
  fetch_state_of_eval db eval_id (FieldName name) diff = Ok (word_ids, f) →
  word_ids = word_id <$> query_evaluation_records db eval_id
  ∧ ∃ states, f = OneField states
              ∧ length states = length (query_evaluation_records db eval_id).
Proof.
  unfold fetch_state_of_eval. intros H.
  apply bind_Ok_inv in H as ([names flags] & Hnorm & H).
  apply bind_Ok_inv in H as (states & Hstates & H).
  assert (names = [name]) as -> by (destruct diff; by injection Hnorm as <- _).
  apply fetch_fields_inv in Hstates as [Hlen Hall].
  destruct states as [|state [|? ?]]; try discriminate.
  injection H as <- <-. split; [done|].
  exists state. split; [done|]. by apply Forall_inv in Hall.
Qed.

Lemma field_states_lookup (records : list record) (name : string)
    (s : list ndarray) :
  field_states records name = Ok s ↔
  length s = length records
  ∧ ∀ k r, records !! k = Some r → is_Some (s !! k) ∧ s !! k = rec_fields r !! name.
Proof.
  unfold field_states. rewrite map_result_lookup. split; intros [Hlen Hall].
  - split; [done|]. intros k r Hr.
    destruct (Hall k r Hr) as (a & Ha & Hget). unfold rec_getitem in Hget.
    destruct (rec_fields r !! name) as [a'|]; [|discriminate].
    injection Hget as ->. by rewrite Ha.
  - split; [done|]. intros k r Hr.
    destruct (Hall k r Hr) as [[a Ha] Heq].
    exists a. split; [done|]. unfold rec_getitem. by rewrite <- Heq, Ha.
Qed.

Lemma field_states_present (records : list record) (name : string) :
  (∀ r, r ∈ records → is_Some (rec_fields r !! name)) →
  ∃ s, field_states records name = Ok s.
Proof.
  intros Hall.
  destruct (map_result_Forall2 (λ r, rec_getitem r name) records) as (s & Hs & _).
  - intros r Hr. destruct (Hall r Hr) as [a Ha].
    exists a. unfold rec_getitem. by rewrite Ha.
  - by exists s.
Qed.

(** X2. Fetching one field without differencing returns the word ids of the
    records and the states exactly as they are stored, one per record in
    the order of the records; an evaluation without records gives two
    empty lists. *)
Theorem fetch_state_of_eval_stored (db : database) (eval_id name : string) :
  let records := query_evaluation_records db eval_id in
  (∀ r, r ∈ records → is_Some (rec_fields r !! name)) →
  ∃ states,
    fetch_state_of_eval db eval_id (FieldName name) (DiffFlag false)
    = Ok (word_id <$> records, OneField states)
    ∧ length states = length records
    ∧ (∀ k r, records !! k = Some r → states !! k = rec_fields r !! name)
    ∧ (records = [] → states = []).
Proof.
  intros records Hall.
  destruct (field_states_present records name Hall) as [s Hs].
  exists s. pose proof Hs as Hs'. apply field_states_lookup in Hs' as [Hlen Hlookup].
  split; [|split; [done|split]].
  - unfold fetch_state_of_eval. fold records. simpl.
    unfold fetch_field. rewrite Hs. done.
  - intros k r Hr. by apply Hlookup.
  - intros Hnil. rewrite Hnil in Hlen. by destruct s.
Qed.

Lemma fetch_state_of_eval_stored_witness :
  ∃ states,
    fetch_state_of_eval Example.db "eval0" (FieldName "state_c") (DiffFlag false)
    = Ok ([5; 5; 7], OneField states)
    ∧ length states = 3%nat.
Proof.
  destruct (fetch_state_of_eval_stored Example.db "eval0" "state_c")
    as (states & Hrun & Hlen & _).
  - intros r Hr. simpl in Hr.
    repeat (apply elem_of_cons in Hr as [->|Hr]; [by eexists|]).
    by apply elem_of_nil in Hr.
  - exists states. split; [exact Hrun | exact Hlen].
Defined.

Lemma map_result_raise {A B : Type} (g : A → result B) (xs : list A) (e : exn) :
  (∀ x e', x ∈ xs → g x = Raise e' → e' = e) →
  (∃ x, x ∈ xs ∧ g x = Raise e) →
  map_result g xs = Raise e.
Proof.
  intros Hsame (x & Hx & Hraise).
  induction xs as [|y xs IH]; [by apply elem_of_nil in Hx|].
  simpl. destruct (g y) as [b|e'] eqn:Hy.
  - simpl. rewrite IH; [done | |].
    + intros z e' Hz. apply Hsame. by right.
    + apply elem_of_cons in Hx as [->|Hx]; [congruence | done].
  - simpl. f_equal. eapply Hsame; [left | exact Hy].
Qed.

(** X3. The ways [fetch_state_of_eval] raises: a list of names with a single
    flag fails the assertion; a field that a record does not store raises
    [KeyError] with the name of the field; differencing the states of an
    evaluation without records raises [IndexError]. *)
Theorem fetch_state_of_eval_raises (db : database) (eval_id name : string)
    (names : list string) (flag : bool) :
  let records := query_evaluation_records db eval_id in
  fetch_state_of_eval db eval_id (FieldNames names) (DiffFlag flag)
  = Raise (AssertionError "")
  ∧ ((∃ r, r ∈ records ∧ rec_fields r !! name = None) →
     fetch_state_of_eval db eval_id (FieldName name) (DiffFlag flag)
     = Raise (KeyError name))
  ∧ (records = [] →
     fetch_state_of_eval db eval_id (FieldName name) (DiffFlag true)
     = Raise IndexError).
Proof.
  intros records. split; [done|]. split.
  - intros (r & Hr & Hnone).
    unfold fetch_state_of_eval. fold records. simpl.
    unfold fetch_field, field_states.
    rewrite (map_result_raise _ records (KeyError name)); [done | |].
    + intros x e' _. unfold rec_getitem.
      destruct (rec_fields x !! name); [discriminate | by intros [= <-]].
    + exists r. split; [done|]. unfold rec_getitem. by rewrite Hnone.
  - intros Hnil. unfold fetch_state_of_eval. fold records. by rewrite Hnil.
Qed.

Lemma fetch_state_of_eval_raises_witness :
  fetch_state_of_eval Example.db "eval0" (FieldName "state_h") (DiffFlag true)
  = Raise (KeyError "state_h")
  ∧ fetch_state_of_eval Sample.no_evals "eval0" (FieldName "state_c") (DiffFlag true)
    = Raise IndexError.
Proof.
  split.
  - apply (fetch_state_of_eval_raises Example.db "eval0" "state_h" [] true).
    eexists. split; [left | reflexivity].
  - by apply (fetch_state_of_eval_raises Sample.no_evals "eval0" "state_c" []
                true).
Defined.

Lemma fetch_states_loop (db : database) (field_name : field_arg) (diff : diff_arg)
    (evals : list eval) (ws : list Z) (ss : list state_item) :
  for_each evals
    (λ '(word_ids, states) eval,
       '(word_ids_, states_) ←
         fetch_state_of_eval db (eval__id eval) field_name diff;
       Ok (word_ids ++ word_ids_, states ++ fetched_items states_))
    (ws, ss)
  = (parts ← map_result
       (λ e, fetch_state_of_eval db (eval__id e) field_name diff) evals;
     Ok (ws ++ concat (fst <$> parts),
         ss ++ concat ((λ p, fetched_items (snd p)) <$> parts))).
Proof.
  revert ws ss. induction evals as [|e evals IH]; intros ws ss.
  - simpl. by rewrite !app_nil_r.
  - simpl.
    destruct (fetch_state_of_eval db (eval__id e) field_name diff)
      as [[w f]|err]; [|done].
    simpl. rewrite IH.
    destruct (map_result _ evals) as [parts|err]; [|done].
    simpl. by rewrite !app_assoc.
Qed.

(** X5. [fetch_states] returns when there is an evaluation and every
    evaluation can be fetched, and then the word ids and the states are the
    concatenations, in the order of the evaluations, of what
    [fetch_state_of_eval] returns for each of them. *)
Theorem fetch_states_concat (db : database) (data_name model_name : string)
    (field_name : field_arg) (diff : diff_arg)
    (word_ids : list Z) (states : list state_item) :
  fetch_states db data_name model_name field_name diff = Ok (word_ids, states)
  ↔ query_evals db data_name model_name ≠ []
    ∧ ∃ parts,
        map_result (λ e, fetch_state_of_eval db (eval__id e) field_name diff)
          (query_evals db data_name model_name) = Ok parts
        ∧ word_ids = concat (fst <$> parts)
        ∧ states = concat ((λ p, fetched_items (snd p)) <$> parts).
Proof.
  unfold fetch_states. case_decide as Hlen.
  - split; [discriminate|]. intros [Hne _].
    apply length_zero_iff_nil in Hlen. done.
  - rewrite fetch_states_loop. split.
    + intros H. split; [by intros Hnil; rewrite Hnil in Hlen|].
      destruct (map_result _ _) as [parts|err]; [|discriminate].
      simpl in H. injection H as <- <-. by exists parts.
    + intros (_ & parts & -> & -> & ->). done.
Qed.

Lemma fetch_states_concat_witness :
  query_evals Sample.db "ptb" "GRU" ≠ []
  ∧ ∃ parts,
      map_result (λ e, fetch_state_of_eval Sample.db (eval__id e)
                         (FieldName "state_c") (DiffFlag false))
        (query_evals Sample.db "ptb" "GRU") = Ok parts
      ∧ [0; 2; 1] = concat (fst <$> parts)
      ∧ ItemArray <$> Sample.states3
        = concat ((λ p, fetched_items (snd p)) <$> parts).
Proof.
  apply (proj1 (fetch_states_concat Sample.db "ptb" "GRU" (FieldName "state_c")
                  (DiffFlag false) [0; 2; 1] (ItemArray <$> Sample.states3))).
  vm_compute. reflexivity.
Defined.

Lemma length_concat_same {A : Type} (ls : list (list A)) (n : nat) :
  Forall (λ l, length l = n) ls → length (concat ls) = (length ls * n)%nat.
Proof.
  induction 1 as [|l ls Hl _ IH]; [done|].
  simpl. rewrite length_app, IH, Hl. lia.
Qed.

Lemma fetch_states_inv (db : database) (data_name model_name : string)
    (field_name : field_arg) (diff : diff_arg)
    (word_ids : list Z) (states : list state_item) :
  fetch_states db data_name model_name field_name diff = Ok (word_ids, states) →
  ∃ parts,
    map_result (λ e, fetch_state_of_eval db (eval__id e) field_name diff)
      (query_evals db data_name model_name) = Ok parts
    ∧ word_ids = concat (fst <$> parts)
    ∧ states = concat ((λ p, fetched_items (snd p)) <$> parts).
Proof.
  unfold fetch_states. case_decide as Hlen; [discriminate|].
  rewrite fetch_states_loop. intros H.
  destruct (map_result _ _) as [parts|err]; [|discriminate].
  simpl in H. injection H as <- <-. by exists parts.
Qed.

Lemma elem_of_concat {A : Type} (x : A) (ls : list (list A)) :
  x ∈ concat ls ↔ ∃ l, x ∈ l ∧ l ∈ ls.
Proof.
  induction ls as [|l ls IH]; simpl.
  - split; [by intros ?%elem_of_nil | by intros (l & _ & ?%elem_of_nil)].
  - rewrite elem_of_app, IH. split.
    + intros [Hx|(l' & Hx & Hl')]; [exists l; split; [done | left]|].
      exists l'. split; [done | by right].
    + intros (l' & Hx & [->|Hl']%elem_of_cons); [by left|].
      right. by exists l'.
Qed.

(** X6. For one field name the two lists of [fetch_states] are aligned: the
    word ids are those of the records of the evaluations, in order, every
    element of the states is one state array, and there is one state per
    word id. *)
Theorem fetch_states_one_field_aligned (db : database)
    (data_name model_name name : string) (diff : diff_arg)
    (word_ids : list Z) (states : list state_item) :
  fetch_states db data_name model_name (FieldName name) diff
  = Ok (word_ids, states) →
  word_ids
  = concat ((λ e, word_id <$> query_evaluation_records db (eval__id e))
              <$> query_evals db data_name model_name)
  ∧ length states = length word_ids
  ∧ ∃ arrays, states = ItemArray <$> arrays.
Proof.
  intros H. apply fetch_states_inv in H as (parts & Hparts & -> & ->).
  apply map_result_inv in Hparts.
  induction Hparts as [|e [w f] evals parts He _ IH].
  - split; [done|]. split; [done|]. by exists [].
  - destruct IH as (IHw & IHlen & arrays & IHs).
    apply fetch_state_of_eval_one_inv in He as (-> & s & -> & Hlen).
    rewrite !fmap_cons. cbn [concat fst snd fetched_items].
    split; [f_equal; exact IHw|]. split.
    + rewrite !length_app, IHlen, !length_fmap. lia.
    + exists (s ++ arrays). by rewrite fmap_app, IHs.
Qed.

Lemma fetch_states_one_field_aligned_witness :
  length (ItemArray <$> Sample.states3) = length [0; 2; 1].
Proof.
  destruct (fetch_states_one_field_aligned Sample.db "ptb" "GRU" "state_c"
              (DiffFlag false) [0; 2; 1] (ItemArray <$> Sample.states3))
    as (_ & Hlen & _); [vm_compute; reflexivity | exact Hlen].
Defined.

(** X7. For a list of field names that is not of length one, every
    evaluation contributes one element per field to the states, each the
    whole sequence of that field: the states have
    [len(field_name) * len(evals)] elements, whatever the number of word
    ids. *)
Theorem fetch_states_many_fields (db : database)
    (data_name model_name : string) (names : list string) (flags : list bool)
    (word_ids : list Z) (states : list state_item) :
  length names ≠ 1%nat →
  fetch_states db data_name model_name (FieldNames names) (DiffFlags flags)
  = Ok (word_ids, states) →
  length states
  = (length (query_evals db data_name model_name) * length names)%nat
  ∧ Forall (λ item, ∃ s, item = ItemList s) states.
Proof.
  intros Hnames H.
  apply fetch_states_inv in H as (parts & Hparts & -> & ->).
  pose proof (map_result_length _ _ _ Hparts) as Hlen.
  apply map_result_inv in Hparts.
  assert (Forall (λ p, ∃ ss, snd p = ManyFields ss ∧ length ss = length names)
            parts) as Hall.
  { apply Forall_forall. intros [w f] Hp.
    apply list_elem_of_lookup in Hp as [k Hk].
    destruct (Forall2_lookup_r _ _ _ _ _ Hparts Hk) as (e & _ & He).
    unfold fetch_state_of_eval in He. simpl in He.
    apply bind_Ok_inv in He as (ss & Hss & He).
    apply fetch_fields_inv in Hss as [Hss _].
    exists ss. split; [|done].
    destruct ss as [|s [|? ?]]; simpl in *; by injection He as _ <-. }
  split.
  - rewrite <- Hlen.
    rewrite (length_concat_same _ (length names)); [by rewrite length_fmap|].
    apply Forall_fmap. eapply Forall_impl; [exact Hall|].
    intros [w f] (ss & Hf & Hss). simpl in *. subst f. simpl.
    by rewrite length_fmap.
  - apply Forall_forall. intros item Hitem.
    apply elem_of_concat in Hitem as (l & Hitem & Hl).
    apply list_elem_of_fmap in Hl as ([w f] & -> & Hp).
    rewrite Forall_forall in Hall. destruct (Hall _ Hp) as (ss & Hf & _).
    simpl in *. subst f. simpl in Hitem.
    apply list_elem_of_fmap in Hitem as (s & -> & _). by exists s.
Qed.

Lemma fetch_states_many_fields_witness :
  ∃ word_ids states,
    fetch_states Sample.db "ptb" "GRU" (FieldNames ["state_c"; "state_h"])
      (DiffFlags [true; false]) = Ok (word_ids, states)
    ∧ length word_ids = 3%nat
    ∧ length states = 4%nat.
Proof.
  eexists _, _. split; [vm_compute; reflexivity|]. split; [reflexivity|].
  refine (proj1 (fetch_states_many_fields Sample.db "ptb" "GRU"
                   ["state_c"; "state_h"] [true; false] _ _ _ _)).
  - simpl. lia.
  - vm_compute. reflexivity.
Defined.

(** ** The grouper, further properties *)

(** A loop raises what its body raises. *)
Lemma for_each_raises {A S : Type} (P : exn → Prop) (xs : list A)
    (body : S → A → result S) (s : S) (e : exn) :
  (∀ s x e, body s x = Raise e → P e) →
  for_each xs body s = Raise e → P e.
Proof.
  intros Hbody. revert s. induction xs as [|x xs IH]; intros s; [discriminate|].
  simpl. destruct (body s x) as [s1|e1] eqn:Hx; simpl.
  - apply IH.
  - intros [= <-]. by eapply Hbody.
Qed.

(** A loop that returns has run its body on every element, keeping what
    the body keeps. *)
Lemma for_each_Ok_inv {A S : Type} (I : S → Prop) (Q : A → Prop) (xs : list A)
    (body : S → A → result S) (s s' : S) :
  (∀ s x s', I s → body s x = Ok s' → I s' ∧ Q x) →
  I s → for_each xs body s = Ok s' → Forall Q xs ∧ I s'.
Proof.
  intros Hbody. revert s. induction xs as [|x xs IH]; intros s Hs; simpl.
  - intros [= <-]. by split.
  - destruct (body s x) as [s1|e1] eqn:Hx; simpl; [|discriminate].
    destruct (Hbody _ _ _ Hs Hx) as [Hs1 Hq]. intros H.
    destruct (IH s1 Hs1 H) as [Hall Hs']. split; [by constructor | done].
Qed.

Lemma py_position_wrap (n : nat) (i : Z) :
  - Z.of_nat n ≤ i < Z.of_nat n →
  py_position n i = Some (Z.to_nat (py_wrap n i)).
Proof.
  intros Hi. unfold py_position, py_wrap. repeat case_decide; (done || lia).
Qed.

Lemma py_position_is_Some (n : nat) (i : Z) :
  is_Some (py_position n i) ↔ - Z.of_nat n ≤ i < Z.of_nat n.
Proof.
  unfold py_position. repeat case_decide; split; intros Hi;
    try lia; try done; by destruct Hi.
Qed.

Lemma py_wrap_range (n : nat) (i : Z) :
  - Z.of_nat n ≤ i < Z.of_nat n → 0 ≤ py_wrap n i < Z.of_nat n.
Proof. unfold py_wrap. case_decide; lia. Qed.

Lemma py_getitem_wrap {A : Type} (xs : list A) (i : Z) :
  - Z.of_nat (length xs) ≤ i < Z.of_nat (length xs) →
  py_getitem xs i = py_getitem xs (py_wrap (length xs) i).
Proof.
  intros Hi. unfold py_getitem.
  rewrite (py_position_wrap _ i Hi).
  rewrite (py_position_nonneg _ (py_wrap _ i)) by (apply py_wrap_range; lia).
  rewrite decide_True by (apply py_wrap_range; lia). done.
Qed.

Lemma py_setitem_wrap {A : Type} (xs : list A) (i : Z) (x : A) :
  - Z.of_nat (length xs) ≤ i < Z.of_nat (length xs) →
  py_setitem xs i x = py_setitem xs (py_wrap (length xs) i) x.
Proof.
  intros Hi. unfold py_setitem.
  rewrite (py_position_wrap _ i Hi).
  rewrite (py_position_nonneg _ (py_wrap _ i)) by (apply py_wrap_range; lia).
  rewrite decide_True by (apply py_wrap_range; lia). done.
Qed.

Section GrouperWrap.
Context {A : Type}.
Implicit Types (pairs : list (Z * A)) (states : list A).

(** The body of the loop of [sort_by_id]. *)
Local Abbreviation file_state states :=
  (λ (id_to_states : list (option (list A))) '(k, id_),
     bucket ← py_getitem id_to_states id_;
     let bucket := match bucket with
                   | None => []
                   | Some states_of_id => states_of_id
                   end in
     state ← py_getitem states (Z.of_nat k);
     py_setitem id_to_states id_ (Some (bucket ++ [state]))).

Lemma sort_by_id_loop_wrap n states (ws : list Z) (off : nat) pairs :
  Forall (λ id, - Z.of_nat n ≤ id < Z.of_nat n) ws →
  (off + length ws ≤ length states)%nat →
  for_each (zip (seq off (length ws)) ws) (file_state states) (buckets_of n pairs)
  = Ok (buckets_of n (pairs ++ zip (py_wrap n <$> ws) (drop off states))).
Proof.
  revert off pairs. induction ws as [|id ws IH]; intros off pairs Hids Hlen.
  - simpl. by rewrite app_nil_r.
  - apply Forall_cons in Hids as [Hid Hids]. simpl in Hlen.
    destruct (lookup_lt_is_Some_2 states off) as [s Hs]; [lia|].
    rewrite (drop_S _ _ _ Hs). simpl.
    pose proof (sort_by_id_step n pairs (py_wrap n id) s
                  (py_wrap_range n id Hid)) as Hstep.
    rewrite (py_getitem_wrap (buckets_of n pairs) id)
      by (by rewrite buckets_of_length).
    rewrite buckets_of_length.
    destruct (py_getitem (buckets_of n pairs) (py_wrap n id)) as [b|e]; [|done].
    simpl in *. rewrite (py_getitem_nat _ _ _ Hs). simpl.
    rewrite (py_setitem_wrap (buckets_of n pairs) id)
      by (by rewrite buckets_of_length).
    rewrite buckets_of_length, Hstep. simpl.
    rewrite IH by (done || lia).
    by rewrite <- app_assoc.
Qed.

Lemma file_state_inv states (s s' : list (option (list A))) (k : nat) (id : Z) :
  file_state states s (k, id) = Ok s' →
  length s' = length s
  ∧ - Z.of_nat (length s) ≤ id < Z.of_nat (length s)
  ∧ (k < length states)%nat.
Proof.
  intros H. apply bind_Ok_inv in H as (b & Hb & H).
  apply bind_Ok_inv in H as (st & Hst & H).
  apply py_getitem_nat_inv, lookup_lt_Some in Hst.
  unfold py_setitem in H.
  destruct (py_position (length s) id) as [p|] eqn:Hp; [|discriminate].
  injection H as <-. rewrite length_insert. split; [done|]. split; [|done].
  apply py_position_is_Some. by rewrite Hp.
Qed.

Lemma file_state_raises states (s : list (option (list A))) (p : nat * Z) (e : exn) :
  file_state states s p = Raise e → e = IndexError.
Proof.
  destruct p as [k id]. unfold py_getitem, py_setitem.
  destruct (py_position (length s) id) as [p|]; simpl; [|congruence].
  destruct (s !! p); simpl; [|congruence].
  destruct (py_position (length states) (Z.of_nat k)) as [q|]; simpl; [|congruence].
  destruct (states !! q); simpl; congruence.
Qed.

Lemma sort_by_id_loop_inv states (l : list (nat * Z))
    (s s' : list (option (list A))) :
  for_each l (file_state states) s = Ok s' →
  Forall (λ p, - Z.of_nat (length s) ≤ p.2 < Z.of_nat (length s)
               ∧ (p.1 < length states)%nat) l.
Proof.
  intros H.
  apply (for_each_Ok_inv (λ t, length t = length s)
           (λ p, - Z.of_nat (length s) ≤ p.2 < Z.of_nat (length s)
                 ∧ (p.1 < length states)%nat)) in H as [H _];
    [done | | done].
  intros t [k id] t' Ht Hrun.
  apply file_state_inv in Hrun as (Hlen & Hid & Hk).
  rewrite Ht in Hlen, Hid. done.
Qed.

Lemma sort_by_id_loop_raises states (l : list (nat * Z))
    (s : list (option (list A))) (e : exn) :
  for_each l (file_state states) s = Raise e → e = IndexError.
Proof.
  apply (for_each_raises (λ e, e = IndexError)).
  intros t p e'. apply file_state_raises.
Qed.

End GrouperWrap.

Lemma sort_by_id_wrapped {A : Type} (word_ids : list Z)
    (states : list A) (max_id : Z) :
  py_max word_ids = Ok max_id →
  Forall (λ id, - (max_id + 1) ≤ id) word_ids →
  (length word_ids ≤ length states)%nat →
  0 ≤ max_id
  ∧ sort_by_id word_ids states
    = Ok (buckets_of (Z.to_nat (max_id + 1))
            (zip (py_wrap (Z.to_nat (max_id + 1)) <$> word_ids) states)).
Proof.
  intros Hmax Hlow Hlen.
  assert (word_ids ≠ []) as Hne by (intros ->; discriminate).
  destruct (py_max_spec word_ids Hne) as (m & Hm & Hin & Hle).
  assert (m = max_id) as -> by congruence.
  rewrite Forall_forall in Hlow.
  assert (0 ≤ max_id) as Hpos by (specialize (Hlow _ Hin); lia).
  split; [done|].
  unfold sort_by_id. rewrite Hmax. simpl.
  unfold py_repeat. rewrite <- buckets_of_nil.
  unfold enumerate. change (combine ?a ?b) with (zip a b).
  rewrite (sort_by_id_loop_wrap _ states word_ids 0 []); [done | | lia].
  apply Forall_forall. intros id Hid.
  specialize (Hlow id Hid). specialize (Hle id Hid). lia.
Qed.

(** X8. [sort_by_id] accepts negative word ids down to [-(max_id+1)]: such
    an id is a Python index from the end and its states are filed under
    bucket [max_id+1+id]; the result is the bucket list of the word ids so
    wrapped. *)
Theorem sort_by_id_wraps_negative_ids {A : Type} (word_ids : list Z)
    (states : list A) (max_id : Z) :
  py_max word_ids = Ok max_id →
  Forall (λ id, - (max_id + 1) ≤ id) word_ids →
  (length word_ids ≤ length states)%nat →
  0 ≤ max_id
  ∧ sort_by_id word_ids states
    = Ok (buckets_of (Z.to_nat (max_id + 1))
            (zip (py_wrap (Z.to_nat (max_id + 1)) <$> word_ids) states)).
Proof. apply sort_by_id_wrapped. Qed.

Lemma sort_by_id_wraps_negative_ids_witness :
  sort_by_id [2; -1; 0; -3] ["a"; "b"; "c"; "d"]
  = Ok [Some ["c"; "d"]; None; Some ["a"; "b"]].
Proof.
  destruct (sort_by_id_wraps_negative_ids [2; -1; 0; -3] ["a"; "b"; "c"; "d"] 2)
    as [_ Hrun].
  - reflexivity.
  - repeat constructor; lia.
  - simpl. lia.
  - rewrite Hrun. reflexivity.
Defined.

(** X9. [sort_by_id] raises in two ways only: the [ValueError] of [max] for
    no word id, and [IndexError] when a word id lies below [-(max_id+1)] or
    there are fewer states than word ids. *)
Theorem sort_by_id_raises {A : Type} (word_ids : list Z) (states : list A)
    (e : exn) :
  sort_by_id word_ids states = Raise e
  ↔ (word_ids = [] ∧ e = ValueError "max() arg is an empty sequence")
    ∨ (e = IndexError
       ∧ ∃ max_id, py_max word_ids = Ok max_id
           ∧ ((∃ id, id ∈ word_ids ∧ id < - (max_id + 1))
              ∨ (length states < length word_ids)%nat)).
Proof.
  destruct word_ids as [|w ws].
  { split.
    - intros [= <-]. by left.
    - intros [[_ ->]|(_ & m & Hm & _)]; [done | discriminate]. }
  set (word_ids := w :: ws).
  assert (word_ids ≠ []) as Hne by done.
  destruct (py_max_spec word_ids Hne) as (m & Hm & Hin & Hle).
  split.
  - intros Hraise. right.
    assert (e = IndexError) as ->.
    { unfold sort_by_id in Hraise. rewrite Hm in Hraise.
      by apply sort_by_id_loop_raises in Hraise. }
    split; [done|]. exists m. split; [done|].
    destruct (decide (Forall (λ id, - (m + 1) ≤ id) word_ids)) as [Hlow|Hlow];
      [destruct (decide (length word_ids ≤ length states)%nat) as [Hlen|Hlen]|].
    + destruct (sort_by_id_wrapped _ _ _ Hm Hlow Hlen) as [_ Hrun].
      congruence.
    + right. lia.
    + left. apply not_Forall_Exists in Hlow; [|apply _].
      apply Exists_exists in Hlow as (id & Hid & Hlt). exists id.
      unfold compose in Hlt. split; [done | lia].
  - intros [[? _]|(-> & m' & Hm' & Hbad)]; [done|].
    assert (m' = m) as -> by congruence.
    destruct (sort_by_id word_ids states) as [buckets|e'] eqn:Hrun.
    + exfalso. unfold sort_by_id in Hrun. rewrite Hm in Hrun.
      apply sort_by_id_loop_inv in Hrun.
      unfold py_repeat in Hrun. rewrite length_replicate in Hrun.
      rewrite Forall_forall in Hrun.
      destruct Hbad as [(id & Hid & Hlt)|Hshort].
      * apply list_elem_of_lookup in Hid as [k Hk].
        specialize (Hrun _ (proj2 (list_elem_of_lookup _ _)
                              (ex_intro _ k (enumerate_lookup _ _ _ Hk)))).
        cbn [fst snd] in Hrun. specialize (Hle m Hin). lia.
      * destruct (lookup_lt_is_Some_2 word_ids (length states)) as [id Hk];
          [done|].
        specialize (Hrun _ (proj2 (list_elem_of_lookup _ _)
                              (ex_intro _ _ (enumerate_lookup _ _ _ Hk)))).
        cbn [fst snd] in Hrun. lia.
    + f_equal. unfold sort_by_id in Hrun. rewrite Hm in Hrun.
      by apply sort_by_id_loop_raises in Hrun.
Qed.

Lemma sort_by_id_raises_witness :
  sort_by_id [2; -4] ["a"; "b"] = Raise IndexError
  ∧ sort_by_id [1; 0] ["a"] = Raise IndexError.
Proof.
  split.
  - apply (proj2 (sort_by_id_raises [2; -4] ["a"; "b"] IndexError)).
    right. split; [reflexivity|]. exists 2. split; [reflexivity|].
    left. exists (-4). split; [right; left | lia].
  - apply (proj2 (sort_by_id_raises [1; 0] ["a"] IndexError)).
    right. split; [reflexivity|]. exists 1. split; [reflexivity|].
    right. simpl. lia.
Defined.

(** ** The caches, further properties *)

Section CacheProperties.
Variable get_path : string → string → string.
Variables data_name model_name state_name : string.

Local Abbreviation word_path :=
  (get_path _tmp_dir (words_file_name data_name model_name)).
Local Abbreviation states_path diff :=
  (get_path _tmp_dir (states_file_name data_name model_name state_name diff)).

Lemma load_words_and_state_hit (db : database) (diff : bool) (w : world)
    (words : list Z) (states : list state_item) :
  files w !! word_path = Some (PickledWords words) →
  files w !! states_path diff = Some (PickledStates states) →
  load_words_and_state get_path db data_name model_name state_name diff w
  = (Ok (words, states),
     mk_world (files w)
       (events w ++ load_hit_events word_path (states_path diff))).
Proof.
  intros Hw Hs. unfold load_words_and_state.
  fold (words_file_name data_name model_name).
  fold (states_file_name data_name model_name state_name diff).
  unfold mbind, IO_bind, file_exists, read_pickle, io_lift, mret, IO_ret.
  simpl. rewrite Hw. rewrite bool_decide_eq_true_2 by eauto.
  simpl. rewrite Hs. rewrite bool_decide_eq_true_2 by eauto.
  simpl. rewrite Hw. simpl. rewrite Hs. simpl.
  unfold log_event, load_hit_events. simpl.
  by rewrite <- !app_assoc.
Qed.

Lemma load_words_and_state_cases (db : database) (diff : bool) (w w' : world)
    (words : list Z) (states : list state_item) :
  load_words_and_state get_path db data_name model_name state_name diff w
  = (Ok (words, states), w') →
  (files w !! word_path = Some (PickledWords words)
   ∧ files w !! states_path diff = Some (PickledStates states)
   ∧ files w' = files w)
  ∨ ((files w !! word_path = None ∨ files w !! states_path diff = None)
     ∧ fetch_states db data_name model_name (FieldName state_name) (DiffFlag diff)
       = Ok (words, states)
     ∧ files w'
       = <[states_path diff := PickledStates states]>
           (<[word_path := PickledWords words]> (files w))).
Proof.
  unfold load_words_and_state.
  fold (words_file_name data_name model_name).
  fold (states_file_name data_name model_name state_name diff).
  unfold mbind, IO_bind, file_exists, read_pickle, write_pickle, before_save,
    io_log, io_lift, mret, IO_ret.
  simpl.
  destruct (files w !! word_path) as [bw|] eqn:Hw; simpl.
  - destruct (files w !! states_path diff) as [bs|] eqn:Hs; simpl.
    + rewrite Hw. destruct bw; simpl; try discriminate.
      rewrite Hs. destruct bs; simpl; try discriminate.
      intros [= <- <- <-]. left. done.
    + destruct (fetch_states _ _ _ _ _) as [[ws ss]|e]; simpl; [|discriminate].
      intros [= <- <- <-]. right. split; [by right|]. done.
  - destruct (fetch_states _ _ _ _ _) as [[ws ss]|e]; simpl; [|discriminate].
    intros [= <- <- <-]. right. split; [by left|]. done.
Qed.

(** X11. A call of [load_words_and_state] that returns leaves a cache from
    which the same call returns the same words and states again, whatever
    the database then holds, by looking up and reading the two files only;
    the two files must not be one. *)
Theorem load_words_and_state_again (db db' : database) (diff : bool)
    (w w' : world) (words : list Z) (states : list state_item) :
  word_path ≠ states_path diff →
  load_words_and_state get_path db data_name model_name state_name diff w
  = (Ok (words, states), w') →
  load_words_and_state get_path db' data_name model_name state_name diff w'
  = (Ok (words, states),
     mk_world (files w')
       (events w' ++ load_hit_events word_path (states_path diff))).
Proof.
  intros Hne Hrun.
  apply load_words_and_state_cases in Hrun
    as [(Hw & Hs & Hfiles)|(_ & _ & Hfiles)];
    apply load_words_and_state_hit; rewrite Hfiles; try done.
  - rewrite lookup_insert_ne by done. apply lookup_insert_eq.
  - apply lookup_insert_eq.
Qed.

(** X13. A failed fetch leaves the cache as it was: when one of the two
    files is missing and [fetch_states] raises, [load_words_and_state]
    raises the same exception and has written no file. *)
Theorem load_words_and_state_raise_keeps_files (db : database) (diff : bool)
    (w : world) (e : exn) :
  files w !! word_path = None ∨ files w !! states_path diff = None →
  fetch_states db data_name model_name (FieldName state_name) (DiffFlag diff)
  = Raise e →
  let run := load_words_and_state get_path db data_name model_name state_name
               diff w in
  run.1 = Raise e ∧ files run.2 = files w.
Proof.
  intros Hmiss Hfetch. cbv zeta. unfold load_words_and_state.
  fold (words_file_name data_name model_name).
  fold (states_file_name data_name model_name state_name diff).
  unfold mbind, IO_bind, file_exists, read_pickle, write_pickle, before_save,
    io_log, io_lift, mret, IO_ret.
  simpl.
  destruct (files w !! word_path) as [bw|] eqn:Hw; simpl.
  - destruct Hmiss as [?|Hs]; [done|]. rewrite Hs. simpl.
    by rewrite Hfetch.
  - by rewrite Hfetch.
Qed.

End CacheProperties.

Lemma load_words_and_state_again_witness :
  ∃ w' words states,
    load_words_and_state Example.get_path Example.db "ptb" "GRU" "state_c" true
      Example.empty_world = (Ok (words, states), w')
    ∧ load_words_and_state Example.get_path Sample.no_evals "ptb" "GRU"
        "state_c" true w'
      = (Ok (words, states),
         mk_world (files w')
           (events w'
            ++ load_hit_events "_cached/tmp/ptb-GRU-words.pkl"
                 "_cached/tmp/ptb-GRU-state_c-diff.pkl")).
Proof.
  eexists _, _, _. split; [vm_compute; reflexivity|].
  apply (load_words_and_state_again Example.get_path "ptb" "GRU" "state_c"
           Example.db Sample.no_evals true Example.empty_world).
  - discriminate.
  - vm_compute. reflexivity.
Defined.

Lemma load_words_and_state_raise_keeps_files_witness :
  ∃ e,
    (load_words_and_state Example.get_path Sample.no_evals "ptb" "GRU" "state_c"
       true Example.empty_world).1 = Raise e
    ∧ files (load_words_and_state Example.get_path Sample.no_evals "ptb" "GRU"
               "state_c" true Example.empty_world).2
      = files Example.empty_world.
Proof.
  eexists.
  apply (load_words_and_state_raise_keeps_files Example.get_path "ptb" "GRU"
           "state_c" Sample.no_evals true Example.empty_world).
  - left. reflexivity.
  - reflexivity.
Defined.

Lemma append_inv_head (a x y : string) : a +:+ x = a +:+ y → x = y.
Proof.
  induction a as [|c a IH]; rewrite ?append_cons, ?append_nil_l; [done|].
  intros [= H]. by apply IH.
Qed.

(** X14. The two cache files of [load_words_and_state] have one name exactly
    when the states are not differenced and the state is named [words]. *)
Theorem load_words_and_state_file_names (data_name model_name state_name : string)
    (diff : bool) :
  words_file_name data_name model_name
  = states_file_name data_name model_name state_name diff
  ↔ diff = false ∧ state_name = "words".
Proof.
  unfold words_file_name, states_file_name. split.
  - intros H.
    apply append_inv_head, append_inv_head, append_inv_head in H.
    change "-words.pkl" with ("-" +:+ "words" +:+ ".pkl") in H.
    apply append_inv_head in H.
    rewrite <- (append_assoc state_name) in H. apply append_inv_tail in H.
    destruct diff.
    + apply (f_equal dash_free) in H. rewrite dash_free_app in H.
      by rewrite andb_false_r in H.
    + split; [done|]. rewrite H. clear H.
      induction state_name as [|c s IH]; [done|].
      by rewrite append_cons, <- IH.
  - intros [-> ->]. done.
Qed.

Lemma load_words_and_state_file_names_witness :
  words_file_name "ptb" "GRU" = states_file_name "ptb" "GRU" "words" false
  ∧ words_file_name "ptb" "GRU" ≠ states_file_name "ptb" "GRU" "state" true.
Proof.
  split.
  - by apply (proj2 (load_words_and_state_file_names "ptb" "GRU" "words" false)).
  - intros H.
    by destruct (proj1 (load_words_and_state_file_names "ptb" "GRU" "state" true) H).
Defined.

Lemma strength_tier_cases (top_k : Z) :
  strength_tier top_k = 100 ∨ strength_tier top_k = 500
  ∨ strength_tier top_k = 1000.
Proof. unfold strength_tier. repeat case_decide; auto. Qed.

(** X15. The cache file of a tier of strengths is told apart from every
    other by its name when the three names hold no dash: two calls with
    such names share a file exactly when they agree on the names and on
    the tier.  A dash inside a name makes two different calls share a
    file. *)
Theorem strength_file_names_distinct :
  (∀ (d m s d' m' s' : string) (top_k top_k' : Z),
     dash_free d = true → dash_free m = true → dash_free s = true →
     dash_free d' = true → dash_free m' = true → dash_free s' = true →
     (strength_file_name d m s (strength_tier top_k)
      = strength_file_name d' m' s' (strength_tier top_k')
      ↔ d = d' ∧ m = m' ∧ s = s' ∧ strength_tier top_k = strength_tier top_k'))
  ∧ strength_file_name "a-b" "c" "s" (strength_tier 1)
    = strength_file_name "a" "b-c" "s" (strength_tier 1).
Proof.
  split; [|done].
  intros d m s d' m' s' top_k top_k' Hd Hm Hs Hd' Hm' Hs'. split.
  - intros H. unfold strength_file_name in H. apply append_inv_tail in H.
    unfold py_join in H. cbn [String.concat] in H.
    apply split_first_dash in H as [-> H]; [|done..].
    apply split_first_dash in H as [-> H]; [|done..].
    apply split_first_dash in H as [-> H]; [|done..].
    by apply py_str_int_inj in H as ->.
  - by intros (-> & -> & -> & ->).
Qed.

Lemma strength_file_names_distinct_witness :
  strength_file_name "ptb" "GRU" "state" (strength_tier 7)
  = strength_file_name "ptb" "GRU" "state" (strength_tier 100)
  ∧ strength_file_name "ptb" "GRU" "state" (strength_tier 100)
    ≠ strength_file_name "ptb" "GRU" "state" (strength_tier 101).
Proof.
  destruct strength_file_names_distinct as [Hiff _]. split.
  - by apply (proj2 (Hiff "ptb" "GRU" "state" "ptb" "GRU" "state" 7 100
                       eq_refl eq_refl eq_refl eq_refl eq_refl eq_refl)).
  - intros H.
    apply (proj1 (Hiff "ptb" "GRU" "state" "ptb" "GRU" "state" 100 101
                    eq_refl eq_refl eq_refl eq_refl eq_refl eq_refl)) in H.
    by destruct H as (_ & _ & _ & H).
Defined.

Lemma get_empirical_strength_inv_run
    (get_path : string → string → string) (db : database)
    (data_name model_name state_name : string) (layer : layer_arg)
    (top_k : Z) (w w' : world) (out : list ndarray) :
  get_empirical_strength get_path db data_name model_name state_name
    layer top_k w = (Ok out, w') →
  top_k ≤ 1000
  ∧ ∃ id_strengths,
      files w' !! tier_path get_path data_name model_name state_name top_k
      = Some (PickledStrengths id_strengths)
      ∧ map_result (λ i, strength ← py_getitem id_strengths (Z.of_nat i);
                         nd_take strength (selected_layers layer))
          (py_range top_k) = Ok out.
Proof.
  intros Hrun.
  destruct (decide (top_k > 1000)) as [Hbig|Hsmall].
  { rewrite get_empirical_strength_rejects in Hrun by done. discriminate. }
  split; [lia|].
  unfold get_empirical_strength in Hrun. rewrite decide_False in Hrun by done.
  fold (tier_path get_path data_name model_name state_name top_k) in Hrun.
  set (path := tier_path get_path data_name model_name state_name top_k) in *.
  apply io_bind_inv in Hrun as (hit & w1 & Hexists & Hrun).
  unfold file_exists in Hexists. injection Hexists as <- <-.
  apply io_bind_inv in Hrun as (ids & w2 & Hids & Hfinal).
  unfold io_lift in Hfinal. injection Hfinal as Hmap <-.
  exists ids. split; [|done].
  destruct (bool_decide (is_Some (files w !! path))).
  - apply io_bind_inv in Hids as (b & w3 & Hread & Hexpect).
    unfold read_pickle in Hread. simpl in Hread.
    destruct (files w !! path) as [b'|] eqn:Hfile; [|discriminate].
    injection Hread as <- <-.
    unfold io_lift in Hexpect. injection Hexpect as Hexpect <-.
    destruct b'; try discriminate. simpl in *. congruence.
  - apply io_bind_inv in Hids as ([words states] & w3 & Hload & Hids).
    apply io_bind_inv in Hids as (buckets & w4 & Hsort & Hids).
    apply io_bind_inv in Hids as (ids' & w5 & Hcal & Hids).
    apply io_bind_inv in Hids as ([] & w6 & Hwrite & Hret).
    unfold write_pickle in Hwrite. injection Hwrite as <-.
    unfold mret, IO_ret in Hret. injection Hret as <- <-.
    simpl. apply lookup_insert_eq.
Qed.

(** X16. A call of [get_empirical_strength] that returns leaves the strengths
    of its tier in the cache: the same call then returns the same result
    whatever the database holds, and every later call of the same tier, for
    any layers, is answered from that file alone, by one look-up and one
    read. *)
Theorem get_empirical_strength_again
    (get_path : string → string → string) (db : database)
    (data_name model_name state_name : string) (layer : layer_arg)
    (top_k : Z) (w w' : world) (out : list ndarray) :
  get_empirical_strength get_path db data_name model_name state_name
    layer top_k w = (Ok out, w') →
  let path := tier_path get_path data_name model_name state_name top_k in
  let w'' := log_event (FileRead path) (log_event (FileExists path) w') in
  (∀ db', get_empirical_strength get_path db' data_name model_name state_name
            layer top_k w' = (Ok out, w''))
  ∧ ∃ id_strengths,
      files w' !! path = Some (PickledStrengths id_strengths)
      ∧ ∀ db' layer' top_k',
          strength_tier top_k' = strength_tier top_k → top_k' ≤ 1000 →
          get_empirical_strength get_path db' data_name model_name state_name
            layer' top_k' w'
          = (map_result (λ i, strength ← py_getitem id_strengths (Z.of_nat i);
                              nd_take strength (selected_layers layer'))
               (py_range top_k'),
             w'').
Proof.
  intros Hrun path w''.
  apply get_empirical_strength_inv_run in Hrun as (Hk & ids & Hfile & Hmap).
  split.
  - intros db'. rewrite <- Hmap.
    by apply get_empirical_strength_hit.
  - exists ids. split; [done|]. intros db' layer' top_k' Htier Hk'.
    assert (tier_path get_path data_name model_name state_name top_k' = path)
      as Hpath by (unfold path, tier_path; by rewrite Htier).
    subst w''. rewrite <- Hpath.
    apply get_empirical_strength_hit; [done|]. by rewrite Hpath.
Qed.

Lemma get_empirical_strength_again_witness :
  ∃ out w',
    get_empirical_strength Example.get_path Example.db010 "ptb" "GRU" "state"
      (LayerInt (-1)) 2 Example.empty_world = (Ok out, w')
    ∧ (get_empirical_strength Example.get_path Sample.no_evals "ptb" "GRU" "state"
         (LayerInt (-1)) 2 w').1 = Ok out.
Proof.
  destruct (get_empirical_strength Example.get_path Example.db010 "ptb" "GRU"
              "state" (LayerInt (-1)) 2 Example.empty_world)
    as [[out|e] w'] eqn:Hrun; [|vm_compute in Hrun; discriminate].
  exists out, w'. split; [reflexivity|].
  destruct (get_empirical_strength_again Example.get_path Example.db010
              "ptb" "GRU" "state" (LayerInt (-1)) 2 Example.empty_world w' out
              Hrun) as [Hagain _].
  by rewrite (Hagain Sample.no_evals).
Defined.

(** ** The strength aggregator, further properties *)

Lemma nth_concat_block (m : nat) (blocks : list (list Q)) (i p : nat) :
  Forall (λ b, length b = m) blocks →
  (p < m)%nat →
  nth (i * m + p) (concat blocks) 0%Q = nth p (nth i blocks []) 0%Q.
Proof.
  intros Hall Hp. revert i. induction Hall as [|b blocks Hb _ IH]; intros i.
  - simpl. by destruct (i * m + p)%nat, i, p.
  - destruct i as [|i]; simpl.
    + rewrite app_nth1 by lia. done.
    + rewrite app_nth2 by lia. rewrite <- IH. f_equal. lia.
Qed.

Lemma nd_column_stack (states : list ndarray) (sh : list nat) (p : nat) :
  Forall (λ s, length (nd_data s) = nd_size sh) states →
  (p < nd_size sh)%nat →
  nd_column (mk_ndarray (length states :: sh) (concat (nd_data <$> states))) p
  = (λ s, nth p (nd_data s) 0%Q) <$> states.
Proof.
  intros Hall Hp. unfold nd_column. simpl.
  apply list_eq. intros i.
  rewrite !list_lookup_fmap.
  destruct (decide (i < length states)%nat) as [Hi|Hi].
  - rewrite lookup_seq_lt by done. simpl.
    destruct (lookup_lt_is_Some_2 states i Hi) as [s Hs]. rewrite Hs. simpl.
    f_equal. rewrite (nth_concat_block (nd_size sh)); [|by apply Forall_fmap|done].
    f_equal. apply nth_lookup_Some. by rewrite list_lookup_fmap, Hs.
  - rewrite (lookup_ge_None_2 states) by lia.
    rewrite lookup_ge_None_2; [done|]. rewrite length_seq. lia.
Qed.

(** The mean of a populated bucket of arrays of one shape is their
    entry-wise mean. *)
Lemma strenth_map_mean (state_shape sh : list nat) (states : list ndarray) :
  states ≠ [] →
  Forall (λ s, nd_shape s = sh ∧ length (nd_data s) = nd_size sh) states →
  strenth_map state_shape np_mean_axis0 (Some (ItemArray <$> states))
  = Ok (mk_ndarray sh (entry_means sh states)).
Proof.
  intros Hne Hall. unfold strenth_map.
  rewrite map_result_item_asarray, bind_Ok.
  rewrite (np_stack_same_shape states sh Hne), bind_Ok;
    [|eapply Forall_impl; [exact Hall | by intros s [? _]]].
  unfold np_mean_axis0.
  rewrite (nd_reduce_axis0_columns mean_of mean_value
             (mk_ndarray (length states :: sh) (concat (nd_data <$> states)))
             (length states) sh mean_of_value eq_refl); [|by destruct states].
  f_equal. f_equal. unfold nd_columns, entry_means. simpl tail.
  rewrite <- list_fmap_compose.
  apply list_fmap_ext. intros i p Hp. apply lookup_seq in Hp as [-> Hp]. simpl.
  rewrite nd_column_stack; [done | | lia].
  eapply Forall_impl; [exact Hall | by intros s [_ ?]].
Qed.

Lemma group_of_fmap {A B : Type} (f : A → B) (ws : list Z) (states : list A)
    (id : Z) :
  group_of (zip ws (f <$> states)) id = f <$> group_of (zip ws states) id.
Proof.
  unfold group_of. revert states.
  induction ws as [|w ws IH]; intros [|s states]; try done.
  rewrite fmap_cons. cbn [zip zip_with]. rewrite !filter_cons. simpl.
  case_decide; rewrite ?fmap_cons; simpl; by rewrite IH.
Qed.

Lemma buckets_of_arrays (n : nat) (ws : list Z) (states : list ndarray) :
  buckets_of n (zip ws (ItemArray <$> states))
  = array_buckets (buckets_of n (zip ws states)).
Proof.
  unfold array_buckets, buckets_of. rewrite <- list_fmap_compose.
  apply list_fmap_ext. intros _ j _. simpl.
  rewrite group_of_fmap. by destruct (group_of _ _).
Qed.

Lemma take_buckets_of {A : Type} (top n : nat) (pairs : list (Z * A)) :
  take top (buckets_of n pairs) = buckets_of (top `min` n) pairs.
Proof.
  unfold buckets_of. rewrite <- fmap_take. f_equal.
  apply list_eq. intros i. rewrite lookup_take.
  destruct (decide (i < top)%nat) as [Hi|Hi].
  - destruct (decide (i < n)%nat).
    + rewrite !lookup_seq_lt by lia. done.
    + rewrite !lookup_seq_ge by lia. done.
  - rewrite lookup_seq_ge by lia. done.
Qed.

Lemma group_of_Forall {A : Type} (P : A → Prop) (ws : list Z) (states : list A)
    (id : Z) :
  Forall P states → Forall P (group_of (zip ws states) id).
Proof.
  intros Hall. apply Forall_forall. intros s Hs.
  apply elem_of_group_of, elem_of_zip_lookup in Hs as (k & _ & Hk).
  rewrite Forall_forall in Hall. apply Hall.
  by eapply list_elem_of_lookup_2.
Qed.

Lemma map_result_fmap {A B C : Type} (f : A → B) (g : B → result C)
    (xs : list A) :
  map_result g (f <$> xs) = map_result (λ x, g (f x)) xs.
Proof.
  induction xs as [|x xs IH]; [done|].
  rewrite fmap_cons. simpl. by rewrite IH.
Qed.

(** The strengths of the first [n] word ids, computed from the buckets of
    arrays of one shape, when word id 0 has a state. *)
Lemma cal_empirical_strength_buckets (n : nat) (ws : list Z)
    (states : list ndarray) (sh : list nat) :
  (0 < n)%nat →
  group_of (zip ws states) 0 ≠ [] →
  Forall (λ s, nd_shape s = sh ∧ length (nd_data s) = nd_size sh) states →
  cal_empirical_strength (array_buckets (buckets_of n (zip ws states)))
    np_mean_axis0
  = Ok ((λ j, strength_of sh (group_of (zip ws states) (Z.of_nat j)))
          <$> seq 0 n).
Proof.
  intros Hn H0 Hall. unfold cal_empirical_strength.
  assert (first_state_shape (array_buckets (buckets_of n (zip ws states)))
          = Ok sh) as ->.
  { unfold first_state_shape.
    erewrite py_getitem_0; cycle 1.
    { unfold array_buckets. rewrite list_lookup_fmap.
      rewrite buckets_of_lookup by done. done. }
    pose proof (group_of_Forall _ ws states 0 Hall) as Hg0.
    change (Z.of_nat 0) with 0.
    destruct (group_of (zip ws states) 0) as [|s0 g]; [done|].
    apply Forall_inv in Hg0 as [<- _]. done. }
  rewrite bind_Ok. unfold array_buckets, buckets_of.
  rewrite !map_result_fmap.
  apply map_result_Ok. intros j _.
  pose proof (group_of_Forall _ ws states (Z.of_nat j) Hall) as Hg.
  destruct (group_of (zip ws states) (Z.of_nat j)) as [|s g] eqn:Hgj; [done|].
  change (strenth_map sh np_mean_axis0 (Some (ItemArray <$> (s :: g)))
          = Ok (strength_of sh (s :: g))).
  by rewrite (strenth_map_mean sh sh (s :: g)).
Qed.

(** X10. Grouping the states of one shape by word id and taking the strength
    of the first [top] word ids: when the word ids are not negative and
    word id 0 occurs, the strength of a word id is the entry-wise mean of
    its states, and an array of zeros when it has none. *)
Theorem strength_is_mean_of_states (word_ids : list Z) (states : list ndarray)
    (sh : list nat) (max_id : Z) (top : nat) :
  py_max word_ids = Ok max_id →
  Forall (λ id, 0 ≤ id) word_ids →
  0 ∈ word_ids →
  (length word_ids ≤ length states)%nat →
  Forall (λ s, nd_shape s = sh ∧ length (nd_data s) = nd_size sh) states →
  (0 < top)%nat →
  ∃ id_to_states,
    sort_by_id word_ids (ItemArray <$> states) = Ok id_to_states
    ∧ cal_empirical_strength (take top id_to_states) np_mean_axis0
      = Ok ((λ j, strength_of sh (group_of (zip word_ids states) (Z.of_nat j)))
              <$> seq 0 (top `min` Z.to_nat (max_id + 1))).
Proof.
  intros Hmax Hnonneg H0 Hlen Hall Htop.
  eexists. split.
  - apply sort_by_id_buckets; [exact Hmax | done |].
    by rewrite length_fmap.
  - rewrite take_buckets_of, buckets_of_arrays.
    assert (word_ids ≠ []) as Hne by (intros ->; discriminate).
    destruct (py_max_spec word_ids Hne) as (m & Hm & Hin & Hle).
    assert (m = max_id) as -> by congruence.
    rewrite Forall_forall in Hnonneg. specialize (Hnonneg _ Hin).
    apply cal_empirical_strength_buckets; [lia | | done].
    apply list_elem_of_lookup in H0 as [k Hk].
    destruct (lookup_lt_is_Some_2 states k) as [s Hs];
      [apply lookup_lt_Some in Hk; lia|].
    intros Hnil.
    assert (s ∈ group_of (zip word_ids states) 0) as Hin0.
    { apply elem_of_group_of, elem_of_zip_lookup. eauto. }
    rewrite Hnil in Hin0. by apply elem_of_nil in Hin0.
Qed.

Lemma strength_is_mean_of_states_witness :
  ∃ id_to_states,
    sort_by_id [0; 2; 0] (ItemArray <$> Sample.states3) = Ok id_to_states
    ∧ cal_empirical_strength (take 100 id_to_states) np_mean_axis0
      = Ok [strength_of [2; 2]%nat
              [Example.state2x2 1 2 3 4; Example.state2x2 0 1 0 1];
            np_zeros [2; 2]%nat;
            strength_of [2; 2]%nat [Example.state2x2 2 4 6 8]].
Proof.
  apply (strength_is_mean_of_states [0; 2; 0] Sample.states3 [2; 2]%nat 2 100).
  - reflexivity.
  - repeat constructor; lia.
  - left.
  - simpl. lia.
  - repeat constructor.
  - lia.
Defined.

(** ** The serializers, further properties *)

(** A map raises what its function raises. *)
Lemma map_result_raises {A B : Type} (P : exn → Prop) (g : A → result B)
    (xs : list A) (e : exn) :
  (∀ x e, g x = Raise e → P e) →
  map_result g xs = Raise e → P e.
Proof.
  intros Hg. induction xs as [|x xs IH]; [discriminate|].
  simpl. destruct (g x) as [y|e1] eqn:Hx; simpl.
  - destruct (map_result g xs) as [ys|e2]; simpl; [discriminate|].
    intros [= <-]. by apply IH.
  - intros [= <-]. by eapply Hg.
Qed.

Lemma py_getitem_raises {A : Type} (xs : list A) (i : Z) (e : exn) :
  py_getitem xs i = Raise e → e = IndexError.
Proof.
  unfold py_getitem. destruct (py_position _ _); [|congruence].
  destruct (xs !! _); congruence.
Qed.

(** X17. [solution2json] does not check that [states_num] adds up to the
    size of the solution.  It builds its points, one per element of the
    solution and in its order, exactly when the blocks of [states_num]
    (a negative count being an empty block) and the labels, if given,
    cover the solution: a larger total is accepted and the positions
    beyond the solution are dropped.  A point carries the given label of
    its position, or 0 without labels.  Otherwise the call raises
    [IndexError]. *)
Theorem solution2json_points_cover {C : Type} (solution : list C)
    (states_num : list Z) (labels : option (list Z)) :
  let total := sum_list (Z.to_nat <$> states_num) in
  let labels' := labels_or_zeros labels (length solution) in
  if decide (length solution ≤ total ∧ length solution ≤ length labels')%nat
  then ∃ points,
         solution2json_points solution states_num labels = Ok points
         ∧ length points = length solution
         ∧ ∀ i p, points !! i = Some p →
                  solution !! i = Some (coords p)
                  ∧ labels' !! i = Some (label p)
  else solution2json_points solution states_num labels = Raise IndexError.
Proof.
  intros total labels'.
  unfold solution2json_points. rewrite expand_states_num_eq.
  fold (labels_or_zeros labels (length solution)). fold labels'.
  set (layers := concat (layer_blocks 0 states_num)).
  set (ids := concat (id_blocks states_num)).
  assert (Hlayers : length layers = total) by apply layer_blocks_length.
  assert (Hids : length ids = total) by apply id_blocks_length.
  set (body := λ '(i, s), l ← py_getitem layers (Z.of_nat i);
                          sid ← py_getitem ids (Z.of_nat i);
                          lab ← py_getitem labels' (Z.of_nat i);
                          Ok (mk_point (s : C) l sid lab)).
  case_decide as Hcover.
  - destruct Hcover as [Htotal Hlab].
    destruct (map_result_Forall2 body (enumerate solution)) as (points & Hrun & Hall).
    { intros [i s] Hin.
      apply enumerate_elem_of in Hin. apply lookup_lt_Some in Hin.
      destruct (lookup_lt_is_Some_2 layers i) as [l Hl]; [lia|].
      destruct (lookup_lt_is_Some_2 ids i) as [sid Hsid]; [lia|].
      destruct (lookup_lt_is_Some_2 labels' i) as [lab Hlab']; [lia|].
      eexists. unfold body.
      rewrite (py_getitem_nat _ _ _ Hl), bind_Ok.
      rewrite (py_getitem_nat _ _ _ Hsid), bind_Ok.
      by rewrite (py_getitem_nat _ _ _ Hlab'), bind_Ok. }
    exists points. split; [exact Hrun|]. split.
    + by rewrite (map_result_length _ _ _ Hrun), enumerate_length.
    + intros i p Hp.
      destruct (Forall2_lookup_r _ _ _ _ _ Hall Hp) as ([i' s] & Hin & Hbody).
      assert (i' = i) as ->.
      { unfold enumerate in Hin. change (combine ?a ?b) with (zip a b) in Hin.
        rewrite lookup_zip_with in Hin.
        destruct (seq 0 (length solution) !! i) as [k|] eqn:Hk; [|done].
        apply lookup_seq in Hk as [-> _]. simpl in Hin.
        destruct (solution !! i); [|done]. by injection Hin as <- _. }
      apply list_elem_of_lookup_2, enumerate_elem_of in Hin.
      unfold body in Hbody.
      apply bind_Ok_inv in Hbody as (l & _ & Hbody).
      apply bind_Ok_inv in Hbody as (sid & _ & Hbody).
      apply bind_Ok_inv in Hbody as (lab & Hlab' & [= <-]).
      simpl. split; [done|]. by apply py_getitem_nat_inv.
  - destruct (map_result body (enumerate solution)) as [points|e] eqn:Hrun.
    + exfalso. apply Hcover.
      assert (∀ i, (i < length solution)%nat →
                   (i < total)%nat ∧ (i < length labels')%nat) as Hbound.
      { intros i Hi.
        destruct (lookup_lt_is_Some_2 solution i Hi) as [s Hs].
        apply map_result_inv in Hrun.
        destruct (Forall2_lookup_l _ _ _ _ _ Hrun (enumerate_lookup _ _ _ Hs))
          as (p & _ & Hbody).
        unfold body in Hbody.
        apply bind_Ok_inv in Hbody as (l & Hl & Hbody).
        apply bind_Ok_inv in Hbody as (sid & _ & Hbody).
        apply bind_Ok_inv in Hbody as (lab & Hlab' & _).
        apply py_getitem_nat_inv, lookup_lt_Some in Hl, Hlab'. lia. }
      destruct (length solution) as [|n]; [lia|].
      destruct (Hbound n); lia.
    + f_equal. apply (map_result_raises (λ e, e = IndexError)) in Hrun; [done|].
      intros [i s] e'. unfold body.
      destruct (py_getitem layers _) eqn:H1; simpl;
        [|intros [= <-]; by eapply py_getitem_raises].
      destruct (py_getitem ids _) eqn:H2; simpl;
        [|intros [= <-]; by eapply py_getitem_raises].
      destruct (py_getitem labels' _) eqn:H3; simpl;
        [discriminate | intros [= <-]; by eapply py_getitem_raises].
Qed.

Lemma solution2json_points_cover_witness :
  (∃ points,
     solution2json_points ["a"; "b"] [1; -5; 7] (Some [4; 5; 6]) = Ok points
     ∧ length points = 2%nat)
  ∧ solution2json_points ["a"; "b"; "c"] [1; 1] None = Raise IndexError.
Proof.
  split.
  - destruct (solution2json_points_cover ["a"; "b"] [1; -5; 7] (Some [4; 5; 6]))
      as (points & Hrun & Hlen & _).
    exists points. split; [exact Hrun | exact Hlen].
  - exact (solution2json_points_cover ["a"; "b"; "c"] [1; 1] None).
Defined.

Lemma strength2json_points_covered (strength_list : list ndarray)
    (words : list string) (labels : option (list Z)) :
  let labels' := labels_or_zeros labels (length strength_list) in
  if decide (length strength_list ≤ length words
             ∧ length strength_list ≤ length labels')%nat
  then ∃ points,
         strength2json_points strength_list words labels = Ok points
         ∧ length points = length strength_list
         ∧ ∀ i p, points !! i = Some p →
                  (nd_tolist <$> strength_list) !! i = Some (sp_strength p)
                  ∧ words !! i = Some (sp_word p)
                  ∧ labels' !! i = Some (sp_label p)
  else strength2json_points strength_list words labels = Raise IndexError.
Proof.
  intros labels'. unfold strength2json_points.
  fold (labels_or_zeros labels (length strength_list)). fold labels'.
  set (body := λ '(i, strength), word ← py_getitem words (Z.of_nat i);
                                 lab ← py_getitem labels' (Z.of_nat i);
                                 Ok (mk_strength_point word (nd_tolist strength) lab)).
  case_decide as Hcover.
  - destruct Hcover as [Hwords Hlab].
    destruct (map_result_Forall2 body (enumerate strength_list))
      as (points & Hrun & Hall).
    { intros [i s] Hin.
      apply enumerate_elem_of in Hin. apply lookup_lt_Some in Hin.
      destruct (lookup_lt_is_Some_2 words i) as [word Hword]; [lia|].
      destruct (lookup_lt_is_Some_2 labels' i) as [lab Hlab']; [lia|].
      eexists. unfold body.
      rewrite (py_getitem_nat _ _ _ Hword), bind_Ok.
      by rewrite (py_getitem_nat _ _ _ Hlab'), bind_Ok. }
    exists points. split; [exact Hrun|]. split.
    + by rewrite (map_result_length _ _ _ Hrun), enumerate_length.
    + intros i p Hp.
      destruct (Forall2_lookup_r _ _ _ _ _ Hall Hp) as ([i' s] & Hin & Hbody).
      assert (i' = i) as ->.
      { unfold enumerate in Hin. change (combine ?a ?b) with (zip a b) in Hin.
        rewrite lookup_zip_with in Hin.
        destruct (seq 0 (length strength_list) !! i) as [k|] eqn:Hk; [|done].
        apply lookup_seq in Hk as [-> _]. simpl in Hin.
        destruct (strength_list !! i); [|done]. by injection Hin as <- _. }
      apply list_elem_of_lookup_2, enumerate_elem_of in Hin.
      unfold body in Hbody.
      apply bind_Ok_inv in Hbody as (word & Hword & Hbody).
      apply bind_Ok_inv in Hbody as (lab & Hlab' & [= <-]).
      simpl. rewrite list_lookup_fmap, Hin.
      split; [done|]. split; by apply py_getitem_nat_inv.
  - destruct (map_result body (enumerate strength_list)) as [points|e] eqn:Hrun.
    + exfalso. apply Hcover.
      assert (∀ i, (i < length strength_list)%nat →
                   (i < length words)%nat ∧ (i < length labels')%nat) as Hbound.
      { intros i Hi.
        destruct (lookup_lt_is_Some_2 strength_list i Hi) as [s Hs].
        apply map_result_inv in Hrun.
        destruct (Forall2_lookup_l _ _ _ _ _ Hrun (enumerate_lookup _ _ _ Hs))
          as (p & _ & Hbody).
        unfold body in Hbody.
        apply bind_Ok_inv in Hbody as (word & Hword & Hbody).
        apply bind_Ok_inv in Hbody as (lab & Hlab' & _).
        apply py_getitem_nat_inv, lookup_lt_Some in Hword, Hlab'. lia. }
      destruct (length strength_list) as [|n]; [lia|].
      destruct (Hbound n); lia.
    + f_equal. apply (map_result_raises (λ e, e = IndexError)) in Hrun; [done|].
      intros [i s] e'. unfold body.
      destruct (py_getitem words _) eqn:H1; simpl;
        [|intros [= <-]; by eapply py_getitem_raises].
      destruct (py_getitem labels' _) eqn:H3; simpl;
        [discriminate | intros [= <-]; by eapply py_getitem_raises].
Qed.

(** X18. [strength2json] builds one record per strength, in the order of the
    strengths, exactly when the words and the labels, if given, cover the
    strengths; words and labels beyond them are ignored.  The record of a
    position carries the word and the label of that position (0 without
    labels) and the strength as nested lists.  Otherwise the call raises
    [IndexError]. *)
Theorem strength2json_points_cover (strength_list : list ndarray)
    (words : list string) (labels : option (list Z)) :
  let labels' := labels_or_zeros labels (length strength_list) in
  if decide (length strength_list ≤ length words
             ∧ length strength_list ≤ length labels')%nat
  then ∃ points,
         strength2json_points strength_list words labels = Ok points
         ∧ length points = length strength_list
         ∧ ∀ i p, points !! i = Some p →
                  (nd_tolist <$> strength_list) !! i = Some (sp_strength p)
                  ∧ words !! i = Some (sp_word p)
                  ∧ labels' !! i = Some (sp_label p)
  else strength2json_points strength_list words labels = Raise IndexError.
Proof. apply strength2json_points_covered. Qed.

Lemma strength2json_points_cover_witness :
  (∃ points,
     strength2json_points [Example.state2x2 1 2 3 4] ["the"; "of"] None
     = Ok points
     ∧ length points = 1%nat)
  ∧ strength2json_points Sample.states3 ["the"; "of"] None = Raise IndexError.
Proof.
  split.
  - destruct (strength2json_points_cover [Example.state2x2 1 2 3 4]
                ["the"; "of"] None) as (points & Hrun & Hlen & _).
    exists points. split; [exact Hrun | exact Hlen].
  - exact (strength2json_points_cover Sample.states3 ["the"; "of"] None).
Defined.

Lemma concat_chunks {A : Type} (m n : nat) (data : list A) :
  length data = (n * m)%nat →
  concat ((λ i, take m (drop (i * m) data)) <$> seq 0 n) = data.
Proof.
  revert data. induction n as [|n IH]; intros data Hlen.
  - by destruct data.
  - rewrite <- cons_seq, fmap_cons, concat_cons.
    change (0 * m)%nat with 0%nat. rewrite drop_0.
    transitivity (take m data ++ drop m data); [|apply take_drop].
    f_equal.
    rewrite <- (IH (drop m data)) by (rewrite length_drop; lia).
    rewrite <- fmap_S_seq, <- list_fmap_compose. f_equal.
    apply list_fmap_ext. intros _ i _. simpl.
    rewrite drop_drop; repeat f_equal; lia.
Qed.

Lemma tolist_of_flatten (shape : list nat) (data : list Q) :
  length data = nd_size shape →
  pylist_flatten (tolist_of shape data) = data.
Proof.
  revert data. induction shape as [|n rest IH]; intros data Hlen.
  - simpl in *. by destruct data as [|x [|? ?]].
  - cbn [tolist_of pylist_flatten].
    change (map pylist_flatten ?l) with (pylist_flatten <$> l).
    rewrite <- list_fmap_compose.
    transitivity (concat ((λ i, take (nd_size rest) (drop (i * nd_size rest) data))
                            <$> seq 0 n)); [|by apply concat_chunks].
    f_equal. apply list_fmap_ext. intros k i Hi. apply lookup_seq in Hi as [-> Hi].
    simpl. apply IH. rewrite length_take, length_drop.
    change (nd_size (n :: rest)) with (n * nd_size rest)%nat in Hlen. nia.
Qed.

Lemma py_slice_to_length {A : Type} (xs : list A) (k : Z) :
  0 ≤ k → length (py_slice_to xs k) = (Z.to_nat k `min` length xs)%nat.
Proof.
  intros Hk. unfold py_slice_to. rewrite decide_True by done.
  apply length_take.
Qed.

(** X19. The script at the end of the module: the strengths of the [top_k]
    most frequent words, as [get_empirical_strength] returned them, are
    written by [strength2json] with the first [top_k] words of the
    vocabulary, which [fetch_freq_words] gives.  This yields [top_k]
    records, the record of position [i] carrying word [i] of the
    vocabulary, the label 0 and the entries of strength [i], exactly when
    the vocabulary has [top_k] words; with a shorter vocabulary the call
    raises [IndexError]. *)
Theorem strength2json_of_freq_words
    (get_path : string → string → string) (db : database)
    (id_to_word : string → list string)
    (data_name model_name state_name : string) (layer : layer_arg)
    (top_k : Z) (w w' : world) (strength_mat : list ndarray) :
  0 ≤ top_k →
  get_empirical_strength get_path db data_name model_name state_name
    layer top_k w = (Ok strength_mat, w') →
  let word_list := fetch_freq_words id_to_word data_name top_k in
  if decide (Z.to_nat top_k ≤ length (id_to_word data_name))%nat
  then ∃ points,
         strength2json_points strength_mat word_list None = Ok points
         ∧ length points = Z.to_nat top_k
         ∧ ∀ i p, points !! i = Some p →
                  id_to_word data_name !! i = Some (sp_word p)
                  ∧ sp_label p = 0
                  ∧ ∃ s, strength_mat !! i = Some s
                         ∧ sp_strength p = nd_tolist s
                         ∧ (length (nd_data s) = nd_size (nd_shape s) →
                            pylist_flatten (sp_strength p) = nd_data s)
  else strength2json_points strength_mat word_list None = Raise IndexError.
Proof.
  intros Hk Hrun word_list.
  apply get_empirical_strength_inv_run in Hrun as (_ & ids & _ & Hmap).
  apply map_result_length in Hmap. rewrite py_range_length in Hmap.
  assert (length word_list = (Z.to_nat top_k `min` length (id_to_word data_name))%nat)
    as Hwords by (by apply py_slice_to_length).
  pose proof (strength2json_points_covered strength_mat word_list None) as Hcover.
  cbv zeta in Hcover. unfold labels_or_zeros in Hcover.
  rewrite py_repeat_length in Hcover.
  destruct (decide (Z.to_nat top_k ≤ length (id_to_word data_name))%nat)
    as [Hvocab|Hvocab].
  - rewrite decide_True in Hcover by lia.
    destruct Hcover as (points & Hpoints & Hlen & Hall).
    exists points. split; [done|]. split; [lia|].
    intros i p Hp. destruct (Hall i p Hp) as (Hs & Hword & Hlab).
    split; [|split].
    + unfold word_list, fetch_freq_words, py_slice_to in Hword.
      rewrite decide_True in Hword by done.
      apply lookup_take_Some in Hword as [Hword _]. done.
    + unfold py_repeat in Hlab. apply lookup_replicate in Hlab as [Hlab _].
      done.
    + rewrite list_lookup_fmap in Hs.
      destruct (strength_mat !! i) as [s|]; [|done].
      injection Hs as Hs. exists s. split; [done|]. split; [done|].
      intros Hwf. rewrite <- Hs. by apply tolist_of_flatten.
  - rewrite decide_False in Hcover by lia. done.
Qed.

Lemma strength2json_of_freq_words_witness :
  ∃ strength_mat points,
    (get_empirical_strength Example.get_path Example.db010 "ptb" "GRU" "state"
       (LayerInt (-1)) 2 Example.empty_world).1 = Ok strength_mat
    ∧ strength2json_points strength_mat
        (fetch_freq_words Sample.id_to_word "ptb" 2) None = Ok points
    ∧ sp_word <$> points = ["the"; "of"].
Proof.
  destruct (get_empirical_strength Example.get_path Example.db010 "ptb" "GRU"
              "state" (LayerInt (-1)) 2 Example.empty_world)
    as [[out|e] w'] eqn:Hrun; [|vm_compute in Hrun; discriminate].
  pose proof (strength2json_of_freq_words Example.get_path Example.db010
                Sample.id_to_word "ptb" "GRU" "state" (LayerInt (-1)) 2
                Example.empty_world w' out ltac:(lia) Hrun) as Hjson.
  simpl in Hjson. destruct Hjson as (points & Hpoints & Hlen & Hall).
  exists out, points. split; [reflexivity|]. split; [exact Hpoints|].
  destruct points as [|p0 [|p1 [|p2 points]]]; try discriminate.
  destruct (Hall 0%nat p0 eq_refl) as ([= H0] & _).
  destruct (Hall 1%nat p1 eq_refl) as ([= H1] & _).
  simpl. by rewrite <- H0, <- H1.
Defined.

(** ** The statistics engine, further properties *)

Lemma insert_by_Permutation {A : Type} (le : A → A → bool) (x : A) (l : list A) :
  insert_by le x l ≡ₚ x :: l.
Proof.
  induction l as [|y l IH]; simpl; [done|].
  destruct (le x y); [done|]. rewrite IH. apply Permutation_swap.
Qed.

Lemma sort_by_Permutation {A : Type} (le : A → A → bool) (l : list A) :
  sort_by le l ≡ₚ l.
Proof.
  induction l as [|x l IH]; [done|].
  unfold sort_by in *. simpl. by rewrite insert_by_Permutation, IH.
Qed.

Lemma insert_pair_sorted (p : Q * nat) (l : list (Q * nat)) :
  StronglySorted (λ x y, (x.1 <= y.1)%Q) l →
  StronglySorted (λ x y, (x.1 <= y.1)%Q)
    (insert_by (λ x y, Qle_bool (fst x) (fst y)) p l).
Proof.
  induction 1 as [|y l Hl IH Hy]; simpl.
  - repeat constructor.
  - destruct (Qle_bool p.1 y.1) eqn:Hxy.
    + apply Qle_bool_iff in Hxy. constructor; [by constructor|].
      constructor; [done|].
      eapply Forall_impl; [exact Hy|]. intros z Hz. simpl in Hz. lra.
    + assert (y.1 <= p.1)%Q as Hyx.
      { apply Qnot_lt_le. intros Hlt. apply Qlt_le_weak in Hlt.
        apply Qle_bool_iff in Hlt. congruence. }
      constructor; [done|].
      apply Forall_forall. intros z Hz.
      apply elem_of_insert_by in Hz as [->|Hz]; [done|].
      rewrite Forall_forall in Hy. by apply Hy.
Qed.

Lemma argsort_pairs_sorted (xs : list Q) :
  StronglySorted (λ x y, (x.1 <= y.1)%Q) (argsort_pairs xs).
Proof.
  unfold argsort_pairs. induction (combine xs (seq 0 (length xs))) as [|p l IH];
    [constructor|].
  unfold sort_by in *. simpl. by apply insert_pair_sorted.
Qed.

Lemma StronglySorted_fst (l : list (Q * nat)) :
  StronglySorted (λ x y, (x.1 <= y.1)%Q) l → StronglySorted Qle (fst <$> l).
Proof.
  induction 1 as [|p l Hl IH Hp]; [constructor|].
  rewrite fmap_cons. constructor; [done|]. by apply Forall_fmap.
Qed.

(** The positions of [np.argsort] are a rearrangement of all positions. *)
Lemma argsort_of_Permutation (xs : list Q) :
  argsort_of xs ≡ₚ seq 0 (length xs).
Proof.
  unfold argsort_of, argsort_pairs. rewrite sort_by_Permutation.
  change (combine ?a ?b) with (zip a b).
  by rewrite snd_zip by (by rewrite length_seq).
Qed.

(** Reading the values in the order of [np.argsort] gives them
    ascending. *)
Lemma gather_argsort (xs : list Q) :
  gather (argsort_of xs) xs = fst <$> argsort_pairs xs.
Proof.
  unfold gather, argsort_of. rewrite <- list_fmap_compose.
  apply list_fmap_ext. intros k [x i] Hp. simpl.
  apply list_elem_of_lookup_2, elem_of_sort_by in Hp.
  change (combine ?a ?b) with (zip a b) in Hp.
  apply list_elem_of_lookup in Hp as [j Hj].
  rewrite lookup_zip_with in Hj.
  destruct (xs !! j) as [x'|] eqn:Hx; [|done]. simpl in Hj.
  destruct (seq 0 (length xs) !! j) as [i'|] eqn:Hi; [|done].
  injection Hj as <- <-. apply lookup_seq in Hi as [-> _].
  by apply nth_lookup_Some.
Qed.

Lemma gather_argsort_sorted (xs : list Q) :
  StronglySorted Qle (gather (argsort_of xs) xs).
Proof. rewrite gather_argsort. apply StronglySorted_fst, argsort_pairs_sorted. Qed.

Lemma np_argsort_of (a : ndarray) (u : nat) :
  nd_shape a = [u] → np_argsort a = Ok (argsort_of (nd_data a)).
Proof. intros Hshape. unfold np_argsort. by rewrite Hshape. Qed.

(** Stacking the slices of one layer: a matrix with one row per record. *)
Lemma np_vstack_vectors_data (vs : list ndarray) (U : nat) :
  vs ≠ [] →
  Forall (λ v, nd_shape v = [U]) vs →
  np_vstack vs = Ok (mk_ndarray [length vs; U] (concat (nd_data <$> vs))).
Proof.
  intros Hne Hvs.
  assert (H2d : Forall (λ b, nd_shape b = [1; U]%nat) (np_atleast_2d <$> vs)).
  { apply Forall_fmap. eapply Forall_impl; [exact Hvs|].
    intros v Hv. simpl. unfold np_atleast_2d. by rewrite Hv. }
  assert (Hdata : nd_data <$> (np_atleast_2d <$> vs) = nd_data <$> vs).
  { rewrite <- list_fmap_compose. apply Forall_fmap_ext_1.
    eapply Forall_impl; [exact Hvs|].
    intros v Hv. simpl. unfold np_atleast_2d. by rewrite Hv. }
  pose proof (sum_list_vectors vs U Hvs) as Hsum.
  unfold np_vstack.
  destruct (np_atleast_2d <$> vs) as [|a arrays2] eqn:Harrays.
  { destruct vs; [done | discriminate]. }
  pose proof (Forall_inv H2d) as Ha. simpl in Ha.
  rewrite decide_True.
  - rewrite Hsum, Hdata, Ha. done.
  - eapply Forall_impl; [exact H2d|]. intros b Hb. simpl in Hb.
    by rewrite Hb, Ha.
Qed.

(** The two percentiles of [compute_stats] are in the range of
    [np.percentile] for every [percent] from -100 to 100. *)
Lemma percentile_range_wide (percent : Q) :
  (-100 <= percent)%Q → (percent <= 100)%Q →
  Qle_bool 0 ((100 - percent) / 2) && Qle_bool ((100 - percent) / 2) 100 = true
  ∧ Qle_bool 0 (50 + percent / 2) && Qle_bool (50 + percent / 2) 100 = true.
Proof.
  intros H0 H100.
  assert ((100 - percent) / 2 == (100 - percent) * (1 # 2))%Q as -> by field.
  assert (percent / 2 == percent * (1 # 2))%Q as -> by field.
  rewrite !andb_true_iff, !Qle_bool_iff. repeat split; lra.
Qed.

Section StatsOrder.
Variable std_of : list Q → Q.
Variables (states : list ndarray) (L U : nat) (percent : Q).
Hypothesis states_nonempty : states ≠ [].
Hypothesis states_shape : Forall (λ s, nd_shape s = [L; U]) states.
Hypothesis percent_lower : (-100 <= percent)%Q.
Hypothesis percent_upper : (percent <= 100)%Q.

Lemma unit_stat_length (g : list Q → Q) (k : nat) :
  length (unit_stat g U states k) = U.
Proof.
  unfold unit_stat, nd_columns. rewrite !length_fmap, length_seq. simpl. lia.
Qed.

Lemma unit_order_length (k : nat) : length (unit_order U states k) = U.
Proof.
  unfold unit_order.
  rewrite (Permutation_length (argsort_of_Permutation _)), length_seq.
  apply unit_stat_length.
Qed.

Lemma unit_order_bound (k i : nat) :
  i ∈ unit_order U states k → (i < U)%nat.
Proof.
  unfold unit_order. rewrite argsort_of_Permutation, unit_stat_length.
  intros Hi. apply elem_of_seq in Hi. lia.
Qed.

Lemma compute_stats_layer_run (sort_by_mean : bool) (st : stats)
    (idx : option (list nat)) (k : nat) :
  (k < L)%nat →
  compute_stats_layer std_of states sort_by_mean percent (st, idx) k
  = let idx' := if sort_by_mean then Some (unit_order U states k) else idx in
    Ok (mk_stats
          (means st ++ [layer_stat mean_value sort_by_mean U states k])
          (stds st ++ [layer_stat std_of sort_by_mean U states k])
          (errors_l st ++ [layer_stat (band_l percent) sort_by_mean U states k])
          (errors_u st ++ [layer_stat (band_u percent) sort_by_mean U states k])
          (indices st ++ [idx']),
        idx').
Proof.
  intros Hk. unfold compute_stats_layer.
  rewrite (layer_slices states L U states_shape k Hk), bind_Ok.
  rewrite (np_vstack_vectors_data _ U);
    [|by destruct states | by apply Forall_fmap, Forall_forall].
  rewrite bind_Ok, length_fmap, <- list_fmap_compose.
  change (mk_ndarray [length states; U] _) with (layer_mat U states k).
  set (mat := layer_mat U states k).
  assert (Hshape : nd_shape mat = [length states; U]) by done.
  assert (Hrows : length states ≠ 0%nat) by (by destruct states).
  destruct (percentile_range_wide percent percent_lower percent_upper)
    as [Hrange_l Hrange_u].
  unfold np_std_axis0, np_mean_axis0, np_percentile_axis0.
  rewrite (nd_reduce_axis0_columns _ std_of mat _ _ (λ _ _, eq_refl) Hshape Hrows),
    bind_Ok.
  rewrite (nd_reduce_axis0_columns _ mean_value mat _ _ mean_of_value Hshape Hrows),
    bind_Ok.
  rewrite (nd_reduce_axis0_columns _ (percentile_linear ((100 - percent) / 2)) mat _ _
             (λ xs, percentile_of_linear ((100 - percent) / 2)%Q xs Hrange_l)
             Hshape Hrows), bind_Ok.
  rewrite nd_sub_same_shape by done. rewrite bind_Ok.
  rewrite (nd_reduce_axis0_columns _ (percentile_linear (50 + percent / 2)) mat _ _
             (λ xs, percentile_of_linear (50 + percent / 2)%Q xs Hrange_u)
             Hshape Hrows), bind_Ok.
  rewrite nd_sub_same_shape by done. rewrite bind_Ok.
  cbn [nd_shape nd_data]. rewrite !zip_with_fmap_same.
  fold (band_l percent) (band_u percent).
  change (?g <$> nd_columns mat) with (unit_stat g U states k).
  destruct sort_by_mean; [|done].
  rewrite (np_argsort_of _ U) by done. rewrite bind_Ok.
  cbn [nd_data]. fold (unit_order U states k).
  assert (Hgather : ∀ g,
            nd_permute (mk_ndarray [U] (unit_stat g U states k))
              (unit_order U states k)
            = Ok (layer_stat g true U states k)).
  { intros g. rewrite (nd_permute_gather _ U) by
      (done || (intros i Hi; simpl; rewrite unit_stat_length;
                by eapply unit_order_bound)).
    by rewrite unit_order_length. }
  by rewrite !Hgather, !bind_Ok.
Qed.

Lemma compute_stats_run (sort_by_mean : bool) :
  compute_stats std_of states sort_by_mean percent
  = Ok (stats_of std_of states sort_by_mean percent L U).
Proof.
  assert (∃ s0, states !! 0%nat = Some s0 ∧ nd_shape s0 = [L; U])
    as (s0 & Hstates & Hs0).
  { pose proof states_shape as Hshape. pose proof states_nonempty as Hne.
    destruct states as [|s0 states']; [done|].
    exists s0. split; [done|]. by apply Forall_inv in Hshape. }
  pose (P := λ (k : nat) (acc : stats * option (list nat)),
          acc.1 = stats_of std_of states sort_by_mean percent k U
          ∧ (sort_by_mean = false → acc.2 = None)).
  destruct (for_each_seq_invariant P
              (compute_stats_layer std_of states sort_by_mean percent) L
              (mk_stats [] [] [] [] [], None))
    as ([st idx] & Hloop & Hst & _).
  { by split. }
  { intros k [st idx] Hk [Hst Hidx]. simpl in Hst, Hidx.
    rewrite (compute_stats_layer_run sort_by_mean st idx k Hk).
    eexists. split; [done|]. unfold P. cbn [fst snd]. split.
    - rewrite Hst. unfold stats_of. cbn [means stds errors_l errors_u indices].
      rewrite !seq_S, !fmap_app. simpl. f_equal.
      destruct sort_by_mean; [done|]. by rewrite Hidx.
    - intros ->. by apply Hidx. }
  unfold compute_stats.
  rewrite (py_getitem_0 states s0) by done. rewrite bind_Ok.
  rewrite (py_getitem_0 (nd_shape s0) L) by (by rewrite Hs0). rewrite bind_Ok.
  unfold py_range. rewrite Nat2Z.id, Hloop. simpl in *. by rewrite Hst.
Qed.

End StatsOrder.

Lemma nth_slice (s : ndarray) (L U k u : nat) :
  nd_shape s = [L; U] → (u < U)%nat →
  nth u (nd_slice s k) 0%Q = nth (k * U + u) (nd_data s) 0%Q.
Proof.
  intros Hshape Hu. unfold nd_slice. rewrite Hshape. simpl.
  rewrite Nat.mul_1_r, !nth_lookup, lookup_take, lookup_drop.
  by rewrite decide_True.
Qed.

Lemma layer_mat_column (states : list ndarray) (L U k u : nat) :
  Forall (λ s, nd_shape s = [L; U] ∧ length (nd_data s) = (L * U)%nat) states →
  (k < L)%nat → (u < U)%nat →
  nd_column (layer_mat U states k) u = unit_values U states k u.
Proof.
  intros Hall Hk Hu.
  pose proof (nd_column_stack ((λ s, mk_ndarray [U] (nd_slice s k)) <$> states)
                [U] u) as Hcol.
  rewrite length_fmap, <- !list_fmap_compose in Hcol.
  unfold layer_mat. simpl in Hcol. rewrite Nat.mul_1_r in Hcol.
  unfold compose in Hcol. simpl in Hcol.
  rewrite Hcol; [|apply Forall_fmap|done].
  - unfold unit_values. apply Forall_fmap_ext_1.
    eapply Forall_impl; [exact Hall|]. intros s [Hshape _]. simpl.
    by apply (nth_slice s L).
  - eapply Forall_impl; [exact Hall|]. intros s [Hshape Hlen]. simpl.
    unfold nd_slice. rewrite Hshape. simpl.
    rewrite length_take, length_drop, Nat.mul_1_r. nia.
Qed.

(** A statistic of the units of a layer as [compute_stats] returns it,
    read unit by unit in the order of the units or in the order of their
    means. *)
Lemma unit_stat_in_order (states : list ndarray) (L U : nat) (g : list Q → Q)
    (sort_by_mean : bool) (k : nat) :
  Forall (λ s, nd_shape s = [L; U] ∧ length (nd_data s) = (L * U)%nat) states →
  (k < L)%nat →
  (if sort_by_mean
   then gather (unit_order U states k) (unit_stat g U states k)
   else unit_stat g U states k)
  = (λ u, g (unit_values U states k u))
      <$> (if sort_by_mean then unit_order U states k else seq 0 U).
Proof.
  intros Hall Hk.
  assert (Hstat : unit_stat g U states k
                  = (λ u, g (unit_values U states k u)) <$> seq 0 U).
  { unfold unit_stat, nd_columns. simpl. rewrite Nat.mul_1_r.
    rewrite <- list_fmap_compose.
    apply list_fmap_ext. intros i u Hu. apply lookup_seq in Hu as [-> Hu].
    simpl. by rewrite (layer_mat_column states L U k). }
  destruct sort_by_mean; [|done].
  unfold gather. apply list_fmap_ext. intros i u Hu.
  apply list_elem_of_lookup_2, (unit_order_bound states U) in Hu.
  rewrite Hstat. apply nth_lookup_Some.
  by rewrite list_lookup_fmap, lookup_seq_lt.
Qed.

(** C6, as the code has it.  For every [percent] from 0 to 100, every
    non-empty sequence of states of one shape (layers, units) and either
    setting of [sort_by_mean], [compute_stats] returns, for every layer, a
    lower and an upper error band with one entry per unit: the lower band
    of a unit is the mean of the values of the unit minus their
    [(100-percent)/2] percentile, its upper band is their [50+percent/2]
    percentile minus the mean.  The units come in their own order, or,
    with [sort_by_mean], in one rearrangement that is the same for both
    bands.  Nothing makes a band non-negative: it is negative when the
    mean lies on the far side of the percentile. *)
Theorem compute_stats_bands (std_of : list Q → Q)
    (states : list ndarray) (sort_by_mean : bool) (percent : Q) (L U : nat) :
  states ≠ [] →
  Forall (λ s, nd_shape s = [L; U] ∧ length (nd_data s) = (L * U)%nat) states →
  (0 <= percent)%Q → (percent <= 100)%Q →
  ∃ st,
    compute_stats std_of states sort_by_mean percent = Ok st
    ∧ length (errors_l st) = L
    ∧ length (errors_u st) = L
    ∧ ∀ k, (k < L)%nat →
        ∃ order,
          order ≡ₚ seq 0 U
          ∧ (sort_by_mean = false → order = seq 0 U)
          ∧ errors_l st !! k
            = Some (mk_ndarray [U]
                      ((λ u, band_l percent (unit_values U states k u))
                         <$> order))
          ∧ errors_u st !! k
            = Some (mk_ndarray [U]
                      ((λ u, band_u percent (unit_values U states k u))
                         <$> order)).
Proof.
  intros Hne Hall Hp0 Hp100.
  assert (Hshape : Forall (λ s, nd_shape s = [L; U]) states)
    by (eapply Forall_impl; [exact Hall | by intros s [? _]]).
  assert (Hlow : (-100 <= percent)%Q) by lra.
  eexists. split; [by apply (compute_stats_run std_of states L U percent)|].
  unfold stats_of. cbn [errors_l errors_u].
  rewrite !length_fmap, length_seq. split; [done|]. split; [done|].
  intros k Hk.
  exists (if sort_by_mean then unit_order U states k else seq 0 U).
  split; [|split].
  - destruct sort_by_mean; [|done].
    unfold unit_order. rewrite argsort_of_Permutation.
    by rewrite (unit_stat_length states U).
  - by intros ->.
  - rewrite !list_lookup_fmap, lookup_seq_lt by done. simpl.
    split; f_equal; unfold layer_stat; f_equal;
      apply (unit_stat_in_order states L U _ sort_by_mean k Hall Hk).
Qed.

Lemma compute_stats_bands_witness :
  ∃ st,
    compute_stats Example.no_std Example.skewed true 50 = Ok st
    ∧ length (errors_l st) = 1%nat
    ∧ length (errors_u st) = 1%nat.
Proof.
  destruct (compute_stats_bands Example.no_std Example.skewed true 50 1 1)
    as (st & Hrun & Hl & Hu & _).
  - discriminate.
  - repeat constructor.
  - discriminate.
  - discriminate.
  - exists st. split; [exact Hrun|]. split; [exact Hl | exact Hu].
Defined.

(** X20. Without sorting, [compute_stats] returns per layer the mean and the
    standard deviation of every unit over the records, in the order of the
    units, and no index: [means[k][u]] is the mean of the values that the
    records hold for unit [u] of layer [k].  The records are non-empty
    arrays of one shape (layers, units) and the arithmetic is exact. *)
Theorem compute_stats_unit_means (std_of : list Q → Q)
    (states : list ndarray) (percent : Q) (L U : nat) :
  states ≠ [] →
  Forall (λ s, nd_shape s = [L; U] ∧ length (nd_data s) = (L * U)%nat) states →
  (-100 <= percent)%Q → (percent <= 100)%Q →
  ∃ st,
    compute_stats std_of states false percent = Ok st
    ∧ indices st = replicate L None
    ∧ ∀ k, (k < L)%nat →
        means st !! k
        = Some (mk_ndarray [U]
                  ((λ u, mean_value (unit_values U states k u)) <$> seq 0 U))
        ∧ stds st !! k
          = Some (mk_ndarray [U]
                    ((λ u, std_of (unit_values U states k u)) <$> seq 0 U)).
Proof.
  intros Hne Hall Hp0 Hp100.
  assert (Hshape : Forall (λ s, nd_shape s = [L; U]) states)
    by (eapply Forall_impl; [exact Hall | by intros s [? _]]).
  eexists. split; [by apply (compute_stats_run std_of states L U percent)|].
  unfold stats_of. cbn [means stds indices]. split.
  - clear. induction L as [|n IH]; [done|].
    rewrite seq_S, fmap_app, IH. simpl.
    by rewrite <- replicate_S_end.
  - intros k Hk. rewrite !list_lookup_fmap, lookup_seq_lt by done. simpl.
    unfold layer_stat, unit_stat, nd_columns. simpl. rewrite Nat.mul_1_r.
    rewrite <- !list_fmap_compose.
    split; do 2 f_equal; apply list_fmap_ext; intros i u Hu;
      apply lookup_seq in Hu as [-> Hu]; simpl;
      by rewrite (layer_mat_column states L U k).
Qed.

Lemma compute_stats_unit_means_witness :
  ∃ st,
    compute_stats Example.no_std Sample.states3 false 50 = Ok st
    ∧ indices st = [None; None]
    ∧ means st !! 1%nat
      = Some (mk_ndarray [2%nat]
                [mean_value [3; 6; 0]%Q; mean_value [4; 8; 1]%Q]).
Proof.
  destruct (compute_stats_unit_means Example.no_std Sample.states3 50 2 2)
    as (st & Hrun & Hidx & Hmeans).
  - discriminate.
  - repeat constructor.
  - discriminate.
  - discriminate.
  - exists st. split; [exact Hrun|]. split; [exact Hidx|].
    destruct (Hmeans 1%nat) as [Hmean _]; [lia | exact Hmean].
Defined.

(** X21. With [sort_by_mean], [compute_stats] reorders the units of every
    layer by their mean: the index of a layer is a rearrangement of all
    unit numbers, the means of the layer are ascending, and the means, the
    standard deviations and the two error bands of the layer are those of
    the unsorted call, all four read in the order of that index. *)
Theorem compute_stats_sorts_by_mean (std_of : list Q → Q)
    (states : list ndarray) (percent : Q) (L U : nat) :
  states ≠ [] →
  Forall (λ s, nd_shape s = [L; U]) states →
  (-100 <= percent)%Q → (percent <= 100)%Q →
  ∃ unsorted sorted,
    compute_stats std_of states false percent = Ok unsorted
    ∧ compute_stats std_of states true percent = Ok sorted
    ∧ ∀ k, (k < L)%nat →
        ∃ idx,
          indices sorted !! k = Some (Some idx)
          ∧ idx ≡ₚ seq 0 U
          ∧ Forall (λ sel : stats → list ndarray,
                      ∃ a0 a, sel unsorted !! k = Some a0
                              ∧ sel sorted !! k = Some a
                              ∧ nd_shape a = [U]
                              ∧ nd_data a = gather idx (nd_data a0))
              [means; stds; errors_l; errors_u]
          ∧ ∃ mean, means sorted !! k = Some mean
                    ∧ StronglySorted Qle (nd_data mean).
Proof.
  intros Hne Hshape Hp0 Hp100.
  eexists _, _.
  split; [by apply (compute_stats_run std_of states L U percent)|].
  split; [by apply (compute_stats_run std_of states L U percent)|].
  intros k Hk. exists (unit_order U states k).
  unfold stats_of. cbn [means stds errors_l errors_u indices].
  split; [by rewrite list_lookup_fmap, lookup_seq_lt|]. split.
  - unfold unit_order. rewrite argsort_of_Permutation.
    by rewrite (unit_stat_length states U).
  - split.
    + repeat (apply Forall_cons; split;
                [eexists _, _; cbn beta; cbn [means stds errors_l errors_u];
                 rewrite !list_lookup_fmap, lookup_seq_lt by done; done|]).
      apply Forall_nil_2.
    + eexists. rewrite list_lookup_fmap, lookup_seq_lt by done.
      split; [done|]. apply gather_argsort_sorted.
Qed.

Lemma compute_stats_sorts_by_mean_witness :
  ∃ sorted idx mean,
    compute_stats Example.no_std Sample.states3 true 50 = Ok sorted
    ∧ indices sorted !! 0%nat = Some (Some idx)
    ∧ idx ≡ₚ [0; 1]%nat
    ∧ means sorted !! 0%nat = Some mean
    ∧ StronglySorted Qle (nd_data mean).
Proof.
  destruct (compute_stats_sorts_by_mean Example.no_std Sample.states3 50 2 2)
    as (unsorted & sorted & _ & Hrun & Hall).
  - discriminate.
  - repeat constructor.
  - discriminate.
  - discriminate.
  - destruct (Hall 0%nat) as (idx & Hidx & Hperm & _ & mean & Hmean & Hsorted);
      [lia|].
    exists sorted, idx, mean. done.
Defined.

Lemma nd_reduce_axis0_raises (f : list Q → result Q) (mat : ndarray)
    (n u : nat) (e : exn) :
  nd_shape mat = [n; S u] →
  (∀ xs, f xs = Raise e) →
  nd_reduce_axis0 f mat = Raise e.
Proof.
  intros Hshape Hf. unfold nd_reduce_axis0. rewrite Hshape.
  cbn [nd_size fold_right]. rewrite Nat.mul_1_r. simpl. by rewrite Hf.
Qed.

(** X22. The range of [percent] that [compute_stats] accepts is -100 to 100,
    the values for which both percentiles, [(100-percent)/2] and
    [50+percent/2], lie between 0 and 100: for records of one shape with
    at least one layer and one unit the call returns for such a [percent],
    also a negative one, and raises the [ValueError] of [np.percentile]
    for every other. *)
Theorem compute_stats_percent_range (std_of : list Q → Q)
    (states : list ndarray) (sort_by_mean : bool) (percent : Q) (L U : nat) :
  states ≠ [] →
  Forall (λ s, nd_shape s = [L; U]) states →
  (0 < L)%nat → (0 < U)%nat →
  if Qle_bool (-100) percent && Qle_bool percent 100
  then ∃ st, compute_stats std_of states sort_by_mean percent = Ok st
             ∧ length (means st) = L
  else compute_stats std_of states sort_by_mean percent = Raise percentile_error.
Proof.
  intros Hne Hshape HL HU.
  destruct (Qle_bool (-100) percent && Qle_bool percent 100) eqn:Hrange.
  - apply andb_true_iff in Hrange as [Hlo Hhi].
    apply Qle_bool_iff in Hlo, Hhi.
    eexists. split; [by apply (compute_stats_run std_of states L U percent)|].
    unfold stats_of. cbn [means]. by rewrite length_fmap, length_seq.
  - assert (∃ s0, states !! 0%nat = Some s0 ∧ nd_shape s0 = [L; U])
      as (s0 & Hstates & Hs0).
    { destruct states as [|s0 states']; [done|].
      exists s0. split; [done|]. by apply Forall_inv in Hshape. }
    unfold compute_stats.
    rewrite (py_getitem_0 states s0) by done. rewrite bind_Ok.
    rewrite (py_getitem_0 (nd_shape s0) L) by (by rewrite Hs0). rewrite bind_Ok.
    unfold py_range. rewrite Nat2Z.id.
    destruct L as [|L']; [lia|]. destruct U as [|U']; [lia|].
    rewrite <- cons_seq. cbn [for_each].
    assert (compute_stats_layer std_of states sort_by_mean percent
              (mk_stats [] [] [] [] [], None) 0 = Raise percentile_error) as ->;
      [|done].
    unfold compute_stats_layer.
    rewrite (layer_slices states (S L') (S U') Hshape 0) by lia. rewrite bind_Ok.
    rewrite (np_vstack_vectors_data _ (S U'));
      [|by destruct states | by apply Forall_fmap, Forall_forall].
    rewrite bind_Ok, length_fmap.
    set (mat := mk_ndarray _ _).
    assert (Hmat : nd_shape mat = [length states; S U']) by done.
    assert (Hrows : length states ≠ 0%nat) by (by destruct states).
    unfold np_std_axis0, np_mean_axis0, np_percentile_axis0.
    rewrite (nd_reduce_axis0_columns _ std_of mat _ _ (λ _ _, eq_refl) Hmat Hrows),
      bind_Ok.
    rewrite (nd_reduce_axis0_columns _ mean_value mat _ _ mean_of_value Hmat Hrows),
      bind_Ok.
    rewrite (nd_reduce_axis0_raises (percentile_of ((100 - percent) / 2)) mat
               (length states) U' percentile_error Hmat); [done|].
    intros xs. unfold percentile_of.
    assert (Qle_bool 0 ((100 - percent) / 2)
            && Qle_bool ((100 - percent) / 2) 100 = false) as ->; [|done].
    apply andb_false_iff in Hrange. apply andb_false_iff.
    assert ((100 - percent) / 2 == (100 - percent) * (1 # 2))%Q as Hhalf by field.
    destruct Hrange as [Hlo|Hhi]; [right | left];
      apply not_true_iff_false; intros Hq; apply Qle_bool_iff in Hq;
      rewrite Hhalf in Hq.
    + apply not_true_iff_false in Hlo. apply Hlo, Qle_bool_iff. lra.
    + apply not_true_iff_false in Hhi. apply Hhi, Qle_bool_iff. lra.
Qed.

Lemma compute_stats_percent_range_witness :
  (∃ st, compute_stats Example.no_std Sample.states3 true (-50) = Ok st
         ∧ length (means st) = 2%nat)
  ∧ compute_stats Example.no_std Sample.states3 true 101
    = Raise percentile_error.
Proof.
  split.
  - apply (compute_stats_percent_range Example.no_std Sample.states3 true (-50)
             2 2); [discriminate | repeat constructor | lia | lia].
  - apply (compute_stats_percent_range Example.no_std Sample.states3 true 101
             2 2); [discriminate | repeat constructor | lia | lia].
Defined.

(** ** The small array helpers *)

Lemma lookup_bind_blocks {A B : Type} (g : A → list B) (m : nat) (l : list A)
    (i j : nat) (x : A) :
  (∀ y, length (g y) = m) →
  l !! i = Some x → (j < m)%nat →
  (l ≫= g) !! (i * m + j)%nat = g x !! j.
Proof.
  intros Hg. revert i. induction l as [|y l IH]; intros i Hi Hj; [done|].
  change ((y :: l) ≫= g) with (g y ++ (l ≫= g)).
  destruct i as [|i].
  - injection Hi as ->. simpl. by rewrite lookup_app_l by (rewrite Hg; lia).
  - rewrite lookup_app_r by (rewrite Hg; lia). rewrite Hg.
    replace (S i * m + j - m)%nat with (i * m + j)%nat by lia.
    by apply IH.
Qed.

Lemma length_bind_blocks {A B : Type} (g : A → list B) (m : nat) (l : list A) :
  (∀ y, length (g y) = m) → length (l ≫= g) = (length l * m)%nat.
Proof.
  intros Hg. induction l as [|y l IH]; [done|].
  change ((y :: l) ≫= g) with (g y ++ (l ≫= g)).
  rewrite length_app, Hg, IH. simpl. lia.
Qed.

Lemma dot_comm (xs ys : list Q) : dot xs ys = dot ys xs.
Proof.
  unfold dot. f_equal. revert ys.
  induction xs as [|x xs IH]; intros [|y ys]; simpl; try done.
  f_equal; [|apply IH].
  unfold Qmult. by rewrite Z.mul_comm, Pos.mul_comm.
Qed.

Lemma dot_self_nonneg (xs : list Q) : (0 <= dot xs xs)%Q.
Proof.
  unfold dot. induction xs as [|x xs IH]; simpl; [done|].
  assert (0 <= x * x)%Q by nra. lra.
Qed.

(** X24. [cal_similar1] of a matrix of [n] rows is a symmetric [n] by [n]
    matrix: its entry in row [i] and column [j] is the sum of the products
    of the entries of rows [i] and [j], the same as in row [j] and column
    [i], and no entry of the diagonal is negative. *)
Theorem cal_similar1_symmetric (array : ndarray) (n m : nat) :
  nd_shape array = [n; m] →
  ∃ similar,
    cal_similar1 array = Ok similar
    ∧ nd_shape similar = [n; n]
    ∧ length (nd_data similar) = (n * n)%nat
    ∧ ∀ i j, (i < n)%nat → (j < n)%nat →
        nd_data similar !! (i * n + j)%nat
        = Some (dot (nd_slice array i) (nd_slice array j))
        ∧ nd_data similar !! (i * n + j)%nat
          = nd_data similar !! (j * n + i)%nat
        ∧ (0 <= dot (nd_slice array i) (nd_slice array i))%Q.
Proof.
  intros Hshape. unfold cal_similar1. rewrite Hshape.
  eexists. split; [done|]. split; [done|]. cbn [nd_data].
  set (row := λ i, seq 0 n ≫= λ j, [dot (nd_slice array i) (nd_slice array j)]).
  assert (Hrow : ∀ i, length (row i) = n).
  { intros i. unfold row. rewrite (length_bind_blocks _ 1); [|done].
    rewrite length_seq. lia. }
  assert (Hentry : ∀ i j, (i < n)%nat → (j < n)%nat →
            (seq 0 n ≫= row) !! (i * n + j)%nat
            = Some (dot (nd_slice array i) (nd_slice array j))).
  { intros i j Hi Hj.
    rewrite (lookup_bind_blocks row n _ i j i Hrow); [|by apply lookup_seq_lt|done].
    unfold row.
    replace j with (j * 1 + 0)%nat at 1 by lia.
    rewrite (lookup_bind_blocks _ 1 _ j 0 j); [done | done | | lia].
    by apply lookup_seq_lt. }
  split.
  - rewrite (length_bind_blocks row n); [|done]. by rewrite length_seq.
  - intros i j Hi Hj. split; [by apply Hentry|]. split.
    + rewrite !Hentry by done. by rewrite dot_comm.
    + apply dot_self_nonneg.
Qed.

Lemma cal_similar1_symmetric_witness :
  ∃ similar,
    cal_similar1 (Example.state2x2 1 2 3 4) = Ok similar
    ∧ nd_shape similar = [2; 2]%nat
    ∧ nd_data similar !! 1%nat = nd_data similar !! 2%nat.
Proof.
  destruct (cal_similar1_symmetric (Example.state2x2 1 2 3 4) 2 2)
    as (similar & Hrun & Hshape & _ & Hall); [reflexivity|].
  exists similar. split; [exact Hrun|]. split; [exact Hshape|].
  destruct (Hall 0%nat 1%nat) as (_ & Hsym & _); [lia | lia | exact Hsym].
Defined.

Lemma take_1_drop {A : Type} (l : list A) (i : nat) (d : A) :
  (i < length l)%nat → take 1 (drop i l) = [nth i l d].
Proof.
  intros Hi. destruct (lookup_lt_is_Some_2 l i Hi) as [x Hx].
  rewrite (drop_S _ _ _ Hx). simpl. rewrite take_0.
  by rewrite (nth_lookup_Some _ _ _ _ Hx).
Qed.

(** The value of one unit of one layer in a state of shape (layers,
    units), the two indices counted from the end when negative. *)
Lemma state_value (s : ndarray) (L U : nat) (layer dim : Z) :
  nd_shape s = [L; U] → length (nd_data s) = (L * U)%nat →
  - Z.of_nat L ≤ layer < Z.of_nat L →
  - Z.of_nat U ≤ dim < Z.of_nat U →
  (row ← nd_getitem s layer; nd_getitem row dim)
  = Ok (mk_ndarray []
          [nth (Z.to_nat (py_wrap L layer) * U + Z.to_nat (py_wrap U dim))
               (nd_data s) 0%Q]).
Proof.
  intros Hshape Hlen Hlayer Hdim.
  assert (nd_getitem s layer
          = Ok (mk_ndarray [U] (nd_slice s (Z.to_nat (py_wrap L layer))))) as ->.
  { unfold nd_getitem. by rewrite Hshape, (py_position_wrap L layer Hlayer). }
  rewrite bind_Ok. unfold nd_getitem. cbn [nd_shape].
  rewrite (py_position_wrap U dim Hdim). do 2 f_equal.
  pose proof (py_wrap_range L layer Hlayer) as Hl.
  pose proof (py_wrap_range U dim Hdim) as Hd.
  set (l := Z.to_nat (py_wrap L layer)). set (d := Z.to_nat (py_wrap U dim)).
  assert (l < L)%nat by lia. assert (d < U)%nat by lia.
  unfold nd_slice at 1. cbn [nd_shape nd_data tail nd_size fold_right].
  rewrite Nat.mul_1_r.
  rewrite (take_1_drop _ d 0%Q).
  - f_equal. unfold nd_slice. rewrite Hshape. simpl. rewrite Nat.mul_1_r.
    rewrite !nth_lookup, lookup_take, lookup_drop. by rewrite decide_True.
  - unfold nd_slice. rewrite Hshape. simpl.
    rewrite length_take, length_drop, Nat.mul_1_r. nia.
Qed.

(** X26. [get_state_value] of states of one shape (layers, units) returns
    one number per state, in the order of the states: the value of the
    unit [dim] of the layer [layer], both counted from the end when
    negative.  A layer or a unit out of range raises [IndexError] as soon
    as there is a state. *)
Theorem get_state_value_entries (states : list ndarray) (L U : nat)
    (layer dim : Z) :
  Forall (λ s, nd_shape s = [L; U] ∧ length (nd_data s) = (L * U)%nat) states →
  (- Z.of_nat L ≤ layer < Z.of_nat L ∧ - Z.of_nat U ≤ dim < Z.of_nat U →
   get_state_value states layer dim
   = Ok ((λ s, mk_ndarray []
                 [nth (Z.to_nat (py_wrap L layer) * U + Z.to_nat (py_wrap U dim))
                      (nd_data s) 0%Q]) <$> states))
  ∧ (states ≠ [] →
     ¬ (- Z.of_nat L ≤ layer < Z.of_nat L ∧ - Z.of_nat U ≤ dim < Z.of_nat U) →
     get_state_value states layer dim = Raise IndexError).
Proof.
  intros Hall. split.
  - intros [Hlayer Hdim]. unfold get_state_value.
    apply map_result_Ok. intros s Hs.
    rewrite Forall_forall in Hall. destruct (Hall s Hs) as [Hshape Hlen].
    by apply (state_value s L U).
  - intros Hne Hrange. unfold get_state_value.
    destruct states as [|s states]; [done|].
    apply Forall_inv in Hall as [Hshape _].
    cbn [map_result].
    assert (nd_getitem s layer
            = match py_position L layer with
              | Some k => Ok (mk_ndarray [U] (nd_slice s k))
              | None => Raise IndexError
              end) as -> by (unfold nd_getitem; by rewrite Hshape).
    destruct (py_position L layer) as [l|] eqn:Hl; [|done].
    rewrite bind_Ok. unfold nd_getitem. cbn [nd_shape].
    destruct (py_position U dim) as [d|] eqn:Hd; [|done].
    exfalso. apply Hrange. split; apply py_position_is_Some; eauto.
Qed.

Lemma get_state_value_entries_witness :
  get_state_value Sample.states3 (-1) 0
  = Ok [mk_ndarray [] [3%Q]; mk_ndarray [] [6%Q]; mk_ndarray [] [0%Q]]
  ∧ get_state_value Sample.states3 2 0 = Raise IndexError.
Proof.
  destruct (get_state_value_entries Sample.states3 2 2 (-1) 0) as [Hok _];
    [repeat constructor|].
  destruct (get_state_value_entries Sample.states3 2 2 2 0) as [_ Hraise];
    [repeat constructor|].
  split.
  - rewrite Hok by lia. reflexivity.
  - apply Hraise; [discriminate | lia].
Defined.

(** ** The caches, a miss *)

Section CacheMiss.
Variable get_path : string → string → string.
Variables data_name model_name state_name : string.

Local Abbreviation word_path :=
  (get_path _tmp_dir (words_file_name data_name model_name)).
Local Abbreviation states_path diff :=
  (get_path _tmp_dir (states_file_name data_name model_name state_name diff)).

(** X12. When one of its two files is missing and the call returns,
    [load_words_and_state] has read neither file: what it returns is what
    [fetch_states] returned for the one state name, after a query of the
    database, and the words and the states are stored under the two names,
    replacing a words file that was there. *)
Theorem load_words_and_state_miss (db : database) (diff : bool) (w w' : world)
    (words : list Z) (states : list state_item) :
  files w !! word_path = None ∨ files w !! states_path diff = None →
  load_words_and_state get_path db data_name model_name state_name diff w
  = (Ok (words, states), w') →
  fetch_states db data_name model_name (FieldName state_name) (DiffFlag diff)
  = Ok (words, states)
  ∧ DatabaseQuery data_name model_name ∈ events w'
  ∧ (∀ p, FileRead p ∉ events w → FileRead p ∉ events w')
  ∧ files w'
    = <[states_path diff := PickledStates states]>
        (<[word_path := PickledWords words]> (files w)).
Proof.
  intros Hmiss. unfold load_words_and_state.
  fold (words_file_name data_name model_name).
  fold (states_file_name data_name model_name state_name diff).
  unfold mbind, IO_bind, file_exists, read_pickle, write_pickle, before_save,
    io_log, io_lift, mret, IO_ret.
  simpl.
  assert (Hevents : ∀ (l : list event) (p : string),
            FileRead p ∉ events w →
            Forall (λ ev, ∀ q, ev ≠ FileRead q) l →
            FileRead p ∉ events w ++ l).
  { intros l p Hp Hl Hin. apply elem_of_app in Hin as [Hin|Hin]; [done|].
    rewrite Forall_forall in Hl. by apply (Hl _ Hin p). }
  destruct (files w !! word_path) as [bw|] eqn:Hw; simpl.
  - destruct Hmiss as [?|Hs]; [done|]. rewrite Hs. simpl.
    destruct (fetch_states _ _ _ _ _) as [[ws ss]|e]; simpl; [|discriminate].
    intros [= <- <- <-]. simpl. split; [done|]. split; [|split; [|done]].
    + rewrite !elem_of_app, !elem_of_cons. naive_solver.
    + intros p Hp. rewrite <- !app_assoc. apply Hevents; [done|].
      repeat (apply Forall_cons; split; [by intros q|]). apply Forall_nil_2.
  - clear Hmiss.
    destruct (fetch_states _ _ _ _ _) as [[ws ss]|e]; simpl; [|discriminate].
    intros [= <- <- <-]. simpl. split; [done|]. split; [|split; [|done]].
    + rewrite !elem_of_app, !elem_of_cons. naive_solver.
    + intros p Hp. rewrite <- !app_assoc. apply Hevents; [done|].
      repeat (apply Forall_cons; split; [by intros q|]). apply Forall_nil_2.
Qed.

End CacheMiss.

Lemma load_words_and_state_miss_witness :
  ∃ words states w',
    load_words_and_state Example.get_path Example.db "ptb" "GRU" "state_c" true
      Example.empty_world = (Ok (words, states), w')
    ∧ fetch_states Example.db "ptb" "GRU" (FieldName "state_c") (DiffFlag true)
      = Ok (words, states)
    ∧ DatabaseQuery "ptb" "GRU" ∈ events w'.
Proof.
  destruct (load_words_and_state Example.get_path Example.db "ptb" "GRU"
              "state_c" true Example.empty_world)
    as [[[words states]|e] w'] eqn:Hrun; [|vm_compute in Hrun; discriminate].
  destruct (load_words_and_state_miss Example.get_path "ptb" "GRU" "state_c"
              Example.db true Example.empty_world w' words states)
    as (Hfetch & Hquery & _); [left; reflexivity | exact Hrun |].
  exists words, states, w'. split; [reflexivity|]. split; [exact Hfetch | exact Hquery].
Defined.

(** X23. The edges of [compute_stats]: without states it raises
    [IndexError]; when the first state has no layer it returns five empty
    lists, whatever the other states are. *)
Theorem compute_stats_no_layers (std_of : list Q → Q) (sort_by_mean : bool)
    (percent : Q) :
  compute_stats std_of [] sort_by_mean percent = Raise IndexError
  ∧ ∀ state0 states rest,
      nd_shape state0 = 0%nat :: rest →
      compute_stats std_of (state0 :: states) sort_by_mean percent
      = Ok (mk_stats [] [] [] [] []).
Proof.
  split; [done|]. intros state0 states rest Hshape.
  unfold compute_stats. rewrite (py_getitem_0 _ state0) by done.
  rewrite bind_Ok, Hshape. done.
Qed.

Lemma compute_stats_no_layers_witness :
  compute_stats Example.no_std [mk_ndarray [0; 2]%nat []; Example.state1x1 3]
    true 50
  = Ok (mk_stats [] [] [] [] []).
Proof.
  destruct (compute_stats_no_layers Example.no_std true 50) as [_ Hempty].
  by apply (Hempty _ _ [2%nat]).
Defined.

(** ** The cache files of the module, one against the other *)

Lemma dash_free_joined (a b : string) : dash_free (a +:+ "-" +:+ b) = false.
Proof.
  rewrite dash_free_app. change ("-" +:+ b) with (String "-" b).
  rewrite dash_free_cons. simpl. apply andb_false_r.
Qed.

Lemma joined_not_dash_free (a b c : string) :
  dash_free c = true → a +:+ "-" +:+ b ≠ c.
Proof. intros Hc H. rewrite <- H, dash_free_joined in Hc. discriminate. Qed.

Lemma strength_tier_nonneg (top_k : Z) : 0 ≤ strength_tier top_k.
Proof. unfold strength_tier. repeat case_decide; lia. Qed.

(** X27. The cache file of a tier of strengths is not the file of another
    cache of the module when the names hold no dash: its name differs from
    the names of the words file and of the states file of
    [load_words_and_state], from the key of a sample and from the key of a
    projection, whatever their arguments.  With a dash in the state name
    the states file of one call is the strengths file of another. *)
Theorem strength_file_name_apart :
  (∀ (d m s d' m' s' : string) (top_k : Z),
     dash_free d = true → dash_free m = true → dash_free s = true →
     dash_free d' = true → dash_free m' = true → dash_free s' = true →
     let tier_file := strength_file_name d m s (strength_tier top_k) in
     tier_file ≠ words_file_name d' m'
     ∧ (∀ diff, tier_file ≠ states_file_name d' m' s' diff)
     ∧ (∀ layer sample_size dim,
          tier_file ≠ signature_file_name d' m' s' layer sample_size dim)
     ∧ (∀ layer sample_size dim perplexity,
          tier_file ≠ tsne_file_name d' m' s' layer sample_size dim perplexity))
  ∧ strength_file_name "ptb" "GRU" "state" (strength_tier 100)
    = states_file_name "ptb" "GRU" "state-100" false.
Proof.
  split; [|done].
  intros d m s d' m' s' top_k Hd Hm Hs Hd' Hm' Hs' tier_file.
  unfold tier_file, strength_file_name, py_join. cbn [String.concat].
  pose proof (py_str_int_dash_free _ (strength_tier_nonneg top_k)) as Htier.
  split; [|split; [|split]].
  - unfold words_file_name. intros H.
    change "-words.pkl" with ("-" +:+ "words" +:+ ".pkl") in H.
    rewrite <- !append_assoc in H. apply append_inv_tail in H.
    rewrite !append_assoc in H.
    apply split_first_dash in H as [-> H]; [|done..].
    apply split_first_dash in H as [-> H]; [|done..].
    by apply joined_not_dash_free in H.
  - intros diff H. unfold states_file_name in H.
    destruct diff.
    + change ("-diff" +:+ ".pkl") with ("-" +:+ "diff" +:+ ".pkl") in H.
      rewrite <- !append_assoc in H. apply append_inv_tail in H.
      rewrite !append_assoc in H.
      apply split_first_dash in H as [-> H]; [|done..].
      apply split_first_dash in H as [-> H]; [|done..].
      apply split_first_dash in H as [-> H]; [|done..].
      by apply py_str_int_not_word in H.
    + rewrite append_nil_l in H.
      rewrite <- !append_assoc in H. apply append_inv_tail in H.
      rewrite !append_assoc in H.
      apply split_first_dash in H as [-> H]; [|done..].
      apply split_first_dash in H as [-> H]; [|done..].
      by apply joined_not_dash_free in H.
  - intros layer sample_size dim H.
    unfold signature_file_name, py_join in H. cbn [String.concat] in H.
    apply append_inv_tail in H.
    apply split_first_dash in H as [-> H]; [|done..].
    apply split_first_dash in H as [-> H]; [|done..].
    apply split_first_dash in H as [-> H]; [|done..].
    symmetry in H. by apply joined_not_dash_free in H.
  - intros layer sample_size dim perplexity H.
    unfold tsne_file_name, py_join in H. cbn [String.concat] in H.
    apply append_inv_tail in H.
    apply split_first_dash in H as [-> H]; [|done..].
    apply split_first_dash in H as [-> H]; [|done..].
    apply split_first_dash in H as [-> H]; [|done..].
    symmetry in H. by apply joined_not_dash_free in H.
Qed.

Lemma strength_file_name_apart_witness :
  strength_file_name "ptb" "GRU" "state" (strength_tier 100)
  ≠ states_file_name "ptb" "GRU" "state" true.
Proof.
  destruct strength_file_name_apart as [Hapart _].
  destruct (Hapart "ptb" "GRU" "state" "ptb" "GRU" "state" 100
              eq_refl eq_refl eq_refl eq_refl eq_refl eq_refl)
    as (_ & Hstates & _).
  apply Hstates.
Defined.
